(** * httptester: the HTC scanner, parser and expectation evaluator

    A shallow embedding of the scanner (scanner.go), the stanza parser
    (parser.go) and the commands [expect] and [tx] (the Go source of the
    commands) of ema/httptester, and the properties of the HTC language
    engine that are settled against it.

    Conventions of the embedding.
    - A Go [rune] is an [ascii] and a Go [string] is a [string], read as
      the sequence of its runes.  The scanner compares runes with ASCII
      constants only; the embedding covers the texts whose runes are
      below 256, each rune taking one place.
    - The reader [bufio.Reader] is the text still to be read together with
      the rune that [UnreadRune] may put back.
    - [int] is [Z]; [strconv.Atoi] checks the range of a 64-bit [int].
    - [map[string]string] is [gmap string string]; a nil map and an empty
      map read the same and are both the empty map.
    - A Go [error] is [option string], [None] being [nil].
    - A call returns, panics, ends the process ([log.Fatal]) or spins.
      The loops of the scanner are recursions on the text.  The loops of
      the parsers take fuel, and a run whose fuel runs out spins; the
      loops of [parseHandle] and [parseClient] do spin on a stanza that the
      end of the text leaves open. *)

From Stdlib Require Import ZArith Ascii String List Bool Lia DecimalString.
From stdpp Require Import base option gmap strings.

Import ListNotations.
Local Open Scope string_scope.
Local Open Scope list_scope.

(** ** Runes *)

Module Rune.

Definition code (ch : ascii) : N := N_of_ascii ch.

(** [var eof = rune(0)] *)
Definition eof : ascii := "000"%char.

Definition newline : ascii := "010"%char.
Definition tab : ascii := "009"%char.
Definition dquote : ascii := "034"%char.

Definition eqr (a b : ascii) : bool := Ascii.eqb a b.

Definition between (lo hi ch : ascii) : bool :=
  (code lo <=? code ch)%N && (code ch <=? code hi)%N.

(** [isWhitespace]: space, tab or newline. *)
Definition isWhitespace (ch : ascii) : bool :=
  eqr ch " " || eqr ch tab || eqr ch newline.

(** [isLetter] *)
Definition isLetter (ch : ascii) : bool :=
  between "a" "z" ch || between "A" "Z" ch.

(** [isDigit] *)
Definition isDigit (ch : ascii) : bool := between "0" "9" ch.

(** The test that [scan] and [scanIdent] both make on an identifier rune. *)
Definition isIdent (ch : ascii) : bool :=
  isLetter ch || isDigit ch || eqr ch "-" || eqr ch "_".

(** [string(ch)] *)
Definition to_string (ch : ascii) : string := String ch EmptyString.

End Rune.

(** A string made of one double quote, for writing scripts. *)
Definition dq : string := Rune.to_string Rune.dquote.

(** ** Tokens (scanner.go) *)

(** The [tokenType] constants of scanner.go, in the order of its constant
    block, and then [NEWLINE].

    Modelled from the spec: the token type [NEWLINE], the "line-break" of
    the spec's list of token kinds.  [TxResp.Parse], [TxReq.Parse] and the
    scanner's tests name it; the constant block of scanner.go does not
    declare it, and no function of scanner.go builds a token of that
    type. *)
Inductive tokenType : Type :=
| ILLEGAL | EOF | WS
| STRING | INTEGER
| DOT | HASH | OPEN_BRACKET | CLOSE_BRACKET | OPEN_CURLY | CLOSE_CURLY
| EQUAL | NOTEQUAL | TILDE
| HANDLE | CLIENT | EXPECT | TX
| REQ | RESP | METHOD | STATUS | HEADERS | BODY
| BODY_ARG | STATUS_ARG | HEADER_ARG | URL_ARG | METHOD_ARG
| NEWLINE.

#[global] Instance tokenType_eq_dec : EqDecision tokenType.
Proof. solve_decision. Defined.

Definition tokenType_eqb (a b : tokenType) : bool := bool_decide (a = b).

Record token : Type := newToken { typ : tokenType; val : string }.

#[global] Instance token_eq_dec : EqDecision token.
Proof. solve_decision. Defined.

(** ** Library functions the scanner and the parsers call *)

Module strconv.

Definition digit_value (ch : ascii) : Z :=
  Z.of_N (Rune.code ch) - Z.of_N (Rune.code "0").

(** The digits of a decimal numeral, most significant first. *)
Fixpoint digits (s : string) (acc : Z) : option Z :=
  match s with
  | EmptyString => Some acc
  | String ch rest =>
      if Rune.isDigit ch then digits rest (acc * 10 + digit_value ch)
      else None
  end.

Definition unsigned (s : string) : option Z :=
  match s with
  | EmptyString => None
  | _ => digits s 0
  end.

Definition min_int : Z := - 2 ^ 63.
Definition max_int : Z := 2 ^ 63 - 1.

Inductive NumError : Type := ErrSyntax | ErrRange.

(** The numeral [s] read as a signed decimal, when it is one. *)
Definition signed (s : string) : option Z :=
  match s with
  | String "-" rest => Z.opp <$> unsigned rest
  | String "+" rest => unsigned rest
  | _ => unsigned s
  end.

(** [strconv.Atoi] on a 64-bit [int]: an optional sign and at least one
    decimal digit; a value out of range is clamped and reported. *)
Definition Atoi (s : string) : Z * option NumError :=
  match signed s with
  | None => (0%Z, Some ErrSyntax)
  | Some n =>
      if (max_int <? n)%Z then (max_int, Some ErrRange)
      else if (n <? min_int)%Z then (min_int, Some ErrRange)
      else (n, None)
  end.

(** [strconv.Itoa] *)
Definition Itoa (n : Z) : string := NilZero.string_of_int (Z.to_int n).

Definition hex_digit (n : N) : ascii :=
  match String.get (N.to_nat n) "0123456789abcdef" with
  | Some c => c
  | None => "0"%char
  end.

Definition hex2 (ch : ascii) : string :=
  String (hex_digit (Rune.code ch / 16)) (String (hex_digit (Rune.code ch mod 16)) "").

(** [strconv.IsPrint] on the runes below 256. *)
Definition IsPrint (ch : ascii) : bool :=
  let n := Rune.code ch in
  ((32 <=? n) && (n <=? 126) ||
   (161 <=? n) && (n <=? 255) && negb (n =? 173))%N.

Definition quote_rune (ch : ascii) : string :=
  let n := Rune.code ch in
  if Rune.eqr ch Rune.dquote || Rune.eqr ch "\" then String "\" (Rune.to_string ch)
  else if IsPrint ch then Rune.to_string ch
  else if (n =? 7)%N then "\a"
  else if (n =? 8)%N then "\b"
  else if (n =? 12)%N then "\f"
  else if (n =? 10)%N then "\n"
  else if (n =? 13)%N then "\r"
  else if (n =? 9)%N then "\t"
  else if (n =? 11)%N then "\v"
  else if (n <? 32)%N || (n =? 127)%N then "\x" +:+ hex2 ch
  else "\u00" +:+ hex2 ch.

Fixpoint quote_body (s : string) : string :=
  match s with
  | EmptyString => EmptyString
  | String ch rest => quote_rune ch +:+ quote_body rest
  end.

(** [strconv.Quote], which the verb [%q] of package fmt applies. *)
Definition Quote (s : string) : string := dq +:+ quote_body s +:+ dq.

End strconv.

Module strings.

(** The text before the first colon and the text after it, when there
    is a colon. *)
Fixpoint cut_colon (s : string) : option (string * string) :=
  match s with
  | EmptyString => None
  | String ch rest =>
      if Rune.eqr ch ":" then Some (EmptyString, rest)
      else (fun p => (String ch (fst p), snd p)) <$> cut_colon rest
  end.

(** [strings.SplitN(s, ":", 2)] *)
Definition SplitN_colon_2 (s : string) : list string :=
  match cut_colon s with
  | Some (name, value) => [name; value]
  | None => [s]
  end.

End strings.

(** [token.String], the pretty-printer that error messages use. *)
Definition token_String (t : token) : string :=
  match typ t with
  | ILLEGAL => "ILLEGAL token " +:+ strconv.Quote (val t)
  | STRING => "STRING: " +:+ val t
  | INTEGER => "INTEGER: " +:+ val t
  | EOF => "EOF"
  | _ => val t
  end.

(** ** The scanner (scanner.go) *)

(** [pending] is the text not read yet; [last] is the rune that the last
    [ReadRune] returned, until an [UnreadRune] or a failed [ReadRune]
    forgets it. *)
Record scanner : Type := mkScanner { pending : string; last : option ascii }.

#[global] Instance scanner_eq_dec : EqDecision scanner.
Proof. solve_decision. Defined.

Definition newScanner (text : string) : scanner := mkScanner text None.

(** [read]: the next rune, or [eof] when [ReadRune] fails. *)
Definition read (s : scanner) : ascii * scanner :=
  match pending s with
  | EmptyString => (Rune.eof, mkScanner EmptyString None)
  | String ch rest => (ch, mkScanner rest (Some ch))
  end.

(** [unread]: [UnreadRune] puts the last rune back once; its error, when
    there is no rune to put back, is dropped. *)
Definition unread (s : scanner) : scanner :=
  match last s with
  | Some ch => mkScanner (String ch (pending s)) None
  | None => s
  end.

(** The loop of [scanWhitespace], on the text still to be read. *)
Fixpoint scanWhitespace_loop (text : string) : scanner :=
  match text with
  | EmptyString => mkScanner EmptyString None
  | String ch rest =>
      if Rune.eqr ch Rune.eof then mkScanner rest (Some ch)
      else if negb (Rune.isWhitespace ch) then unread (mkScanner rest (Some ch))
      else scanWhitespace_loop rest
  end.

Definition scanWhitespace (s : scanner) : token * scanner :=
  (newToken WS " ", scanWhitespace_loop (pending s)).

(** The loop of [scanQuotedString]; [buf] is the buffer. *)
Fixpoint scanQuotedString_loop (text : string) (buf : string) : string * scanner :=
  match text with
  | EmptyString => (buf, mkScanner EmptyString None)
  | String ch rest =>
      if Rune.eqr ch Rune.eof then (buf, mkScanner rest (Some ch))
      else if Rune.eqr ch Rune.dquote then (buf, mkScanner rest (Some ch))
      else scanQuotedString_loop rest (buf +:+ Rune.to_string ch)
  end.

Definition scanQuotedString (s : scanner) : token * scanner :=
  let (buf, s') := scanQuotedString_loop (pending s) EmptyString in
  (newToken STRING buf, s').

(** The loop of [scanIdent]. *)
Fixpoint scanIdent_loop (text : string) (buf : string) : string * scanner :=
  match text with
  | EmptyString => (buf, mkScanner EmptyString None)
  | String ch rest =>
      if Rune.eqr ch Rune.eof then (buf, mkScanner rest (Some ch))
      else if negb (Rune.isIdent ch) then (buf, unread (mkScanner rest (Some ch)))
      else scanIdent_loop rest (buf +:+ Rune.to_string ch)
  end.

(** The keyword table of [scanIdent], then [strconv.Atoi]. *)
Definition classify (str : string) : token :=
  if String.eqb str "eq" then newToken EQUAL str
  else if String.eqb str "ne" then newToken NOTEQUAL str
  else if String.eqb str "handle" then newToken HANDLE str
  else if String.eqb str "client" then newToken CLIENT str
  else if String.eqb str "expect" then newToken EXPECT str
  else if String.eqb str "req" then newToken REQ str
  else if String.eqb str "resp" then newToken RESP str
  else if String.eqb str "method" then newToken METHOD str
  else if String.eqb str "headers" then newToken HEADERS str
  else if String.eqb str "body" then newToken BODY str
  else if String.eqb str "status" then newToken STATUS str
  else if String.eqb str "tx" then newToken TX str
  else if String.eqb str "-body" then newToken BODY_ARG str
  else if String.eqb str "-status" then newToken STATUS_ARG str
  else if String.eqb str "-header" then newToken HEADER_ARG str
  else if String.eqb str "-method" then newToken METHOD_ARG str
  else if String.eqb str "-url" then newToken URL_ARG str
  else match snd (strconv.Atoi str) with
       | None => newToken INTEGER str
       | Some _ => newToken ILLEGAL str
       end.

Definition scanIdent (s : scanner) : token * scanner :=
  let (ch, s1) := read s in
  let (str, s2) := scanIdent_loop (pending s1) (Rune.to_string ch) in
  (classify str, s2).

(** The loop that [scan] runs on a comment: [inl] when the newline is
    found (the HASH token is returned), [inr] when the loop breaks on
    [eof]. *)
Fixpoint scanComment_loop (text : string) : scanner + scanner :=
  match text with
  | EmptyString => inr (mkScanner EmptyString None)
  | String ch rest =>
      if Rune.eqr ch Rune.newline then inl (mkScanner rest (Some ch))
      else if Rune.eqr ch Rune.eof then inr (mkScanner rest (Some ch))
      else scanComment_loop rest
  end.

(** The [switch] that ends [scan]. *)
Definition scanChar (ch : ascii) : token :=
  if Rune.eqr ch Rune.eof then newToken EOF ""
  else if Rune.eqr ch "." then newToken DOT (Rune.to_string ch)
  else if Rune.eqr ch "[" then newToken OPEN_BRACKET (Rune.to_string ch)
  else if Rune.eqr ch "]" then newToken CLOSE_BRACKET (Rune.to_string ch)
  else if Rune.eqr ch "{" then newToken OPEN_CURLY (Rune.to_string ch)
  else if Rune.eqr ch "}" then newToken CLOSE_CURLY (Rune.to_string ch)
  else if Rune.eqr ch "~" then newToken TILDE (Rune.to_string ch)
  else newToken ILLEGAL (Rune.to_string ch).

(** [scan] returns the next token. *)
Definition scan (s : scanner) : token * scanner :=
  let (ch, s1) := read s in
  if Rune.isWhitespace ch then scanWhitespace (unread s1)
  else if Rune.isIdent ch then scanIdent (unread s1)
  else if Rune.eqr ch Rune.dquote then scanQuotedString s1
  else if Rune.eqr ch "#" then
    match scanComment_loop (pending s1) with
    | inl s2 => (newToken HASH "#", s2)
    | inr s2 => (scanChar Rune.eof, s2)
    end
  else (scanChar ch, s1).

Definition skipped (t : tokenType) : bool :=
  tokenType_eqb t WS || tokenType_eqb t HASH.

(** The loop of [ScanUseful]; a token that is skipped takes at least one
    rune off the text, so the length of the text bounds the loop. *)
Fixpoint ScanUseful_loop (n : nat) (s : scanner) : token * scanner :=
  let (t, s') := scan s in
  if skipped (typ t) then
    match n with
    | O => (t, s')
    | S n' => ScanUseful_loop n' s'
    end
  else (t, s').

(** [ScanUseful] returns the next token that is neither whitespace nor a
    comment. *)
Definition ScanUseful (s : scanner) : token * scanner :=
  ScanUseful_loop (String.length (pending s)) s.

(** ** Results of the code that may panic, exit or spin *)

Inductive panic : Type :=
| IndexOutOfRange               (* a run-time panic of an index expression *)
| RegexpMatchError (err : string) (* log.Panic("regexp.Match error: ", err) *)
| UnknownOperator (op : tokenType) (* log.Panic("Unknown operator: ", op) *)
| ReadAllError (err : string).   (* log.Panic(err) on a body that fails to read *)

Inductive outcome (A : Type) : Type :=
| Returns (a : A)       (* the call returns *)
| Panics (p : panic)    (* the call panics *)
| Fatal (msg : string)  (* log.Fatal: the process exits *)
| Spins.                (* the fuel of a loop ran out *)

Arguments Returns {A} a.
Arguments Panics {A} p.
Arguments Fatal {A} msg.
Arguments Spins {A}.

#[global] Instance outcome_ret : MRet outcome := fun A a => Returns a.

#[global] Instance outcome_bind : MBind outcome := fun A B k m =>
  match m with
  | Returns a => k a
  | Panics p => Panics p
  | Fatal msg => Fatal msg
  | Spins => Spins
  end.

(** A Go [error]; [None] is [nil]. *)
Definition error : Type := option string.

Module fmt.

(** The format with its first verb, [%q] or [%s], replaced by the
    argument: [%q] quotes it, [%s] copies it. *)
Fixpoint Sprintf (format : string) (arg : string) : string :=
  match format with
  | String "%" (String "q" rest) => strconv.Quote arg +:+ rest
  | String "%" (String "s" rest) => arg +:+ rest
  | String ch rest => String ch (Sprintf rest arg)
  | EmptyString => EmptyString
  end.

(** [fmt.Errorf] with a token as its argument: the token is printed by
    its [String] method. *)
Definition Errorf (format : string) (t : token) : error :=
  Some (Sprintf format (token_String t)).

End fmt.

(** ** Commands (commands.go) *)

Inductive ExpectField : Type :=
| EXPECT_METHOD | EXPECT_HEADERS | EXPECT_BODY | EXPECT_STATUS.

Record Expect : Type := mkExpect {
  verbatim : string;
  field : ExpectField;
  headerName : string;
  operator : tokenType;
  expected : string
}.

(** [Expect{}] *)
Definition Expect_zero : Expect := mkExpect "" EXPECT_METHOD "" ILLEGAL "".

Definition add_verbatim (e : Expect) (text : string) : Expect :=
  mkExpect (verbatim e +:+ text) (field e) (headerName e) (operator e) (expected e).
Definition set_verbatim (e : Expect) (text : string) : Expect :=
  mkExpect text (field e) (headerName e) (operator e) (expected e).
Definition set_field (e : Expect) (f : ExpectField) : Expect :=
  mkExpect (verbatim e) f (headerName e) (operator e) (expected e).
Definition set_headerName (e : Expect) (name : string) : Expect :=
  mkExpect (verbatim e) (field e) name (operator e) (expected e).
Definition set_operator (e : Expect) (op : tokenType) : Expect :=
  mkExpect (verbatim e) (field e) (headerName e) op (expected e).
Definition set_expected (e : Expect) (v : string) : Expect :=
  mkExpect (verbatim e) (field e) (headerName e) (operator e) v.

Definition is_typ (t : token) (ty : tokenType) : bool := tokenType_eqb (typ t) ty.

(** The part of [Expect.Parse] that reads the field, and the header name
    of a [headers] field. *)
Definition Expect_Parse_field (e : Expect) (token : token) (s : scanner)
  : Expect * error * scanner :=
  if is_typ token METHOD then (set_field e EXPECT_METHOD, None, s)
  else if is_typ token STATUS then (set_field e EXPECT_STATUS, None, s)
  else if is_typ token BODY then (set_field e EXPECT_BODY, None, s)
  else if is_typ token HEADERS then
    let e := set_field e EXPECT_HEADERS in
    let (token, s) := ScanUseful s in
    let e := add_verbatim e (val token) in
    if negb (is_typ token OPEN_BRACKET) then
      (e, fmt.Errorf "Parse error in 'expect' command: expecting 'req.headers[$hdr_name]', got %q" token, s)
    else
    let (token, s) := ScanUseful s in
    let e := add_verbatim e (val token) in
    if negb (is_typ token STRING) then
      (e, fmt.Errorf "Parse error in 'expect' command: expecting 'req.headers[$hdr_name]', got %q" token, s)
    else
    let e := set_headerName e (val token) in
    let (token, s) := ScanUseful s in
    let e := add_verbatim e (val token) in
    if negb (is_typ token CLOSE_BRACKET) then
      (e, fmt.Errorf "Parse error in 'expect' command: expecting 'req.headers[$hdr_name]', got %q" token, s)
    else (e, None, s)
  else
    (e, fmt.Errorf "Parse error in 'expect' command: expecting 'req.{method,headers,body}', got %q" token, s).

(** [Expect.Parse]: the receiver [e] as the call leaves it, the error
    returned, and the scanner. *)
Definition Expect_Parse (e : Expect) (s : scanner) : Expect * error * scanner :=
  let (token, s) := ScanUseful s in
  let e := set_verbatim e (val token) in
  if negb (is_typ token REQ) && negb (is_typ token RESP) then
    (e, fmt.Errorf "Parse error in 'expect' command: expecting {req,resp}, got %q" token, s)
  else
  let (token, s) := ScanUseful s in
  let e := add_verbatim e (val token) in
  if negb (is_typ token DOT) then
    (e, fmt.Errorf "Parse error in 'expect' command: expecting something like 'req.method', got %q" token, s)
  else
  let (token, s) := ScanUseful s in
  let e := add_verbatim e (val token) in
  match Expect_Parse_field e token s with
  | (e, Some err, s) => (e, Some err, s)
  | (e, None, s) =>
      (* the operator *)
      let (token, s) := ScanUseful s in
      let e := add_verbatim e (" " +:+ val token) in
      if negb (is_typ token EQUAL) && negb (is_typ token NOTEQUAL) && negb (is_typ token TILDE) then
        (e, fmt.Errorf "Parse error in 'expect' command: expecting operator to be '{eq,ne,~}', got %q" token, s)
      else
      let e := set_operator e (typ token) in
      (* the value *)
      let (token, s) := ScanUseful s in
      let e := add_verbatim e (fmt.Sprintf " %q" (val token)) in
      if negb (is_typ token STRING) && negb (is_typ token INTEGER) then
        (e, fmt.Errorf "Parse error in 'expect' command: expecting a string/integer, got %q" token, s)
      else
      (set_expected e (val token), None, s)
  end.

(** [TxResp], the response that a [tx] command of a handle stanza
    describes. *)
Module TxResp.

Record t : Type := mk {
  statusCode : Z;
  headers : gmap string string;
  body : string
}.

(** [TxResp{}] *)
Definition zero : t := mk 0 ∅ "".

Definition set_statusCode (r : t) (n : Z) : t := mk n (headers r) (body r).
Definition set_header (r : t) (name value : string) : t :=
  mk (statusCode r) (<[name := value]> (headers r)) (body r).
Definition set_body (r : t) (b : string) : t := mk (statusCode r) (headers r) b.

(** The flag loop of [TxResp.Parse]. *)
Fixpoint Parse_loop (fuel : nat) (r : t) (s : scanner) : outcome (t * error * scanner) :=
  match fuel with
  | O => Spins
  | S fuel' =>
      let (token, s) := ScanUseful s in
      if is_typ token EOF || is_typ token CLOSE_CURLY || is_typ token NEWLINE then
        Returns (r, None, unread s)
      else if is_typ token BODY_ARG then
        let (token, s) := ScanUseful s in
        if negb (is_typ token STRING) then
          Returns (r, fmt.Errorf "Parse error in 'tx' command: expecting a string, got %q" token, s)
        else Parse_loop fuel' (set_body r (val token)) s
      else if is_typ token HEADER_ARG then
        let (token, s) := ScanUseful s in
        if negb (is_typ token STRING) then
          Returns (r, fmt.Errorf "Parse error in 'tx' command: expecting a string, got %q" token, s)
        else
          match strings.SplitN_colon_2 (val token) with
          | [name; value] => Parse_loop fuel' (set_header r name value) s
          | _ => Returns (r, fmt.Errorf "Parse error in 'tx' command: expecting a header, got %q" token, s)
          end
      else if is_typ token STATUS_ARG then
        let (token, s) := ScanUseful s in
        if negb (is_typ token INTEGER) then
          Returns (r, fmt.Errorf "Parse error in 'tx' command: expecting an integer, got %q" token, s)
        else Parse_loop fuel' (set_statusCode r (fst (strconv.Atoi (val token)))) s
      else
        Returns (r, fmt.Errorf "Parse error in 'tx' command: expecting -body, -header, or -status, got %q" token, s)
  end.

(** [TxResp.Parse] on the receiver [r]. *)
Definition Parse (fuel : nat) (r : t) (s : scanner) : outcome (t * error * scanner) :=
  Parse_loop fuel (mk 200 ∅ (body r)) s.

End TxResp.

(** [TxReq], the request that a [tx] command of a client stanza
    describes. *)
Module TxReq.

Record t : Type := mk {
  uri : string;
  method : string;
  headers : gmap string string;
  body : string
}.

(** [TxReq{}] *)
Definition zero : t := mk "" "" ∅ "".

Definition set_uri (r : t) (u : string) : t := mk u (method r) (headers r) (body r).
Definition set_method (r : t) (m : string) : t := mk (uri r) m (headers r) (body r).
Definition set_header (r : t) (name value : string) : t :=
  mk (uri r) (method r) (<[name := value]> (headers r)) (body r).
Definition set_body (r : t) (b : string) : t := mk (uri r) (method r) (headers r) b.

(** The flag loop of [TxReq.Parse]. *)
Fixpoint Parse_loop (fuel : nat) (r : t) (s : scanner) : outcome (t * error * scanner) :=
  match fuel with
  | O => Spins
  | S fuel' =>
      let (token, s) := ScanUseful s in
      if is_typ token EOF || is_typ token CLOSE_CURLY || is_typ token NEWLINE then
        Returns (r, None, unread s)
      else if is_typ token BODY_ARG then
        let (token, s) := ScanUseful s in
        if negb (is_typ token STRING) then
          Returns (r, fmt.Errorf "Parse error in 'tx' command: expecting a string, got %q" token, s)
        else Parse_loop fuel' (set_body r (val token)) s
      else if is_typ token HEADER_ARG then
        let (token, s) := ScanUseful s in
        if negb (is_typ token STRING) then
          Returns (r, fmt.Errorf "Parse error in 'tx' command: expecting a string, got %q" token, s)
        else
          match strings.SplitN_colon_2 (val token) with
          | [name; value] => Parse_loop fuel' (set_header r name value) s
          | _ => Returns (r, fmt.Errorf "Parse error in 'tx' command: expecting a header, got %q" token, s)
          end
      else if is_typ token METHOD_ARG then
        let (token, s) := ScanUseful s in
        if negb (is_typ token STRING) then
          Returns (r, fmt.Errorf "Parse error in 'tx' command: expecting a string, got %q" token, s)
        else Parse_loop fuel' (set_method r (val token)) s
      else if is_typ token URL_ARG then
        let (token, s) := ScanUseful s in
        if negb (is_typ token STRING) then
          Returns (r, fmt.Errorf "Parse error in 'tx' command: expecting a string, got %q" token, s)
        else Parse_loop fuel' (set_uri r (val token)) s
      else
        Returns (r, fmt.Errorf "Parse error in 'tx' command: expecting -url, -header, method, or -body, got %q" token, s)
  end.

(** [TxReq.Parse] on the receiver [r]. *)
Definition Parse (fuel : nat) (r : t) (s : scanner) : outcome (t * error * scanner) :=
  Parse_loop fuel (mk (uri r) "GET" ∅ (body r)) s.

End TxReq.

(** ** Stanzas (parser.go) *)

Module HandleStanza.

Record t : Type := mk {
  URIPath : string;
  Expectations : list Expect;
  Response : TxResp.t
}.

(** [var h HandleStanza] *)
Definition zero : t := mk "" [] TxResp.zero.

Definition set_URIPath (h : t) (p : string) : t := mk p (Expectations h) (Response h).
Definition add_Expectation (h : t) (e : Expect) : t :=
  mk (URIPath h) (Expectations h ++ [e]) (Response h).
Definition set_Response (h : t) (r : TxResp.t) : t := mk (URIPath h) (Expectations h) r.

End HandleStanza.

Module ClientStanza.

Record t : Type := mk {
  Name : string;
  Request : TxReq.t;
  Expectations : list Expect
}.

(** [var c ClientStanza] *)
Definition zero : t := mk "" TxReq.zero [].

Definition set_Name (c : t) (n : string) : t := mk n (Request c) (Expectations c).
Definition set_Request (c : t) (r : TxReq.t) : t := mk (Name c) r (Expectations c).
Definition add_Expectation (c : t) (e : Expect) : t :=
  mk (Name c) (Request c) (Expectations c ++ [e]).

End ClientStanza.

(** [token.val[0]]: the index expression panics on an empty string. *)
Definition index0 (str : string) : outcome ascii :=
  match str with
  | EmptyString => Panics IndexOutOfRange
  | String ch _ => Returns ch
  end.

(** The loop of [parseHandle]. *)
Fixpoint parseHandle_loop (fuel : nat) (h : HandleStanza.t) (s : scanner)
  : outcome (HandleStanza.t * error * scanner) :=
  match fuel with
  | O => Spins
  | S fuel' =>
      let (token, s) := ScanUseful s in
      if is_typ token CLOSE_CURLY then Returns (h, None, s)
      else if is_typ token EXPECT then
        match Expect_Parse Expect_zero s with
        | (_, Some err, s) => Returns (h, Some err, s)
        | (exp, None, s) => parseHandle_loop fuel' (HandleStanza.add_Expectation h exp) s
        end
      else if is_typ token TX then
        '(resp, err, s) ← TxResp.Parse fuel TxResp.zero s;
        let h := HandleStanza.set_Response h resp in
        match err with
        | Some err => Returns (h, Some err, s)
        | None =>
            (* sending the response is the last action of the block *)
            let (token, s) := ScanUseful s in
            if negb (is_typ token CLOSE_CURLY) then
              Returns (h, fmt.Errorf "Parse error in 'handle' stanza: expecting '}' after 'tx' command, got %q" token, s)
            else Returns (h, None, s)
        end
      else parseHandle_loop fuel' h s
  end.

(** [parseHandle] *)
Definition parseHandle (fuel : nat) (s : scanner) : outcome (HandleStanza.t * error * scanner) :=
  let h := HandleStanza.zero in
  let (token, s) := ScanUseful s in
  (* token.typ != STRING || token.val[0] != '/' *)
  bad ← (if negb (is_typ token STRING) then Returns true
         else ch ← index0 (val token); Returns (negb (Rune.eqr ch "/")));
  if bad : bool then
    Returns (h, fmt.Errorf "Parse error in 'handle' stanza: expecting a URI path starting with '/', got %q" token, s)
  else
  let h := HandleStanza.set_URIPath h (val token) in
  let (token, s) := ScanUseful s in
  if negb (is_typ token OPEN_CURLY) then
    Returns (h, fmt.Errorf "Parse error in 'handle' stanza: expecting '{', got %q" token, s)
  else parseHandle_loop fuel h s.

(** The loop of [parseClient]. *)
Fixpoint parseClient_loop (fuel : nat) (c : ClientStanza.t) (s : scanner)
  : outcome (ClientStanza.t * error * scanner) :=
  match fuel with
  | O => Spins
  | S fuel' =>
      let (token, s) := ScanUseful s in
      if is_typ token CLOSE_CURLY then Returns (c, None, s)
      else if is_typ token TX then
        '(req, err, s) ← TxReq.Parse fuel TxReq.zero s;
        let c := ClientStanza.set_Request c req in
        match err with
        | Some err => Returns (c, Some err, s)
        | None => parseClient_loop fuel' c s
        end
      else if is_typ token EXPECT then
        match Expect_Parse Expect_zero s with
        | (_, Some err, s) => Returns (c, Some err, s)
        | (exp, None, s) => parseClient_loop fuel' (ClientStanza.add_Expectation c exp) s
        end
      else parseClient_loop fuel' c s
  end.

(** [parseClient] *)
Definition parseClient (fuel : nat) (s : scanner) : outcome (ClientStanza.t * error * scanner) :=
  let c := ClientStanza.zero in
  let (token, s) := ScanUseful s in
  if negb (is_typ token STRING) then
    Returns (c, fmt.Errorf "Parse error in 'client' stanza: expecting a name for the client, got %q" token, s)
  else
  let c := ClientStanza.set_Name c (val token) in
  let (token, s) := ScanUseful s in
  if negb (is_typ token OPEN_CURLY) then
    Returns (c, fmt.Errorf "Parse error in 'client' stanza: expecting '{', got %q" token, s)
  else parseClient_loop fuel c s.

(** What [Parse] returns: the handlers, the clients and the error. *)
Definition program : Type := list HandleStanza.t * list ClientStanza.t * error.

Definition no_stanza_error : string :=
  "Parse error: at least one of 'handle' or 'client' stanza are needed".

(** The loop of [Parse] and the check that follows it. *)
Fixpoint Parse_loop (fuel : nat) (h : list HandleStanza.t) (c : list ClientStanza.t)
    (s : scanner) : outcome program :=
  match fuel with
  | O => Spins
  | S fuel' =>
      let (token, s) := ScanUseful s in
      if is_typ token EOF then
        if (length h =? 0)%nat && (length c =? 0)%nat then Returns (h, c, Some no_stanza_error)
        else Returns (h, c, None)
      else if is_typ token ILLEGAL then
        Returns (h, c, fmt.Errorf "Parse error: %s" token)
      else if is_typ token HANDLE then
        '(hs, err, s) ← parseHandle fuel s;
        match err with
        | Some err => Returns (h, c, Some err)
        | None => Parse_loop fuel' (h ++ [hs]) c s
        end
      else if is_typ token CLIENT then
        '(cs, err, s) ← parseClient fuel s;
        match err with
        | Some err => Returns (h, c, Some err)
        | None => Parse_loop fuel' h (c ++ [cs]) s
        end
      else Parse_loop fuel' h c s
  end.

(** [Parse] on the text that the reader holds. *)
Definition Parse (fuel : nat) (text : string) : outcome program :=
  Parse_loop fuel [] [] (newScanner text).

(** ** A model of the library call [regexp.Match]

    The evaluator calls [regexp.Match] of the Go library.  The evaluator
    below takes the call as a parameter; this module gives an executable
    model of it on a fragment of the RE2 syntax, for patterns and texts of
    ASCII runes: literals, [.], classes [[...]] of characters and ranges,
    escaped punctuation, the escapes [\a \f \n \r \t \v], the classes
    [\d \D \s \S \w \W] outside brackets, the anchors [^ $ \A \z], the word
    boundaries [\b \B], groups [(...)] and [(?:...)], alternation, the
    operators [* + ?] and the counted repetitions [{n} {n,} {n,m}], with
    their lazy forms.  On the fragment the model returns what the library
    returns: the verdict, or the error of the parser of package
    regexp/syntax, whose text is [error parsing regexp: ], the error code,
    and the offending expression between backquotes.

    Outside the fragment the model says nothing of the library: [compile]
    returns [Unsupported], and [Match] returns the error
    [unsupported_error], which the library never returns.  Outside the
    fragment are: a pattern or a text with a rune above 127, a pattern of
    more than 256 runes, the other escapes made of a letter or a digit
    (octal and hexadecimal escapes, [\p], [\Q], [\C]), an escape made of a
    letter or a digit and a bracket [[] inside brackets (named classes),
    flags and named groups [(?...)], and a counted repetition of an
    expression that holds a counted repetition (its size is limited by the
    recent releases of the library). *)
Module regexp.

Inductive re : Type :=
| Empty                                        (* the empty string *)
| Lit (ch : ascii)
| AnyNotNL                                     (* [.] *)
| Class (neg : bool) (ranges : list (ascii * ascii))
| Bol                                          (* [^], [\A]: the beginning of the text *)
| Eol                                          (* [$], [\z]: the end of the text *)
| WordBoundary (neg : bool)                    (* [\b]; [\B] when [neg] *)
| Cat (a b : re)
| Alt (a b : re)
| Star (a : re)
| Repeat (min : nat) (max : option nat) (a : re).  (* [a{min,max}]; [a{min,}] *)

Definition Plus (a : re) : re := Cat a (Star a).
Definition Quest (a : re) : re := Alt a Empty.

Inductive compiled : Type :=
| Compiled (r : re)
| SyntaxError (code expr : string)  (* the Error of package regexp/syntax *)
| Unsupported.                      (* outside the fragment *)

(** *** Parsing *)

(** A group being parsed: the alternatives that are complete, and the
    items of the alternative being read, last item first. *)
Record frame : Type := mkFrame { alts : list re; items : list re }.

(** A rune of a class that is read and not stored yet, with its text in
    the pattern. *)
Definition class_item : Type := (ascii * string)%type.

Inductive mode : Type :=
| Normal
| Escape
| ClassOpen (cls : string)
| ClassBody (cls : string) (neg : bool) (ranges : list (ascii * ascii)) (first : bool)
            (lo : option class_item)
| ClassEscape (cls : string) (neg : bool) (ranges : list (ascii * ascii))
| ClassHi (cls : string) (neg : bool) (ranges : list (ascii * ascii)) (lo : class_item)
| ClassHiEscape (cls : string) (neg : bool) (ranges : list (ascii * ascii)) (lo : class_item).

Fixpoint cat_of (l : list re) : re :=
  match l with
  | [] => Empty
  | [a] => a
  | a :: rest => Cat a (cat_of rest)
  end.

Fixpoint alt_of (l : list re) : re :=
  match l with
  | [] => Empty
  | [a] => a
  | a :: rest => Alt a (alt_of rest)
  end.

Definition close_frame (f : frame) : re :=
  alt_of (alts f ++ [cat_of (rev (items f))]).

Definition push (f : frame) (a : re) : frame := mkFrame (alts f) (a :: items f).

Definition isalnum (ch : ascii) : bool := Rune.isLetter ch || Rune.isDigit ch.

Definition max_pattern : nat := 256.

(** The limit of a counted repetition. *)
Definition max_repeat : N := 1000.

Definition is_ascii (s : string) : bool :=
  forallb (fun ch => (Rune.code ch <? 128)%N) (list_ascii_of_string s).

(** The classes of Perl. *)
Definition perl_d : list (ascii * ascii) := [("0", "9")]%char.
Definition perl_s : list (ascii * ascii) :=
  [("009", "010"); ("012", "013"); (" ", " ")]%char.
Definition perl_w : list (ascii * ascii) :=
  [("0", "9"); ("A", "Z"); ("_", "_"); ("a", "z")]%char.

(** The item of an escape made of a letter, outside brackets. *)
Definition escape_item (ch : ascii) : option re :=
  if Rune.eqr ch "d" then Some (Class false perl_d)
  else if Rune.eqr ch "D" then Some (Class true perl_d)
  else if Rune.eqr ch "s" then Some (Class false perl_s)
  else if Rune.eqr ch "S" then Some (Class true perl_s)
  else if Rune.eqr ch "w" then Some (Class false perl_w)
  else if Rune.eqr ch "W" then Some (Class true perl_w)
  else if Rune.eqr ch "A" then Some Bol
  else if Rune.eqr ch "z" then Some Eol
  else if Rune.eqr ch "b" then Some (WordBoundary false)
  else if Rune.eqr ch "B" then Some (WordBoundary true)
  else if Rune.eqr ch "a" then Some (Lit "007")
  else if Rune.eqr ch "f" then Some (Lit "012")
  else if Rune.eqr ch "n" then Some (Lit "010")
  else if Rune.eqr ch "r" then Some (Lit "013")
  else if Rune.eqr ch "t" then Some (Lit "009")
  else if Rune.eqr ch "v" then Some (Lit "011")
  else None.

(** [parseInt]: the digits at the start of [s], without a leading zero. *)
Fixpoint digits (s : string) : string * string :=
  match s with
  | String ch rest =>
      if Rune.isDigit ch then let (ds, rest') := digits rest in (String ch ds, rest')
      else (EmptyString, s)
  | EmptyString => (EmptyString, EmptyString)
  end.

Fixpoint number (ds : string) (acc : N) : N :=
  match ds with
  | String ch rest => number rest (acc * 10 + (Rune.code ch - 48))%N
  | EmptyString => acc
  end.

Definition parseInt (s : string) : option (N * string) :=
  match digits s with
  | (EmptyString, _) => None
  | (String "0" (String _ _), _) => None
  | (ds, rest) => Some (number ds 0%N, rest)
  end.

(** [parseRepeat], on the text after the opening brace: the minimum, the
    maximum when there is one, and the text after the closing brace. *)
Definition parseRepeat (s : string) : option (N * option N * string) :=
  match parseInt s with
  | None => None
  | Some (min, s1) =>
      match s1 with
      | String "}" after => Some (min, Some min, after)
      | String "," (String "}" after) => Some (min, None, after)
      | String "," s2 =>
          match parseInt s2 with
          | Some (max, String "}" after) => Some (min, Some max, after)
          | _ => None
          end
      | _ => None
      end
  end.

Definition bad_repeat (min : N) (max : option N) : bool :=
  (max_repeat <? min)%N
  || match max with
     | Some max => (max_repeat <? max)%N || (max <? min)%N
     | None => false
     end.

(** The first [n] runes of [s]. *)
Definition prefix (n : nat) (s : string) : string := String.substring 0 n s.

Fixpoint has_repeat (r : re) : bool :=
  match r with
  | Repeat _ _ _ => true
  | Cat a b | Alt a b => has_repeat a || has_repeat b
  | Star a => has_repeat a
  | _ => false
  end.

(** A repetition operator: what it makes of its argument, or nothing
    when the model does not cover the repetition of that argument. *)
Definition rep_operator : Type := re -> option re.

Definition simple_operator (ch : ascii) : rep_operator :=
  fun a => Some (if Rune.eqr ch "*" then Star a
                 else if Rune.eqr ch "+" then Plus a
                 else Quest a).

Definition counted_operator (min : N) (max : option N) : rep_operator :=
  fun a =>
    if has_repeat a then None
    else Some (Repeat (N.to_nat min) (N.to_nat <$> max) a).

Definition is_rep_op (ch : ascii) : bool :=
  Rune.eqr ch "*" || Rune.eqr ch "+" || Rune.eqr ch "?".

Definition starts_with (ch : ascii) (s : string) : bool :=
  match s with
  | String c _ => Rune.eqr c ch
  | EmptyString => false
  end.

(** The state of the parser between two runes: the groups that are open,
    the group being read, the text of the repetition that was just read
    (empty when the last item is not a repetition), and the mode. *)
Record state : Type := mkState {
  stack : list frame;
  cur : frame;
  rep : string;
  md : mode
}.

(** What a rune makes of the state: the next state and the number of
    runes to skip after it, or the end of the parse. *)
Inductive advance : Type :=
| Next (st : state) (skip : nat)
| Stop (c : compiled).

(** The method [repeat] of the parser: [op] is the text of the operator,
    [after] the text after it.  A question mark after the operator makes
    it lazy and belongs to it. *)
Definition repeat (st : state) (f : rep_operator) (op after : string) (skip : nat) : advance :=
  let lazy := starts_with "?" after in
  let op := if lazy then op +:+ "?" else op in
  let skip := if lazy then S skip else skip in
  if negb (String.eqb (rep st) "") then
    Stop (SyntaxError "invalid nested repetition operator" (rep st +:+ op))
  else
    match items (cur st) with
    | [] => Stop (SyntaxError "missing argument to repetition operator" op)
    | a :: before =>
        match f a with
        | None => Stop Unsupported
        | Some a' => Next (mkState (stack st) (mkFrame (alts (cur st)) (a' :: before)) op Normal)
                          skip
        end
    end.

Definition item (st : state) (a : re) : advance :=
  Next (mkState (stack st) (push (cur st) a) "" Normal) 0.

Definition to_mode (st : state) (m : mode) : advance :=
  Next (mkState (stack st) (cur st) "" m) 0.

Definition flush (ranges : list (ascii * ascii)) (lo : option class_item)
  : list (ascii * ascii) :=
  match lo with
  | Some (ch, _) => ranges ++ [(ch, ch)]
  | None => ranges
  end.

(** The start of an item of a class, at the rune [ch]. *)
Definition class_start (st : state) (cls : string) (neg : bool)
    (ranges : list (ascii * ascii)) (first : bool) (ch : ascii) : advance :=
  if Rune.eqr ch "]" && negb first then item st (Class neg ranges)
  else if Rune.eqr ch "\" then to_mode st (ClassEscape cls neg ranges)
  else if Rune.eqr ch "[" then Stop Unsupported
  else to_mode st (ClassBody cls neg ranges false (Some (ch, Rune.to_string ch))).

(** The end of a range of a class, at the rune [hi] written [text]. *)
Definition class_range (st : state) (cls : string) (neg : bool)
    (ranges : list (ascii * ascii)) (lo : class_item) (hi : ascii) (text : string) : advance :=
  if (Rune.code hi <? Rune.code (fst lo))%N then
    Stop (SyntaxError "invalid character class range" (snd lo +:+ "-" +:+ text))
  else to_mode st (ClassBody cls neg (ranges ++ [(fst lo, hi)]) false None).

(** One rune [ch] of the pattern, with the text [rest] after it. *)
Definition step_rune (whole : string) (st : state) (ch : ascii) (rest : string) : advance :=
  match md st with
  | Escape =>
      match escape_item ch with
      | Some a => item st a
      | None => if isalnum ch then Stop Unsupported else item st (Lit ch)
      end
  | ClassOpen cls =>
      if Rune.eqr ch "^" then to_mode st (ClassBody cls true [] true None)
      else class_start st cls false [] true ch
  | ClassBody cls neg ranges first lo =>
      match lo with
      | Some l =>
          if Rune.eqr ch "-" && negb (String.eqb rest "") && negb (starts_with "]" rest)
          then to_mode st (ClassHi cls neg ranges l)
          else class_start st cls neg (flush ranges lo) first ch
      | None => class_start st cls neg ranges first ch
      end
  | ClassEscape cls neg ranges =>
      if isalnum ch then Stop Unsupported
      else to_mode st (ClassBody cls neg ranges false
                         (Some (ch, String "\" (Rune.to_string ch))))
  | ClassHi cls neg ranges lo =>
      if Rune.eqr ch "\" then to_mode st (ClassHiEscape cls neg ranges lo)
      else if Rune.eqr ch "[" then Stop Unsupported
      else class_range st cls neg ranges lo ch (Rune.to_string ch)
  | ClassHiEscape cls neg ranges lo =>
      if isalnum ch then Stop Unsupported
      else class_range st cls neg ranges lo ch (String "\" (Rune.to_string ch))
  | Normal =>
      if Rune.eqr ch "\" then to_mode st Escape
      else if Rune.eqr ch "[" then to_mode st (ClassOpen (String ch rest))
      else if Rune.eqr ch "{" then
        match parseRepeat rest with
        | None => item st (Lit ch)
        | Some (min, max, after) =>
            let n := String.length rest - String.length after in
            let op := String ch (prefix n rest) in
            if bad_repeat min max then Stop (SyntaxError "invalid repeat count" op)
            else repeat st (counted_operator min max) op after n
        end
      else if Rune.eqr ch "(" then
        match rest with
        | String "?" (String ":" _) =>
            Next (mkState (cur st :: stack st) (mkFrame [] []) "" Normal) 2
        | String "?" _ => Stop Unsupported
        | _ => Next (mkState (cur st :: stack st) (mkFrame [] []) "" Normal) 0
        end
      else if Rune.eqr ch ")" then
        match stack st with
        | [] => Stop (SyntaxError "unexpected )" whole)
        | outer :: stack' =>
            Next (mkState stack' (push outer (close_frame (cur st))) "" Normal) 0
        end
      else if Rune.eqr ch "|" then
        Next (mkState (stack st)
                (mkFrame (alts (cur st) ++ [cat_of (rev (items (cur st)))]) []) "" Normal) 0
      else if is_rep_op ch then repeat st (simple_operator ch) (Rune.to_string ch) rest 0
      else if Rune.eqr ch "." then item st AnyNotNL
      else if Rune.eqr ch "^" then item st Bol
      else if Rune.eqr ch "$" then item st Eol
      else item st (Lit ch)
  end.

(** The end of the pattern. *)
Definition finish (whole : string) (st : state) : compiled :=
  match md st with
  | Normal =>
      match stack st with
      | [] => Compiled (close_frame (cur st))
      | _ => SyntaxError "missing closing )" whole
      end
  | Escape | ClassEscape _ _ _ | ClassHiEscape _ _ _ _ =>
      SyntaxError "trailing backslash at end of expression" ""
  | ClassOpen cls | ClassBody cls _ _ _ _ | ClassHi cls _ _ _ =>
      SyntaxError "missing closing ]" cls
  end.

(** One pass over the pattern [whole], of which [p] is left to read. *)
Fixpoint parse (whole p : string) (st : state) (skip : nat) : compiled :=
  match p with
  | EmptyString => finish whole st
  | String ch rest =>
      match skip with
      | S skip' => parse whole rest st skip'
      | O =>
          match step_rune whole st ch rest with
          | Next st' skip' => parse whole rest st' skip'
          | Stop c => c
          end
      end
  end.

Definition compile (pattern : string) : compiled :=
  if negb (is_ascii pattern) || (max_pattern <? String.length pattern)%nat then Unsupported
  else parse pattern pattern (mkState [] (mkFrame [] []) "" Normal) 0.

(** *** Matching *)

Definition in_ranges (ranges : list (ascii * ascii)) (ch : ascii) : bool :=
  existsb (fun r => Rune.between (fst r) (snd r) ch) ranges.

(** The positions where a match of one rune that starts at [i] ends. *)
Definition one (ok : ascii -> bool) (text : string) (i : nat) : list nat :=
  match String.get i text with
  | Some ch => if ok ch then [S i] else []
  | None => []
  end.

(** The positions reached from [acc] by at most [n] rounds of [step]. *)
Fixpoint closure (step : nat -> list nat) (n : nat) (acc : list nat) : list nat :=
  match n with
  | O => acc
  | S n' => closure step n' (List.nodup Nat.eq_dec (acc ++ flat_map step acc))
  end.

(** The positions reached from [acc] by [n] rounds of [step]. *)
Fixpoint rounds (step : nat -> list nat) (n : nat) (acc : list nat) : list nat :=
  match n with
  | O => acc
  | S n' => rounds step n' (List.nodup Nat.eq_dec (flat_map step acc))
  end.

(** A rune of a word, for [\b]. *)
Definition is_word (text : string) (i : nat) : bool :=
  match String.get i text with
  | Some ch => in_ranges perl_w ch
  | None => false
  end.

Definition at_word_boundary (text : string) (i : nat) : bool :=
  xorb (match i with O => false | S j => is_word text j end) (is_word text i).

(** The positions where a match of [r] that starts at [i] ends. *)
Fixpoint ends (r : re) (text : string) (i : nat) : list nat :=
  match r with
  | Empty => [i]
  | Lit c => one (Rune.eqr c) text i
  | AnyNotNL => one (fun ch => negb (Rune.eqr ch Rune.newline)) text i
  | Class neg ranges => one (fun ch => xorb neg (in_ranges ranges ch)) text i
  | Bol => if (i =? 0)%nat then [i] else []
  | Eol => if (i =? String.length text)%nat then [i] else []
  | WordBoundary neg => if xorb neg (at_word_boundary text i) then [i] else []
  | Cat a b => flat_map (ends b text) (ends a text i)
  | Alt a b => ends a text i ++ ends b text i
  | Star a => closure (ends a text) (S (String.length text)) [i]
  | Repeat min max a =>
      let from := rounds (ends a text) min [i] in
      match max with
      | Some max => closure (ends a text) (max - min) from
      | None => closure (ends a text) (S (String.length text)) from
      end
  end.

(** A match of [r] starts at some position of the text. *)
Definition matches (r : re) (text : string) : bool :=
  existsb (fun i => negb (bool_decide (ends r text i = [])))
          (seq 0 (S (String.length text))).

(** The text of an [Error] of package regexp/syntax. *)
Definition Error (code expr : string) : string :=
  "error parsing regexp: " +:+ code +:+ ": `" +:+ expr +:+ "`".

(** What [Match] returns outside the fragment; the library has no such
    error. *)
Definition unsupported_error : string := "pattern outside the modelled fragment".

(** [regexp.Match(pattern, text)] on the fragment. *)
Definition Match (pattern text : string) : bool * error :=
  match compile pattern with
  | Compiled r =>
      if is_ascii text then (matches r text, None) else (false, Some unsupported_error)
  | SyntaxError code expr => (false, Some (Error code expr))
  | Unsupported => (false, Some unsupported_error)
  end.

(** The pattern and the text are in the fragment. *)
Definition modelled (pattern text : string) : bool :=
  match compile pattern with
  | Compiled _ => is_ascii text
  | SyntaxError _ _ => true
  | Unsupported => false
  end.

End regexp.

(** ** The messages of package net/http that the evaluator reads *)

Module http.

(** The [Body] of a message: nil, a reader that [ioutil.ReadAll] reads
    to the end, or a reader that fails. *)
Inductive body : Type :=
| NoBody
| Reads (data : string)
| ReadFails (err : string).

(** [Header_Get] is [Header.Get]: the value of the named header, or the
    empty string. *)
Record Request : Type := mkRequest {
  Method : string;
  Header_Get : string -> string;
  Body : body
}.

Record Response : Type := mkResponse {
  StatusCode : Z;
  resp_Header_Get : string -> string;
  resp_Body : body
}.

End http.

(** ** The evaluator (commands.go) *)

Section Evaluator.

(** [regexp.Match] of the Go library: the verdict and the error. *)
Variable regexp_Match : string -> string -> bool * error.

(** [Expect.expectThing] *)
Definition expectThing (e : Expect) (actual : string) : outcome bool :=
  match operator e with
  | EQUAL => Returns (String.eqb (expected e) actual)
  | NOTEQUAL => Returns (negb (String.eqb (expected e) actual))
  | TILDE =>
      match regexp_Match (expected e) actual with
      | (_, Some err) => Panics (RegexpMatchError err)
      | (ret, None) => Returns ret
      end
  | op => Panics (UnknownOperator op)
  end.

Definition ReadAll (b : http.body) : outcome string :=
  match b with
  | http.NoBody => Returns ""
  | http.Reads data => Returns data
  | http.ReadFails err => Panics (ReadAllError err)
  end.

(** [Expect.ActualRequest] *)
Definition ActualRequest (e : Expect) (req : http.Request) : outcome string :=
  match field e with
  | EXPECT_METHOD => Returns (http.Method req)
  | EXPECT_HEADERS => Returns (http.Header_Get req (headerName e))
  | EXPECT_BODY => ReadAll (http.Body req)
  | EXPECT_STATUS => Fatal "Requests have no status"
  end.

(** [Expect.Request] *)
Definition Request (e : Expect) (req : http.Request) : outcome bool :=
  actual ← ActualRequest e req; expectThing e actual.

(** [Expect.ActualResponse] *)
Definition ActualResponse (e : Expect) (resp : http.Response) : outcome string :=
  match field e with
  | EXPECT_STATUS => Returns (strconv.Itoa (http.StatusCode resp))
  | EXPECT_HEADERS => Returns (http.resp_Header_Get resp (headerName e))
  | EXPECT_BODY => ReadAll (http.resp_Body resp)
  | EXPECT_METHOD => Returns ""
  end.

(** [Expect.Response] *)
Definition Response (e : Expect) (resp : http.Response) : outcome bool :=
  actual ← ActualResponse e resp; expectThing e actual.

End Evaluator.

(** ** Kinds of tokens, for the properties below *)

(** The token types that [scanIdent] can return. *)
Definition ident_kind (ty : tokenType) : bool :=
  match ty with
  | EQUAL | NOTEQUAL | HANDLE | CLIENT | EXPECT | TX | REQ | RESP
  | METHOD | STATUS | HEADERS | BODY
  | BODY_ARG | STATUS_ARG | HEADER_ARG | URL_ARG | METHOD_ARG
  | INTEGER | ILLEGAL => true
  | _ => false
  end.

(** The token types that the final [switch] of [scan] can return. *)
Definition char_kind (ty : tokenType) : bool :=
  match ty with
  | EOF | DOT | OPEN_BRACKET | CLOSE_BRACKET | OPEN_CURLY | CLOSE_CURLY | TILDE
  | ILLEGAL => true
  | _ => false
  end.

(** The kinds of the tokens that [scan] makes of one rune read by one
    [read]: end of input and the punctuation. *)
Definition single_rune (ty : tokenType) : bool :=
  match ty with
  | EOF | DOT | OPEN_BRACKET | CLOSE_BRACKET | OPEN_CURLY | CLOSE_CURLY | TILDE => true
  | _ => false
  end.

(** ** Runs with fuel *)

(** A run settles on [o] when every run with enough fuel ends with [o]. *)
Definition settles {A : Type} (run : nat -> outcome A) (o : outcome A) : Prop :=
  exists n, forall fuel, n <= fuel -> run fuel = o.

(** ** Scripts *)

(** A line break, and a string literal of the HTC language. *)
Definition nl : string := Rune.to_string Rune.newline.
Definition quoted (text : string) : string := dq +:+ text +:+ dq.

(** The script simple.htc, which is also the example of README.md. *)
Definition simple_htc : string :=
  "# Test a basic get request" +:+ nl +:+
  nl +:+
  "handle " +:+ quoted "/endpoint/1" +:+ " {" +:+ nl +:+
  "    expect req.method eq " +:+ quoted "GET" +:+ nl +:+
  "    expect req.headers[" +:+ quoted "User-Agent" +:+ "] ~ " +:+ quoted "chrome" +:+ nl +:+
  "    expect req.body eq " +:+ quoted "" +:+ nl +:+
  "    tx -body " +:+ quoted "Hello world!" +:+ " -header " +:+ quoted "X-HTC-Origin: true"
     +:+ " -status 200" +:+ nl +:+
  "}" +:+ nl +:+
  nl +:+
  "client " +:+ quoted "nemo" +:+ " {" +:+ nl +:+
  "    tx -url " +:+ quoted "/endpoint/1" +:+ " -method " +:+ quoted "GET" +:+ " -header "
     +:+ quoted "User-Agent: this might look like chrome to some" +:+ nl +:+
  "    expect resp.status ne 404" +:+ nl +:+
  "    expect resp.headers[" +:+ quoted "Server" +:+ "] ~ "
     +:+ quoted "^ATS/[0-9]\.[0-9]\.[0-9]$" +:+ nl +:+
  "    expect resp.headers[" +:+ quoted "Something-That-Should-Not-Be-Set" +:+ "] eq "
     +:+ quoted "" +:+ nl +:+
  "    expect resp.status eq 200" +:+ nl +:+
  "}" +:+ nl.

(** The handle stanza of simple.htc, parsed. *)
Definition simple_htc_handler : HandleStanza.t :=
  HandleStanza.mk "/endpoint/1"
    [ mkExpect ("req.method eq " +:+ quoted "GET") EXPECT_METHOD "" EQUAL "GET";
      mkExpect ("req.headers[User-Agent] ~ " +:+ quoted "chrome")
               EXPECT_HEADERS "User-Agent" TILDE "chrome";
      mkExpect ("req.body eq " +:+ quoted "") EXPECT_BODY "" EQUAL "" ]
    (TxResp.mk 200 {[ "X-HTC-Origin" := " true" ]} "Hello world!").

(** The error of a [tx] command of a client stanza that meets [expect]. *)
Definition tx_meets_expect_error : string :=
  "Parse error in 'tx' command: expecting -url, -header, method, or -body, got "
  +:+ quoted "expect".

(** The same client with its [tx] command last. *)
Definition client_tx_last : string :=
  "client " +:+ quoted "nemo" +:+ " {" +:+ nl +:+
  "    expect resp.status eq 200" +:+ nl +:+
  "    tx -url " +:+ quoted "/endpoint/1" +:+ nl +:+
  "}" +:+ nl.

(** What follows [tx] in a client stanza: a flag, a line break, and an
    [expect] statement on the next line. *)
Definition tx_line_then_expect : string :=
  " -url " +:+ quoted "/a" +:+ nl +:+
  "    expect resp.status eq 200" +:+ nl +:+
  "}".

(** What follows [tx] in a handle stanza: flags on two lines. *)
Definition tx_flags_on_two_lines : string :=
  " -body " +:+ quoted "a" +:+ nl +:+
  " -status 404" +:+ nl +:+
  "}".

(** The stanzas [handle "/p" { }] and [handle "/p" { tx }]. *)
Definition handle_without_tx : string := "handle " +:+ quoted "/p" +:+ " { }".
Definition handle_with_bare_tx : string := "handle " +:+ quoted "/p" +:+ " { tx }".

(** The script [handle ""], and a path that does not start with a slash. *)
Definition handle_empty_path : string := "handle " +:+ quoted "".
Definition handle_relative_path : string := "handle " +:+ quoted "p" +:+ " { }".

(** What follows [tx] in [tx -header "A: 1" -header "A: 2"]. *)
Definition header_flags : string :=
  " -header " +:+ quoted "A: 1" +:+ " -header " +:+ quoted "A: 2".

(** A script that starts with two string literals. *)
Definition two_strings : string := quoted "a" +:+ " " +:+ quoted "b".

(** ** Assertions and messages of the examples *)

(** The statement [expect resp.headers["Server"] ~ "^ATS/[0-9]\.[0-9]\.[0-9]$"]
    after its keyword, and the assertion it is parsed into. *)
Definition ATS_pattern : string := "^ATS/[0-9]\.[0-9]\.[0-9]$".

Definition expect_server_text : string :=
  "resp.headers[" +:+ quoted "Server" +:+ "] ~ " +:+ quoted ATS_pattern.

Definition expect_server : Expect :=
  mkExpect ("resp.headers[Server] ~ " +:+ strconv.Quote ATS_pattern)
           EXPECT_HEADERS "Server" TILDE ATS_pattern.

(** A response with the status 200, the given [Server] header, no other
    header and no body. *)
Definition response_from (server : string) : http.Response :=
  http.mkResponse 200 (fun name => if String.eqb name "Server" then server else "")
                  http.NoBody.

(** A GET request with no header and no body. *)
Definition get_request : http.Request :=
  http.mkRequest "GET" (fun _ => "") http.NoBody.

(** The assertion of a status on the request side. *)
Definition expect_req_status : Expect :=
  mkExpect ("req.status eq " +:+ quoted "200") EXPECT_STATUS "" EQUAL "200".

(** A pattern that does not compile, from the tests of the commands. *)
Definition bad_pattern : string := "(invalid-regular-expression".

(** A string literal can hold [text]: no double quote, no rune 0. *)
Fixpoint plain (text : string) : bool :=
  match text with
  | EmptyString => true
  | String ch rest =>
      negb (Rune.eqr ch Rune.eof) && negb (Rune.eqr ch Rune.dquote) && plain rest
  end.

(** A text of whitespace and comments only; [in_comment] tells whether
    the text starts inside a comment. *)
Fixpoint blank (in_comment : bool) (text : string) : bool :=
  match text with
  | EmptyString => true
  | String ch rest =>
      if in_comment then blank (negb (Rune.eqr ch Rune.newline)) rest
      else if Rune.isWhitespace ch then blank false rest
      else if Rune.eqr ch "#" then blank true rest
      else false
  end.

(** A script of comments and whitespace. *)
Definition only_comments : string :=
  "# Test a basic get request" +:+ nl +:+ "  " +:+ nl +:+ "   # nothing to run".

(** The operators of the [expect] command. *)
Definition is_operator (ty : tokenType) : bool :=
  match ty with
  | EQUAL | NOTEQUAL | TILDE => true
  | _ => false
  end.

(** ** Shapes of text, for the properties of the scanner *)

(** Every rune of [w] is an identifier rune. *)
Fixpoint all_ident (w : string) : bool :=
  match w with
  | EmptyString => true
  | String ch rest => Rune.isIdent ch && all_ident rest
  end.

(** An identifier ends before [rest]: the text is over, or its next rune
    is neither an identifier rune nor the rune 0. *)
Definition stops_ident (rest : string) : bool :=
  match rest with
  | EmptyString => true
  | String ch _ => negb (Rune.isIdent ch) && negb (Rune.eqr ch Rune.eof)
  end.

(** The text does not start with the rune 0. *)
Definition starts_live (text : string) : bool :=
  match text with
  | EmptyString => true
  | String ch _ => negb (Rune.eqr ch Rune.eof)
  end.

(** No rune of the text is the rune 0. *)
Fixpoint no_nul (text : string) : bool :=
  match text with
  | EmptyString => true
  | String ch rest => negb (Rune.eqr ch Rune.eof) && no_nul rest
  end.

(** A text of whitespace and of comments that their line break closes,
    without the rune 0; [in_comment] tells whether the text starts inside
    a comment. *)
Fixpoint skippable (in_comment : bool) (text : string) : bool :=
  match text with
  | EmptyString => negb in_comment
  | String ch rest =>
      if Rune.eqr ch Rune.eof then false
      else if in_comment then skippable (negb (Rune.eqr ch Rune.newline)) rest
      else if Rune.isWhitespace ch then skippable false rest
      else if Rune.eqr ch "#" then skippable true rest
      else false
  end.

(** The runes that [scan] makes a punctuation token of. *)
Definition is_punct (ch : ascii) : bool :=
  Rune.eqr ch "." || Rune.eqr ch "[" || Rune.eqr ch "]" || Rune.eqr ch "{"
  || Rune.eqr ch "}" || Rune.eqr ch "~".

(** The runes that [scan] makes an ILLEGAL token of. *)
Definition illegal_rune (ch : ascii) : bool :=
  negb (Rune.isWhitespace ch) && negb (Rune.isIdent ch) && negb (Rune.eqr ch Rune.dquote)
  && negb (Rune.eqr ch "#") && negb (Rune.eqr ch Rune.eof) && negb (is_punct ch).

(** A path that starts with a slash. *)
Definition rooted (path : string) : bool :=
  match path with
  | String ch _ => Rune.eqr ch "/"
  | EmptyString => false
  end.

(** An assertion as the parser makes them: one of the three operators,
    and a header name only with the field [headers]. *)
Definition well_formed (e : Expect) : bool :=
  is_operator (operator e) &&
  match field e with
  | EXPECT_HEADERS => true
  | _ => String.eqb (headerName e) ""
  end.

(** ** The loops that evaluate the assertions (origin.go, main.go)

    The handler function that [Origin.addHandler] registers evaluates the
    assertions of a handle stanza against the request it serves, and [main]
    evaluates the assertions of a client stanza against the response it
    received.  The loops are modelled for one message, without the lines
    they log; what they do besides (sending the response, stopping the
    proxy) is not.

    [ActualRequest] and [ActualResponse] take the message by value, and
    its [Body] is a reader that the copy shares with the caller: what a
    call reads of the body is read for the calls that follow. *)

(** A body after [ioutil.ReadAll] has read it to its end: another
    [ReadAll] reads the empty string. *)
Definition drain (b : http.body) : http.body :=
  match b with
  | http.Reads _ => http.Reads ""
  | _ => b
  end.

Definition drain_Request (req : http.Request) : http.Request :=
  http.mkRequest (http.Method req) (http.Header_Get req) (drain (http.Body req)).

Definition drain_Response (resp : http.Response) : http.Response :=
  http.mkResponse (http.StatusCode resp) (http.resp_Header_Get resp)
                  (drain (http.resp_Body resp)).

(** [Expect.String] *)
Definition Expect_String (e : Expect) : string := fmt.Sprintf "%q" (verbatim e).

(** [fmt.Sprintf] on a format with two verbs, each [%q] or [%s]. *)
Fixpoint Sprintf2 (format : string) (arg1 arg2 : string) : string :=
  match format with
  | String "%" (String "q" rest) => strconv.Quote arg1 +:+ fmt.Sprintf rest arg2
  | String "%" (String "s" rest) => arg1 +:+ fmt.Sprintf rest arg2
  | String ch rest => String ch (Sprintf2 rest arg1 arg2)
  | EmptyString => EmptyString
  end.

(** The message of a failed assertion, in the handler and in [main]. *)
Definition FAILED (exp : Expect) (actual : string) : string :=
  Sprintf2 "FAILED: %s (actual=%q)" (Expect_String exp) actual.

Section Loops.

Variable regexp_Match : string -> string -> bool * error.

(** [Expect.ActualRequest], with the request as the call leaves it. *)
Definition ActualRequest_shared (e : Expect) (req : http.Request)
  : outcome (string * http.Request) :=
  match field e with
  | EXPECT_BODY =>
      actual ← ReadAll (http.Body req); Returns (actual, drain_Request req)
  | _ => actual ← ActualRequest e req; Returns (actual, req)
  end.

(** [Expect.Request], with the request as the call leaves it. *)
Definition Request_shared (e : Expect) (req : http.Request)
  : outcome (bool * http.Request) :=
  '(actual, req) ← ActualRequest_shared e req;
  verdict ← expectThing regexp_Match e actual;
  Returns (verdict, req).

(** [Expect.ActualResponse], with the response as the call leaves it. *)
Definition ActualResponse_shared (e : Expect) (resp : http.Response)
  : outcome (string * http.Response) :=
  match field e with
  | EXPECT_BODY =>
      actual ← ReadAll (http.resp_Body resp); Returns (actual, drain_Response resp)
  | _ => actual ← ActualResponse e resp; Returns (actual, resp)
  end.

(** [Expect.Response], with the response as the call leaves it. *)
Definition Response_shared (e : Expect) (resp : http.Response)
  : outcome (bool * http.Response) :=
  '(actual, resp) ← ActualResponse_shared e resp;
  verdict ← expectThing regexp_Match e actual;
  Returns (verdict, resp).

(** The loop of the handler function of [Origin.addHandler], on the
    errors of the origin: an assertion that fails adds an error. *)
Fixpoint handler_loop (exps : list Expect) (errors : list string) (req : http.Request)
  : outcome (list string * http.Request) :=
  match exps with
  | [] => Returns (errors, req)
  | exp :: exps =>
      '(verdict, req) ← Request_shared exp req;
      if (verdict : bool) then handler_loop exps errors req
      else
        '(actual, req) ← ActualRequest_shared exp req;
        handler_loop exps (errors ++ [FAILED exp actual]) req
  end.

(** The loop of [main] on the assertions of a client: an assertion that
    fails ends the process with [log.Fatalf]. *)
Fixpoint client_loop (exps : list Expect) (resp : http.Response) : outcome http.Response :=
  match exps with
  | [] => Returns resp
  | exp :: exps =>
      '(verdict, resp) ← Response_shared exp resp;
      if (verdict : bool) then client_loop exps resp
      else
        '(actual, resp) ← ActualResponse_shared exp resp;
        Fatal (FAILED exp actual)
  end.

End Loops.

(** An assertion whose evaluation reads no body, compiles no pattern and
    cannot fail: a method or a header, compared with [eq] or [ne]. *)
Definition plain_comparison (e : Expect) : bool :=
  match field e with
  | EXPECT_METHOD | EXPECT_HEADERS =>
      match operator e with
      | EQUAL | NOTEQUAL => true
      | _ => false
      end
  | _ => false
  end.

(** What an outcome returns, or a default. *)
Definition returned {A : Type} (default : A) (o : outcome A) : A :=
  match o with
  | Returns a => a
  | _ => default
  end.

(** The request that the README sends, and the assertion it fails. *)
Definition expect_POST : Expect :=
  mkExpect ("req.method eq " +:+ quoted "POST") EXPECT_METHOD "" EQUAL "POST".

(** An assertion on a response whose evaluation reads no body, compiles no
    pattern and cannot fail: a status or a header, compared with [eq] or
    [ne]. *)
Definition plain_response_comparison (e : Expect) : bool :=
  match field e with
  | EXPECT_STATUS | EXPECT_HEADERS =>
      match operator e with
      | EQUAL | NOTEQUAL => true
      | _ => false
      end
  | _ => false
  end.

(** The assertion of a body, and messages with that body. *)
Definition expect_body (text : string) : Expect :=
  mkExpect ("req.body eq " +:+ quoted text) EXPECT_BODY "" EQUAL text.

Definition post_request (data : string) : http.Request :=
  http.mkRequest "POST" (fun _ => "") (http.Reads data).

Definition response_with (status : Z) (data : string) : http.Response :=
  http.mkResponse status (fun _ => "") (http.Reads data).

Definition expect_status (text : string) : Expect :=
  mkExpect ("resp.status eq " +:+ quoted text) EXPECT_STATUS "" EQUAL text.

(** The tokens that [scan] makes of the one rune it has read: the end of
    input, the punctuation, and the ILLEGAL token of a rune that starts no
    token. *)
Definition one_rune_token (t : token) : bool :=
  single_rune (typ t)
  || (tokenType_eqb (typ t) ILLEGAL
      && match val t with
         | String ch EmptyString => illegal_rune ch
         | _ => false
         end).

(** ** The texts of assertions *)

(** The sides, the fields without an argument and the operators that an
    assertion can name, with what [Expect.Parse] makes of them. *)
Definition sides : list string := ["req"; "resp"].

Definition plain_fields : list (string * ExpectField) :=
  [("method", EXPECT_METHOD); ("status", EXPECT_STATUS); ("body", EXPECT_BODY)].

Definition operators : list (string * tokenType) :=
  [("eq", EQUAL); ("ne", NOTEQUAL); ("~", TILDE)].

(** A client stanza that asserts the status with the keyword [req]. *)
Definition client_req_status : string :=
  "client " +:+ quoted "nemo" +:+ " { expect req.status eq 200 tx -url " +:+ quoted "/" +:+ " }".

(** * Properties *)

(** ** The scanner *)

Lemma classify_ident_kind (str : string) : ident_kind (typ (classify str)) = true.
Proof. unfold classify. repeat case_match; reflexivity. Qed.

Lemma scanChar_char_kind (ch : ascii) : char_kind (typ (scanChar ch)) = true.
Proof. unfold scanChar. repeat case_match; reflexivity. Qed.

Lemma scanIdent_ident_kind (s : scanner) : ident_kind (typ (fst (scanIdent s))) = true.
Proof.
  unfold scanIdent. destruct (read s) as [ch s1].
  destruct (scanIdent_loop _ _) as [str s2]. apply classify_ident_kind.
Qed.

(** Every token of [scan] is whitespace, a comment, a string, or of an
    identifier or character kind: none is a [NEWLINE]. *)
Lemma scan_kinds (s : scanner) :
  let ty := typ (fst (scan s)) in
  ty = WS \/ ty = HASH \/ ty = STRING \/ ident_kind ty = true \/ char_kind ty = true.
Proof.
  unfold scan. destruct (read s) as [ch s1].
  destruct (Rune.isWhitespace ch); [left; reflexivity|].
  destruct (Rune.isIdent ch); [right; right; right; left; apply scanIdent_ident_kind|].
  destruct (Rune.eqr ch Rune.dquote).
  { right; right; left. unfold scanQuotedString.
    destruct (scanQuotedString_loop _ _); reflexivity. }
  destruct (Rune.eqr ch "#").
  { destruct (scanComment_loop _); [right; left; reflexivity|].
    right; right; right; right. apply scanChar_char_kind. }
  right; right; right; right. apply scanChar_char_kind.
Qed.

Lemma scan_not_NEWLINE (s : scanner) : typ (fst (scan s)) <> NEWLINE.
Proof.
  pose proof (scan_kinds s) as H. cbv zeta in H.
  intros E. rewrite E in H. clear E.
  destruct H as [H|[H|[H|[H|H]]]]; discriminate.
Qed.

Lemma scanWhitespace_loop_length (text : string) :
  String.length (pending (scanWhitespace_loop text)) <= String.length text.
Proof.
  induction text as [|ch rest IH]; simpl; [lia|].
  destruct (Rune.eqr ch Rune.eof); simpl; [lia|].
  destruct (Rune.isWhitespace ch); simpl; lia.
Qed.

Lemma scanComment_loop_length (text : string) (s : scanner) :
  scanComment_loop text = inl s -> String.length (pending s) < String.length text.
Proof.
  revert s. induction text as [|ch rest IH]; simpl; intros s H; [discriminate|].
  destruct (Rune.eqr ch Rune.newline).
  { injection H as <-. simpl. lia. }
  destruct (Rune.eqr ch Rune.eof); [discriminate|].
  specialize (IH _ H). lia.
Qed.

Lemma scanComment_loop_length_inr (text : string) (s : scanner) :
  scanComment_loop text = inr s -> String.length (pending s) <= String.length text.
Proof.
  revert s. induction text as [|ch rest IH]; simpl; intros s H.
  { injection H as <-. simpl. lia. }
  destruct (Rune.eqr ch Rune.newline); [discriminate|].
  destruct (Rune.eqr ch Rune.eof).
  { injection H as <-. simpl. lia. }
  specialize (IH _ H). lia.
Qed.

Lemma scanIdent_loop_length (text buf : string) :
  String.length (pending (snd (scanIdent_loop text buf))) <= String.length text.
Proof.
  revert buf. induction text as [|ch rest IH]; intros buf; simpl; [lia|].
  destruct (Rune.eqr ch Rune.eof); simpl; [lia|].
  destruct (Rune.isIdent ch); simpl; [|lia].
  specialize (IH (buf +:+ Rune.to_string ch)). lia.
Qed.

Lemma scanQuotedString_loop_length (text buf : string) :
  String.length (pending (snd (scanQuotedString_loop text buf))) <= String.length text.
Proof.
  revert buf. induction text as [|ch rest IH]; intros buf; simpl; [lia|].
  destruct (Rune.eqr ch Rune.eof); simpl; [lia|].
  destruct (Rune.eqr ch Rune.dquote); simpl; [lia|].
  specialize (IH (buf +:+ Rune.to_string ch)). lia.
Qed.

Lemma isWhitespace_not_eof (ch : ascii) :
  Rune.isWhitespace ch = true -> Rune.eqr ch Rune.eof = false.
Proof.
  unfold Rune.isWhitespace, Rune.eqr. intros H.
  apply orb_prop in H as [H|H]; [apply orb_prop in H as [H|H]|];
    apply Ascii.eqb_eq in H; subst; reflexivity.
Qed.

(** A token that [ScanUseful] skips takes at least one rune off the text. *)
Lemma scan_skipped_shrinks (s : scanner) :
  skipped (typ (fst (scan s))) = true ->
  String.length (pending (snd (scan s))) < String.length (pending s).
Proof.
  unfold scan, read. destruct s as [text l]; simpl.
  destruct text as [|ch rest]; simpl.
  { discriminate. }
  destruct (Rune.isWhitespace ch) eqn:Hws.
  { intros _. unfold unread; simpl.
    rewrite (isWhitespace_not_eof _ Hws), Hws; simpl.
    pose proof (scanWhitespace_loop_length rest). lia. }
  destruct (Rune.isIdent ch).
  { intros H. pose proof (scanIdent_ident_kind (unread (mkScanner rest (Some ch)))) as K.
    destruct (typ (fst (scanIdent _))); discriminate. }
  destruct (Rune.eqr ch Rune.dquote).
  { unfold scanQuotedString; simpl. destruct (scanQuotedString_loop _ _); discriminate. }
  destruct (Rune.eqr ch "#").
  { destruct (scanComment_loop rest) eqn:E; simpl.
    - intros _. apply scanComment_loop_length in E. lia.
    - discriminate. }
  simpl. intros H. pose proof (scanChar_char_kind ch) as K.
  destruct (typ (scanChar ch)); discriminate.
Qed.

(** Every [scan] of a text that is not empty takes a rune off it. *)
Lemma scan_shrinks (s : scanner) :
  pending s <> "" ->
  String.length (pending (snd (scan s))) < String.length (pending s).
Proof.
  unfold scan, read. destruct s as [text l]; simpl.
  destruct text as [|ch rest]; simpl; [congruence|]. intros _.
  destruct (Rune.isWhitespace ch) eqn:Hws.
  { unfold unread; simpl. rewrite (isWhitespace_not_eof _ Hws), Hws. simpl.
    pose proof (scanWhitespace_loop_length rest). lia. }
  destruct (Rune.isIdent ch).
  { unfold unread, scanIdent, read; simpl.
    pose proof (scanIdent_loop_length rest (Rune.to_string ch)).
    destruct (scanIdent_loop rest _); simpl in *. lia. }
  destruct (Rune.eqr ch Rune.dquote).
  { unfold scanQuotedString; simpl.
    pose proof (scanQuotedString_loop_length rest "").
    destruct (scanQuotedString_loop rest _); simpl in *. lia. }
  destruct (Rune.eqr ch "#"); [|simpl; lia].
  destruct (scanComment_loop rest) as [s1|s1] eqn:E; simpl.
  - apply scanComment_loop_length in E. lia.
  - apply scanComment_loop_length_inr in E. lia.
Qed.

Lemma scan_length (s : scanner) :
  String.length (pending (snd (scan s))) <= String.length (pending s).
Proof.
  destruct (pending s) as [|ch rest] eqn:E.
  - destruct s as [text l]; simpl in E; subst text. simpl. lia.
  - pose proof (scan_shrinks s) as H. rewrite E in H.
    specialize (H ltac:(discriminate)). lia.
Qed.

(** ** [ScanUseful] *)

Lemma ScanUseful_loop_useful (n : nat) (s : scanner) :
  String.length (pending s) <= n ->
  skipped (typ (fst (ScanUseful_loop n s))) = false.
Proof.
  revert s. induction n as [|n IH]; intros s Hn; simpl.
  - pose proof (scan_skipped_shrinks s) as H.
    destruct (scan s) as [t s']; simpl in *.
    destruct (skipped (typ t)) eqn:E; simpl; [|exact E].
    specialize (H eq_refl). lia.
  - pose proof (scan_skipped_shrinks s) as H.
    destruct (scan s) as [t s']; simpl in *.
    destruct (skipped (typ t)) eqn:E; simpl; [|exact E].
    apply IH. specialize (H eq_refl). lia.
Qed.

(** X1.  [ScanUseful] returns the next token that is neither whitespace
    nor a comment: its loop ends, within the length of the text, on such a
    token. *)
Lemma ScanUseful_useful (s : scanner) : skipped (typ (fst (ScanUseful s))) = false.
Proof. apply ScanUseful_loop_useful. reflexivity. Qed.

Lemma ScanUseful_loop_not_NEWLINE (n : nat) (s : scanner) :
  typ (fst (ScanUseful_loop n s)) <> NEWLINE.
Proof.
  revert s. induction n as [|n IH]; intros s; simpl;
    pose proof (scan_not_NEWLINE s) as H;
    destruct (scan s) as [t s']; simpl in *;
    destruct (skipped (typ t)); simpl; auto.
Qed.

(** No token that [ScanUseful] returns is a [NEWLINE]. *)
Lemma ScanUseful_not_NEWLINE (s : scanner) : typ (fst (ScanUseful s)) <> NEWLINE.
Proof. apply ScanUseful_loop_not_NEWLINE. Qed.

Lemma ScanUseful_loop_fuel (n m : nat) (s : scanner) :
  String.length (pending s) <= n -> String.length (pending s) <= m ->
  ScanUseful_loop n s = ScanUseful_loop m s.
Proof.
  revert m s. induction n as [|n IH]; intros m s Hn Hm;
    pose proof (scan_skipped_shrinks s) as K;
    destruct m as [|m]; simpl; destruct (scan s) as [t s1]; simpl in K;
    destruct (skipped (typ t)); try reflexivity; specialize (K eq_refl); try lia.
  apply IH; lia.
Qed.

(** One round of the loop of [ScanUseful]. *)
Lemma ScanUseful_unfold (s : scanner) :
  ScanUseful s =
  let (t, s') := scan s in if skipped (typ t) then ScanUseful s' else (t, s').
Proof.
  unfold ScanUseful. pose proof (scan_skipped_shrinks s) as K.
  destruct (String.length (pending s)) as [|n] eqn:E; simpl;
    destruct (scan s) as [t s1]; simpl in K;
    destruct (skipped (typ t)); try reflexivity; specialize (K eq_refl); [lia|].
  apply ScanUseful_loop_fuel; lia.
Qed.

Lemma ScanUseful_loop_length (n : nat) (s : scanner) :
  String.length (pending (snd (ScanUseful_loop n s))) <= String.length (pending s).
Proof.
  revert s. induction n as [|n IH]; intros s; simpl;
    pose proof (scan_length s) as H; destruct (scan s) as [t s1]; simpl in H;
    destruct (skipped (typ t)); simpl; try lia.
  specialize (IH s1). lia.
Qed.

Lemma ScanUseful_length (s : scanner) :
  String.length (pending (snd (ScanUseful s))) <= String.length (pending s).
Proof. apply ScanUseful_loop_length. Qed.

(** [ScanUseful] takes a rune off a text that is not empty. *)
Lemma ScanUseful_shrinks (s : scanner) :
  pending s <> "" ->
  String.length (pending (snd (ScanUseful s))) < String.length (pending s).
Proof.
  intros H. rewrite ScanUseful_unfold.
  pose proof (scan_shrinks s H) as K. destruct (scan s) as [t s1]; simpl in K.
  destruct (skipped (typ t)); simpl; [|exact K].
  pose proof (ScanUseful_length s1). lia.
Qed.

(** On an empty text [ScanUseful] returns the end of input. *)
Lemma ScanUseful_empty (s : scanner) :
  pending s = "" -> typ (fst (ScanUseful s)) = EOF.
Proof. destruct s as [text l]; simpl. intros ->. reflexivity. Qed.

(** The next token of a text that is known. *)
Ltac next_token :=
  match goal with
  | |- context [ScanUseful ?s] =>
      let r := eval vm_compute in (ScanUseful s) in
      change (ScanUseful s) with r; cbv beta iota
  end.

(** ** String literals, and texts of whitespace and comments *)

Lemma append_cons (ch : ascii) (a b : string) : String ch a +:+ b = String ch (a +:+ b).
Proof. reflexivity. Qed.

Lemma append_String_r (a : string) (ch : ascii) (b : string) :
  (a +:+ String ch EmptyString) +:+ b = a +:+ String ch b.
Proof.
  induction a as [|c a IH]; [reflexivity|].
  rewrite !append_cons. f_equal. exact IH.
Qed.

Lemma append_nil_r (a : string) : a +:+ "" = a.
Proof. induction a as [|c a IH]; [reflexivity|]. rewrite append_cons. f_equal. exact IH. Qed.

(** A string literal is scanned up to its closing quote. *)
Lemma scanQuotedString_loop_plain (text rest buf : string) :
  plain text = true ->
  scanQuotedString_loop (text +:+ String Rune.dquote rest) buf
  = (buf +:+ text, mkScanner rest (Some Rune.dquote)).
Proof.
  revert buf. induction text as [|ch text IH]; intros buf.
  { intros _. rewrite append_nil_r. reflexivity. }
  intros H. simpl in H. apply andb_prop in H as [H H3]. apply andb_prop in H as [H1 H2].
  apply negb_true_iff in H1, H2. rewrite append_cons. simpl. rewrite H1, H2.
  rewrite IH by exact H3. unfold Rune.to_string. rewrite append_String_r. reflexivity.
Qed.

Lemma scanWhitespace_loop_blank (text : string) :
  blank false text = true -> blank false (pending (scanWhitespace_loop text)) = true.
Proof.
  induction text as [|ch rest IH]; simpl; [reflexivity|].
  destruct (Rune.eqr ch Rune.eof) eqn:E.
  { apply Ascii.eqb_eq in E. subst ch. discriminate. }
  destruct (Rune.isWhitespace ch) eqn:W; simpl; [exact IH|].
  rewrite W. auto.
Qed.

Lemma scanComment_loop_blank (text : string) :
  blank true text = true ->
  match scanComment_loop text with
  | inl s => blank false (pending s) = true
  | inr _ => True
  end.
Proof.
  induction text as [|ch rest IH]; simpl; [auto|].
  destruct (Rune.eqr ch Rune.newline); simpl; [auto|].
  destruct (Rune.eqr ch Rune.eof); auto.
Qed.

(** On a text of whitespace and comments, [ScanUseful] returns the end
    of input. *)
Lemma ScanUseful_blank (s : scanner) :
  blank false (pending s) = true -> fst (ScanUseful s) = newToken EOF "".
Proof.
  remember (String.length (pending s)) as n eqn:En.
  revert s En. induction n as [n IH] using lt_wf_ind. intros s En B.
  rewrite ScanUseful_unfold.
  pose proof (scan_skipped_shrinks s) as K. revert K.
  unfold scan, read. destruct s as [text l]; simpl in *.
  destruct text as [|ch rest]; simpl in *; [reflexivity|].
  destruct (Rune.isWhitespace ch) eqn:W.
  { unfold unread; simpl. rewrite (isWhitespace_not_eof _ W), W. simpl.
    intros K. apply (IH (String.length (pending (scanWhitespace_loop rest)))).
    - specialize (K eq_refl). lia.
    - reflexivity.
    - apply scanWhitespace_loop_blank. exact B. }
  destruct (Rune.isIdent ch) eqn:I.
  { exfalso. destruct (Rune.eqr ch "#") eqn:H; [|discriminate].
    apply Ascii.eqb_eq in H. subst ch. discriminate. }
  destruct (Rune.eqr ch Rune.dquote) eqn:Q.
  { exfalso. destruct (Rune.eqr ch "#") eqn:H; [|discriminate].
    apply Ascii.eqb_eq in H. subst ch. discriminate. }
  destruct (Rune.eqr ch "#") eqn:H; [|discriminate].
  pose proof (scanComment_loop_blank rest B) as C.
  destruct (scanComment_loop rest) as [s1|s1]; simpl; [|reflexivity].
  intros K. apply (IH (String.length (pending s1))); auto.
  specialize (K eq_refl). lia.
Qed.

(** ** [unread] after a token *)

Lemma scanComment_loop_inr (text : string) (s : scanner) :
  scanComment_loop text = inr s ->
  s = mkScanner "" None \/ exists rest, s = mkScanner rest (Some Rune.eof).
Proof.
  revert s. induction text as [|ch rest IH]; simpl; intros s H.
  { injection H as <-. left; reflexivity. }
  destruct (Rune.eqr ch Rune.newline); [discriminate|].
  destruct (Rune.eqr ch Rune.eof) eqn:E; [|auto].
  apply Ascii.eqb_eq in E. subst ch. injection H as <-. right. eauto.
Qed.

(** After a token made of one rune, [unread] and [scan] give the token
    again, and the scanner is where it was. *)
Lemma scan_unread_single_rune (s : scanner) (t : token) (s2 : scanner) :
  scan s = (t, s2) -> single_rune (typ t) = true -> scan (unread s2) = (t, s2).
Proof.
  unfold scan at 1, read. destruct s as [text l]; simpl.
  destruct text as [|ch rest]; simpl.
  { intros H _. injection H as <- <-. reflexivity. }
  destruct (Rune.isWhitespace ch) eqn:Hws.
  { intros H K. injection H as <- _. discriminate. }
  destruct (Rune.isIdent ch) eqn:Hid.
  { intros H K.
    pose proof (scanIdent_ident_kind (unread (mkScanner rest (Some ch)))) as I.
    rewrite H in I; simpl in I. destruct (typ t); discriminate. }
  destruct (Rune.eqr ch Rune.dquote) eqn:Hdq.
  { unfold scanQuotedString; simpl. destruct (scanQuotedString_loop _ _).
    intros H K. injection H as <- _. discriminate. }
  destruct (Rune.eqr ch "#") eqn:Hh.
  { destruct (scanComment_loop rest) as [s1|s1] eqn:E.
    - intros H K. injection H as <- _. discriminate.
    - intros H _. injection H as <- <-.
      apply scanComment_loop_inr in E as [->|[rest' ->]]; reflexivity. }
  intros H _. injection H as <- <-.
  unfold unread, scan, read; simpl. rewrite Hws, Hid, Hdq, Hh. reflexivity.
Qed.

Lemma ScanUseful_loop_last (n : nat) (s : scanner) (t : token) (s2 : scanner) :
  ScanUseful_loop n s = (t, s2) -> exists s1, scan s1 = (t, s2).
Proof.
  revert s. induction n as [|n IH]; intros s; simpl;
    destruct (scan s) as [t1 s1] eqn:E; destruct (skipped (typ t1));
    intros H; try (injection H as <- <-); eauto.
Qed.

Lemma single_rune_not_skipped (ty : tokenType) :
  single_rune ty = true -> skipped ty = false.
Proof. destruct ty; simpl; intros; try discriminate; reflexivity. Qed.

Lemma ScanUseful_unread_single_rune (s : scanner) (t : token) (s2 : scanner) :
  ScanUseful s = (t, s2) -> single_rune (typ t) = true ->
  ScanUseful (unread s2) = (t, s2).
Proof.
  intros H K. apply ScanUseful_loop_last in H as [s1 H].
  pose proof (scan_unread_single_rune _ _ _ H K) as U.
  unfold ScanUseful. destruct (String.length _); simpl;
    rewrite U, (single_rune_not_skipped _ K); reflexivity.
Qed.

(** ** The flag loops *)

Lemma is_typ_true (t : token) (ty : tokenType) : is_typ t ty = true <-> typ t = ty.
Proof. unfold is_typ, tokenType_eqb. apply bool_decide_eq_true. Qed.

Lemma terminator_kind (t : token) :
  typ t <> NEWLINE ->
  is_typ t EOF || is_typ t CLOSE_CURLY || is_typ t NEWLINE = true ->
  typ t = EOF \/ typ t = CLOSE_CURLY.
Proof.
  intros N H. apply orb_prop in H as [H|H]; [apply orb_prop in H as [H|H]|];
    apply is_typ_true in H; auto. contradiction.
Qed.

(** The argument of a flag is read and checked; on a bad argument the
    loop returns an error. *)
Ltac flag_argument s1 :=
  let t2 := fresh "t2" in let s3 := fresh "s3" in
  destruct (ScanUseful s1) as [t2 s3];
  destruct (negb (is_typ t2 _)); [discriminate|].

(** A flag loop that returns without an error has just unread the token
    that ended it, an end of input or a closing brace. *)
Lemma TxResp_Parse_loop_stops (fuel : nat) (r : TxResp.t) (s : scanner)
    (r' : TxResp.t) (s' : scanner) :
  TxResp.Parse_loop fuel r s = Returns (r', None, s') ->
  exists s0 t s2, ScanUseful s0 = (t, s2) /\
    (typ t = EOF \/ typ t = CLOSE_CURLY) /\ s' = unread s2.
Proof.
  revert r s. induction fuel as [|fuel IH]; intros r s; simpl; [discriminate|].
  destruct (ScanUseful s) as [t s1] eqn:E.
  pose proof (ScanUseful_not_NEWLINE s) as N. rewrite E in N; simpl in N.
  destruct (is_typ t EOF || is_typ t CLOSE_CURLY || is_typ t NEWLINE) eqn:T.
  { intros H. injection H as <- <-. exists s, t, s1.
    auto using terminator_kind. }
  destruct (is_typ t BODY_ARG); [flag_argument s1; apply IH|].
  destruct (is_typ t HEADER_ARG).
  { flag_argument s1.
    destruct (strings.SplitN_colon_2 _) as [|? [|? [|]]]; try discriminate.
    apply IH. }
  destruct (is_typ t STATUS_ARG); [flag_argument s1; apply IH|].
  discriminate.
Qed.

Lemma TxReq_Parse_loop_stops (fuel : nat) (r : TxReq.t) (s : scanner)
    (r' : TxReq.t) (s' : scanner) :
  TxReq.Parse_loop fuel r s = Returns (r', None, s') ->
  exists s0 t s2, ScanUseful s0 = (t, s2) /\
    (typ t = EOF \/ typ t = CLOSE_CURLY) /\ s' = unread s2.
Proof.
  revert r s. induction fuel as [|fuel IH]; intros r s; simpl; [discriminate|].
  destruct (ScanUseful s) as [t s1] eqn:E.
  pose proof (ScanUseful_not_NEWLINE s) as N. rewrite E in N; simpl in N.
  destruct (is_typ t EOF || is_typ t CLOSE_CURLY || is_typ t NEWLINE) eqn:T.
  { intros H. injection H as <- <-. exists s, t, s1.
    auto using terminator_kind. }
  destruct (is_typ t BODY_ARG); [flag_argument s1; apply IH|].
  destruct (is_typ t HEADER_ARG).
  { flag_argument s1.
    destruct (strings.SplitN_colon_2 _) as [|? [|? [|]]]; try discriminate.
    apply IH. }
  destruct (is_typ t METHOD_ARG); [flag_argument s1; apply IH|].
  destruct (is_typ t URL_ARG); [flag_argument s1; apply IH|].
  discriminate.
Qed.

Ltac flag_argument_returns IH s1 :=
  let t2 := fresh "t2" in let s3 := fresh "s3" in let L := fresh "L" in
  pose proof (ScanUseful_length s1) as L;
  destruct (ScanUseful s1) as [t2 s3]; simpl in L;
  destruct (negb (is_typ t2 _)); [eauto|]; try (apply IH; lia).

(** The flag loop of a response returns, whatever the text: a round that
    does not end the loop takes a rune off the text. *)
Lemma TxResp_Parse_loop_returns (fuel : nat) (r : TxResp.t) (s : scanner) :
  String.length (pending s) < fuel ->
  exists res, TxResp.Parse_loop fuel r s = Returns res.
Proof.
  revert r s. induction fuel as [|fuel IH]; intros r s Hlen; [lia|]. simpl.
  pose proof (ScanUseful_shrinks s) as K. pose proof (ScanUseful_empty s) as Z.
  destruct (ScanUseful s) as [t s1]; simpl in K, Z.
  destruct (is_typ t EOF || is_typ t CLOSE_CURLY || is_typ t NEWLINE) eqn:T; [eauto|].
  assert (pending s <> "") as Hne.
  { intros E. specialize (Z E). unfold is_typ, tokenType_eqb in T.
    rewrite Z in T. discriminate. }
  specialize (K Hne).
  destruct (is_typ t BODY_ARG); [flag_argument_returns IH s1|].
  destruct (is_typ t HEADER_ARG).
  { flag_argument_returns IH s1.
    destruct (strings.SplitN_colon_2 _) as [|? [|? [|]]]; eauto. apply IH; lia. }
  destruct (is_typ t STATUS_ARG); [flag_argument_returns IH s1|].
  eauto.
Qed.

Lemma TxReq_Parse_loop_returns (fuel : nat) (r : TxReq.t) (s : scanner) :
  String.length (pending s) < fuel ->
  exists res, TxReq.Parse_loop fuel r s = Returns res.
Proof.
  revert r s. induction fuel as [|fuel IH]; intros r s Hlen; [lia|]. simpl.
  pose proof (ScanUseful_shrinks s) as K. pose proof (ScanUseful_empty s) as Z.
  destruct (ScanUseful s) as [t s1]; simpl in K, Z.
  destruct (is_typ t EOF || is_typ t CLOSE_CURLY || is_typ t NEWLINE) eqn:T; [eauto|].
  assert (pending s <> "") as Hne.
  { intros E. specialize (Z E). unfold is_typ, tokenType_eqb in T.
    rewrite Z in T. discriminate. }
  specialize (K Hne).
  destruct (is_typ t BODY_ARG); [flag_argument_returns IH s1|].
  destruct (is_typ t HEADER_ARG).
  { flag_argument_returns IH s1.
    destruct (strings.SplitN_colon_2 _) as [|? [|? [|]]]; eauto. apply IH; lia. }
  destruct (is_typ t METHOD_ARG); [flag_argument_returns IH s1|].
  destruct (is_typ t URL_ARG); [flag_argument_returns IH s1|].
  eauto.
Qed.

Lemma cut_colon_app (name value : string) :
  strings.cut_colon name = None ->
  strings.cut_colon (name +:+ ":" +:+ value) = Some (name, value).
Proof.
  induction name as [|ch name IH]; simpl; intros H; [reflexivity|].
  destruct (Rune.eqr ch ":"); [discriminate|].
  destruct (strings.cut_colon name); [discriminate|].
  rewrite IH by reflexivity. reflexivity.
Qed.

(** ** More fuel does not change a run that ended *)

Ltac more_fuel IH := first [reflexivity | apply IH; [lia | assumption]].

Ltac flag_argument_mono IH s1 :=
  let t2 := fresh "t2" in let s3 := fresh "s3" in
  destruct (ScanUseful s1) as [t2 s3];
  destruct (negb (is_typ t2 _)); [reflexivity|]; try more_fuel IH.

Lemma TxResp_Parse_loop_mono (n m : nat) (r : TxResp.t) (s : scanner) :
  n <= m -> TxResp.Parse_loop n r s <> Spins ->
  TxResp.Parse_loop m r s = TxResp.Parse_loop n r s.
Proof.
  revert m r s. induction n as [|n IH]; intros m r s Hle H; [simpl in H; congruence|].
  destruct m as [|m]; [lia|]. simpl in *.
  destruct (ScanUseful s) as [t s1].
  destruct (is_typ t EOF || is_typ t CLOSE_CURLY || is_typ t NEWLINE); [reflexivity|].
  destruct (is_typ t BODY_ARG); [flag_argument_mono IH s1|].
  destruct (is_typ t HEADER_ARG).
  { flag_argument_mono IH s1.
    destruct (strings.SplitN_colon_2 _) as [|? [|? [|]]]; more_fuel IH. }
  destruct (is_typ t STATUS_ARG); [flag_argument_mono IH s1|].
  reflexivity.
Qed.

Lemma TxReq_Parse_loop_mono (n m : nat) (r : TxReq.t) (s : scanner) :
  n <= m -> TxReq.Parse_loop n r s <> Spins ->
  TxReq.Parse_loop m r s = TxReq.Parse_loop n r s.
Proof.
  revert m r s. induction n as [|n IH]; intros m r s Hle H; [simpl in H; congruence|].
  destruct m as [|m]; [lia|]. simpl in *.
  destruct (ScanUseful s) as [t s1].
  destruct (is_typ t EOF || is_typ t CLOSE_CURLY || is_typ t NEWLINE); [reflexivity|].
  destruct (is_typ t BODY_ARG); [flag_argument_mono IH s1|].
  destruct (is_typ t HEADER_ARG).
  { flag_argument_mono IH s1.
    destruct (strings.SplitN_colon_2 _) as [|? [|? [|]]]; more_fuel IH. }
  destruct (is_typ t METHOD_ARG); [flag_argument_mono IH s1|].
  destruct (is_typ t URL_ARG); [flag_argument_mono IH s1|].
  reflexivity.
Qed.

(** A call made inside a loop: with more fuel it ends the same way. *)
Lemma bind_mono {A B : Type} (a b : outcome A) (k k' : A -> outcome B) :
  (a <> Spins -> b = a) ->
  (forall x, a = Returns x -> k x <> Spins -> k' x = k x) ->
  (a ≫= k) <> Spins -> (b ≫= k') = (a ≫= k).
Proof.
  intros Ha Hk H. destruct a as [x| | |]; simpl in *.
  - rewrite Ha by discriminate. simpl. unfold mbind; simpl. apply Hk; auto.
  - rewrite Ha by discriminate. reflexivity.
  - rewrite Ha by discriminate. reflexivity.
  - exfalso. apply H. reflexivity.
Qed.

Lemma parseHandle_loop_mono (n m : nat) (h : HandleStanza.t) (s : scanner) :
  n <= m -> parseHandle_loop n h s <> Spins ->
  parseHandle_loop m h s = parseHandle_loop n h s.
Proof.
  revert m h s. induction n as [|n IH]; intros m h s Hle H; [simpl in H; congruence|].
  destruct m as [|m]; [lia|]. simpl in *.
  destruct (ScanUseful s) as [t s1].
  destruct (is_typ t CLOSE_CURLY); [reflexivity|].
  destruct (is_typ t EXPECT).
  { destruct (Expect_Parse Expect_zero s1) as [[e [err|]] s2]; more_fuel IH. }
  destruct (is_typ t TX); [|more_fuel IH].
  apply bind_mono; [|intros ? _ _; reflexivity|assumption].
  intros K. apply TxResp_Parse_loop_mono; [lia|exact K].
Qed.

Lemma parseClient_loop_mono (n m : nat) (c : ClientStanza.t) (s : scanner) :
  n <= m -> parseClient_loop n c s <> Spins ->
  parseClient_loop m c s = parseClient_loop n c s.
Proof.
  revert m c s. induction n as [|n IH]; intros m c s Hle H; [simpl in H; congruence|].
  destruct m as [|m]; [lia|]. simpl in *.
  destruct (ScanUseful s) as [t s1].
  destruct (is_typ t CLOSE_CURLY); [reflexivity|].
  destruct (is_typ t TX).
  { apply bind_mono; [| |assumption].
    - intros K. apply TxReq_Parse_loop_mono; [lia|exact K].
    - intros [[req [err|]] s2] _ K; more_fuel IH. }
  destruct (is_typ t EXPECT); [|more_fuel IH].
  destruct (Expect_Parse Expect_zero s1) as [[e [err|]] s2]; more_fuel IH.
Qed.

Lemma parseHandle_mono (n m : nat) (s : scanner) :
  n <= m -> parseHandle n s <> Spins -> parseHandle m s = parseHandle n s.
Proof.
  unfold parseHandle. intros Hle. destruct (ScanUseful s) as [t s1].
  destruct (if negb (is_typ t STRING) then _ else _) as [[|]| | |]; simpl; try reflexivity.
  unfold mbind; simpl. destruct (ScanUseful s1) as [t2 s2].
  destruct (negb (is_typ t2 OPEN_CURLY)); [reflexivity|].
  apply parseHandle_loop_mono; assumption.
Qed.

Lemma parseClient_mono (n m : nat) (s : scanner) :
  n <= m -> parseClient n s <> Spins -> parseClient m s = parseClient n s.
Proof.
  unfold parseClient. intros Hle. destruct (ScanUseful s) as [t s1].
  destruct (negb (is_typ t STRING)); [reflexivity|].
  destruct (ScanUseful s1) as [t2 s2].
  destruct (negb (is_typ t2 OPEN_CURLY)); [reflexivity|].
  apply parseClient_loop_mono; assumption.
Qed.

Lemma Parse_loop_mono (n m : nat) (h : list HandleStanza.t) (c : list ClientStanza.t)
    (s : scanner) :
  n <= m -> Parse_loop n h c s <> Spins -> Parse_loop m h c s = Parse_loop n h c s.
Proof.
  revert m h c s. induction n as [|n IH]; intros m h c s Hle H; [simpl in H; congruence|].
  destruct m as [|m]; [lia|]. simpl in *.
  destruct (ScanUseful s) as [t s1].
  destruct (is_typ t EOF); [reflexivity|].
  destruct (is_typ t ILLEGAL); [reflexivity|].
  destruct (is_typ t HANDLE).
  { apply bind_mono; [| |assumption].
    - intros K. apply parseHandle_mono; [lia|exact K].
    - intros [[hs [err|]] s2] _ K; more_fuel IH. }
  destruct (is_typ t CLIENT); [|more_fuel IH].
  apply bind_mono; [| |assumption].
  - intros K. apply parseClient_mono; [lia|exact K].
  - intros [[cs [err|]] s2] _ K; more_fuel IH.
Qed.

(** A run of [Parse] that ended is the run of every larger fuel. *)
Lemma Parse_mono (n m : nat) (text : string) :
  n <= m -> Parse n text <> Spins -> Parse m text = Parse n text.
Proof. apply Parse_loop_mono. Qed.

Lemma Parse_settles (n : nat) (text : string) (o : outcome program) :
  Parse n text = o -> o <> Spins -> settles (fun fuel => Parse fuel text) o.
Proof.
  intros <- H. exists n. intros fuel Hle. apply Parse_mono; assumption.
Qed.

(** ** The stanza parsers *)

(** X2.  The check of the path of a handle stanza, on every string
    literal: a panic on the empty one, and on one that starts with another
    rune than a slash the error that names the path and the token. *)
Lemma parseHandle_path_check (fuel : nat) (s : scanner) :
  let t := fst (ScanUseful s) in
  typ t = STRING ->
  match val t with
  | EmptyString => parseHandle fuel s = Panics IndexOutOfRange
  | String ch _ =>
      ch <> "/"%char ->
      parseHandle fuel s =
        Returns (HandleStanza.zero,
                 fmt.Errorf "Parse error in 'handle' stanza: expecting a URI path starting with '/', got %q" t,
                 snd (ScanUseful s))
  end.
Proof.
  unfold parseHandle. destruct (ScanUseful s) as [[ty v] s1]; simpl.
  intros ->. unfold is_typ; simpl. destruct v as [|ch rest]; simpl; [reflexivity|].
  intros Hch. unfold mbind, mret; simpl.
  replace (Rune.eqr ch "/") with false; [reflexivity|].
  symmetry. apply Ascii.eqb_neq. exact Hch.
Qed.

(** The path [p] of the script [handle "p"]. *)
Lemma parseHandle_path_check_witness :
  parseHandle 1 (newScanner (" " +:+ quoted "p"))
  = Returns (HandleStanza.zero,
             fmt.Errorf "Parse error in 'handle' stanza: expecting a URI path starting with '/', got %q"
                        (newToken STRING "p"),
             mkScanner "" (Some Rune.dquote)).
Proof.
  exact (parseHandle_path_check 1 (newScanner (" " +:+ quoted "p")) eq_refl
           ltac:(discriminate)).
Defined.

Lemma Parse_handle_relative_path :
  settles (fun fuel => Parse fuel handle_relative_path)
    (Returns ([], [],
       Some ("Parse error in 'handle' stanza: expecting a URI path starting with '/', got "
             +:+ quoted "STRING: p"))).
Proof. apply (Parse_settles 1); [vm_compute; reflexivity | discriminate]. Qed.

(** A client stanza whose [expect] statement comes before its [tx]
    command, the last statement of the stanza, is parsed. *)
Lemma Parse_client_tx_last :
  settles (fun fuel => Parse fuel client_tx_last)
    (Returns ([], [ClientStanza.mk "nemo" (TxReq.mk "/endpoint/1" "GET" ∅ "")
                     [mkExpect ("resp.status eq " +:+ quoted "200")
                               EXPECT_STATUS "" EQUAL "200"]], None)).
Proof. apply (Parse_settles 10); [vm_compute; reflexivity | discriminate]. Qed.

Lemma parseHandle_loop_spins_at_end (fuel : nat) (h : HandleStanza.t) (s : scanner) :
  pending s = "" -> parseHandle_loop fuel h s = Spins.
Proof.
  destruct s as [text l]; simpl. intros ->. revert l.
  induction fuel as [|fuel IH]; intros l; simpl; [reflexivity|apply IH].
Qed.

Lemma Parse_loop_stanza (fuel : nat) (h : list HandleStanza.t) (c : list ClientStanza.t)
    (s : scanner) (h' : list HandleStanza.t) (c' : list ClientStanza.t) (err : error) :
  Parse_loop fuel h c s = Returns (h', c', err) ->
  (err = None -> h' <> [] \/ c' <> []) /\ (h' = [] -> c' = [] -> err <> None).
Proof.
  revert h c s. induction fuel as [|fuel IH]; intros h c s; simpl; [discriminate|].
  destruct (ScanUseful s) as [t s1].
  destruct (is_typ t EOF).
  { destruct h as [|x h]; destruct c as [|y c]; simpl; intros H;
      injection H as <- <- <-; split; intros; try discriminate; auto;
      try (left; discriminate); try (right; discriminate). }
  destruct (is_typ t ILLEGAL).
  { intros H. injection H as <- <- <-. split; intros; discriminate. }
  destruct (is_typ t HANDLE).
  { destruct (parseHandle (S fuel) s1) as [[[hs [e|]] s2]| | |]; simpl;
      try discriminate; [|apply IH].
    intros H. injection H as <- <- <-. split; intros; discriminate. }
  destruct (is_typ t CLIENT); [|apply IH].
  destruct (parseClient (S fuel) s1) as [[[cs [e|]] s2]| | |]; simpl;
    try discriminate; [|apply IH].
  intros H. injection H as <- <- <-. split; intros; discriminate.
Qed.

(** ** The assertion parser *)

Lemma Expect_Parse_expect_server :
  Expect_Parse Expect_zero (newScanner expect_server_text)
  = (expect_server, None, mkScanner "" (Some Rune.dquote)).
Proof. vm_compute. reflexivity. Qed.

(** [Expect.Parse] accepts every pattern that a string literal can hold;
    it stores the pattern as it is. *)
Lemma Expect_Parse_any_pattern (pattern : string) :
  plain pattern = true ->
  Expect_Parse Expect_zero (newScanner ("req.method ~ " +:+ quoted pattern))
  = (mkExpect ("req.method ~" +:+ fmt.Sprintf " %q" pattern) EXPECT_METHOD "" TILDE pattern,
     None, mkScanner "" (Some Rune.dquote)).
Proof.
  intros H.
  change ("req.method ~ " +:+ quoted pattern)
    with (String "r" (String "e" (String "q" (String "." (String "m" (String "e"
         (String "t" (String "h" (String "o" (String "d" (String " " (String "~"
         (String " " (String Rune.dquote (pattern +:+ String Rune.dquote ""))))))))))))))).
  unfold Expect_Parse.
  repeat (rewrite ScanUseful_unfold; simpl).
  unfold unread, scan, read, scanQuotedString; simpl.
  rewrite (scanQuotedString_loop_plain pattern "" "" H). simpl.
  reflexivity.
Qed.

(** ** What [unread] restores *)

Lemma isIdent_not_special (ch : ascii) :
  Rune.isIdent ch = true ->
  Rune.isWhitespace ch = false /\ Rune.eqr ch Rune.eof = false.
Proof.
  destruct ch as [[] [] [] [] [] [] [] []]; intros H; try discriminate H; split; reflexivity.
Qed.

Lemma scanQuotedString_loop_open (text buf : string) :
  plain text = true ->
  scanQuotedString_loop text buf = (buf +:+ text, mkScanner "" None).
Proof.
  revert buf. induction text as [|ch text IH]; intros buf H.
  { rewrite append_nil_r. reflexivity. }
  simpl in H. apply andb_prop in H as [H H3]. apply andb_prop in H as [H1 H2].
  apply negb_true_iff in H1, H2. simpl. rewrite H1, H2.
  rewrite IH by exact H3. unfold Rune.to_string. rewrite append_String_r. reflexivity.
Qed.

(** A string literal, closed or left open by the end of the text. *)
Lemma scan_quoted (text rest : string) (l : option ascii) :
  plain text = true ->
  scan (mkScanner (quoted text +:+ rest) l)
    = (newToken STRING text, mkScanner rest (Some Rune.dquote)) /\
  scan (mkScanner (dq +:+ text) l) = (newToken STRING text, mkScanner "" None).
Proof.
  intros H. split.
  - change (quoted text +:+ rest) with (String Rune.dquote ((text +:+ dq) +:+ rest)).
    replace ((text +:+ dq) +:+ rest) with (text +:+ String Rune.dquote rest).
    + unfold scan, read, scanQuotedString. simpl.
      rewrite (scanQuotedString_loop_plain text rest "" H). reflexivity.
    + clear H. induction text as [|c t IH]; [reflexivity|].
      rewrite !append_cons. f_equal. exact IH.
  - change (dq +:+ text) with (String Rune.dquote text).
    unfold scan, read, scanQuotedString. simpl.
    rewrite (scanQuotedString_loop_open text "" H). reflexivity.
Qed.

Lemma scanIdent_loop_buf (text buf str : string) (s : scanner) :
  scanIdent_loop text buf = (str, s) -> exists more, str = buf +:+ more.
Proof.
  revert buf. induction text as [|ch rest IH]; simpl; intros buf H.
  { injection H as <- _. exists "". rewrite append_nil_r. reflexivity. }
  destruct (Rune.eqr ch Rune.eof).
  { injection H as <- _. exists "". rewrite append_nil_r. reflexivity. }
  destruct (Rune.isIdent ch); simpl in H.
  - apply IH in H as [more ->]. exists (String ch more).
    unfold Rune.to_string. rewrite append_String_r. reflexivity.
  - injection H as <- _. exists "". rewrite append_nil_r. reflexivity.
Qed.

(** The token of an identifier starts with the rune that [scan] read. *)
Lemma scanIdent_val (ch : ascii) (rest : string) (l : option ascii) :
  exists more, val (fst (scanIdent (mkScanner (String ch rest) l))) = String ch more.
Proof.
  unfold scanIdent, read. simpl.
  destruct (scanIdent_loop rest (Rune.to_string ch)) as [str s2] eqn:E.
  apply scanIdent_loop_buf in E as [more ->]. exists more. simpl.
  unfold classify. repeat case_match; reflexivity.
Qed.

Lemma illegal_rune_not_ident (ch : ascii) : illegal_rune ch = true -> Rune.isIdent ch = false.
Proof.
  unfold illegal_rune. destruct (Rune.isIdent ch); [|reflexivity].
  rewrite andb_false_r. simpl. discriminate.
Qed.

(** A rune that starts no token is scanned into the ILLEGAL token of that
    rune. *)
Lemma scan_illegal_rune (ch : ascii) (rest : string) (l : option ascii) :
  illegal_rune ch = true ->
  scan (mkScanner (String ch rest) l)
    = (newToken ILLEGAL (Rune.to_string ch), mkScanner rest (Some ch)) /\
  one_rune_token (newToken ILLEGAL (Rune.to_string ch)) = true.
Proof.
  intros H. unfold one_rune_token. simpl. rewrite H. split; [|reflexivity].
  unfold illegal_rune, is_punct in H.
  repeat (apply andb_prop in H as [H ?]).
  repeat match goal with K : negb _ = true |- _ => apply negb_true_iff in K end.
  repeat match goal with K : _ || _ = false |- _ => apply orb_false_elim in K as [K ?] end.
  unfold scan, read, scanChar. simpl.
  repeat match goal with K : _ = false |- _ => rewrite K; clear K end. reflexivity.
Qed.

(** After a token made of the one rune that was read, [unread] and [scan]
    give the token again, and the scanner is where it was. *)
Lemma scan_unread_one_rune (s : scanner) (t : token) (s2 : scanner) :
  scan s = (t, s2) -> one_rune_token t = true -> scan (unread s2) = (t, s2).
Proof.
  intros H K. apply orb_prop in K as [K|K].
  { exact (scan_unread_single_rune s t s2 H K). }
  apply andb_prop in K as [Kt Kv]. apply is_typ_true in Kt.
  revert H. unfold scan at 1, read. destruct s as [text l]; simpl.
  destruct text as [|ch rest]; simpl.
  { intros H. injection H as <- <-. reflexivity. }
  destruct (Rune.isWhitespace ch) eqn:Hws.
  { intros H. injection H as <- _. discriminate. }
  destruct (Rune.isIdent ch) eqn:Hid.
  { intros H. exfalso.
    destruct (scanIdent_val ch rest None) as [more V].
    change (unread (mkScanner rest (Some ch))) with (mkScanner (String ch rest) None) in H.
    rewrite H in V. simpl in V. rewrite V in Kv.
    destruct more; [|discriminate].
    apply illegal_rune_not_ident in Kv. congruence. }
  destruct (Rune.eqr ch Rune.dquote) eqn:Hdq.
  { unfold scanQuotedString; simpl. destruct (scanQuotedString_loop _ _).
    intros H. injection H as <- _. discriminate. }
  destruct (Rune.eqr ch "#") eqn:Hh.
  { destruct (scanComment_loop rest) as [s1|s1] eqn:E.
    - intros H. injection H as <- _. discriminate.
    - intros H. injection H as <- _. discriminate. }
  intros H. injection H as <- <-.
  unfold unread, scan, read; simpl. rewrite Hws, Hid, Hdq, Hh. reflexivity.
Qed.

Lemma one_rune_not_skipped (t : token) : one_rune_token t = true -> skipped (typ t) = false.
Proof.
  intros K. apply orb_prop in K as [K|K].
  - exact (single_rune_not_skipped _ K).
  - apply andb_prop in K as [K _]. apply is_typ_true in K. rewrite K. reflexivity.
Qed.

Lemma ScanUseful_unread_one_rune (s : scanner) (t : token) (s2 : scanner) :
  ScanUseful s = (t, s2) -> one_rune_token t = true ->
  ScanUseful (unread s2) = (t, s2).
Proof.
  intros H K. apply ScanUseful_loop_last in H as [s1 H].
  pose proof (scan_unread_one_rune _ _ _ H K) as U.
  unfold ScanUseful. destruct (String.length _); simpl;
    rewrite U, (one_rune_not_skipped _ K); reflexivity.
Qed.

(** Where the loop of [scanWhitespace] leaves the scanner: at the end of
    the text, after a rune 0 that can be unread, or before a rune that is
    not whitespace, with nothing to unread. *)
Lemma scanWhitespace_loop_stops (text : string) :
  scanWhitespace_loop text = mkScanner "" None \/
  (exists rest, scanWhitespace_loop text = mkScanner rest (Some Rune.eof)) \/
  (exists ch rest, scanWhitespace_loop text = mkScanner (String ch rest) None /\
     Rune.isWhitespace ch = false).
Proof.
  induction text as [|ch rest IH]; simpl; [left; reflexivity|].
  destruct (Rune.eqr ch Rune.eof) eqn:E.
  { apply Ascii.eqb_eq in E. subst ch. right; left. eauto. }
  destruct (Rune.isWhitespace ch) eqn:W; simpl; [exact IH|].
  right; right. exists ch, rest. split; [reflexivity|exact W].
Qed.

Lemma scanIdent_loop_stops (text buf : string) :
  let s2 := snd (scanIdent_loop text buf) in
  s2 = mkScanner "" None \/
  (exists rest, s2 = mkScanner rest (Some Rune.eof)) \/
  (exists ch rest, s2 = mkScanner (String ch rest) None /\ Rune.isIdent ch = false).
Proof.
  revert buf. induction text as [|ch rest IH]; intros buf; simpl; [left; reflexivity|].
  destruct (Rune.eqr ch Rune.eof) eqn:E.
  { apply Ascii.eqb_eq in E. subst ch. right; left. simpl. eauto. }
  destruct (Rune.isIdent ch) eqn:W; simpl; [apply IH|].
  right; right. exists ch, rest. split; [reflexivity|exact W].
Qed.

(** A token of whitespace starts with a whitespace rune. *)
Lemma scan_WS (ch : ascii) (rest : string) (l : option ascii) :
  typ (fst (scan (mkScanner (String ch rest) l))) = WS -> Rune.isWhitespace ch = true.
Proof.
  unfold scan, read. simpl. destruct (Rune.isWhitespace ch); [reflexivity|].
  destruct (Rune.isIdent ch).
  { pose proof (scanIdent_ident_kind (unread (mkScanner rest (Some ch)))) as I.
    intros H. rewrite H in I. discriminate. }
  destruct (Rune.eqr ch Rune.dquote).
  { unfold scanQuotedString. destruct (scanQuotedString_loop _ _). discriminate. }
  destruct (Rune.eqr ch "#").
  { destruct (scanComment_loop _); [discriminate|]. simpl. discriminate. }
  pose proof (scanChar_char_kind ch) as C. simpl. intros H. rewrite H in C. discriminate.
Qed.

(** A token of an identifier kind that does not start with an identifier
    rune is the ILLEGAL token of that rune. *)
Lemma scan_not_ident (ch : ascii) (rest : string) (l : option ascii) :
  Rune.isIdent ch = false ->
  ident_kind (typ (fst (scan (mkScanner (String ch rest) l)))) = true ->
  val (fst (scan (mkScanner (String ch rest) l))) = Rune.to_string ch.
Proof.
  intros Hid. unfold scan, read. simpl. rewrite Hid.
  destruct (Rune.isWhitespace ch); [discriminate|].
  destruct (Rune.eqr ch Rune.dquote).
  { unfold scanQuotedString. destruct (scanQuotedString_loop _ _). discriminate. }
  destruct (Rune.eqr ch "#").
  { destruct (scanComment_loop _); discriminate. }
  simpl. unfold scanChar. repeat case_match; try discriminate. reflexivity.
Qed.

(** After whitespace, a comment or an identifier, [unread] and [scan] give
    another token. *)
Lemma scan_unread_longer (s : scanner) (t : token) (s2 : scanner) :
  scan s = (t, s2) -> one_rune_token t = false -> typ t <> STRING ->
  fst (scan (unread s2)) <> t.
Proof.
  unfold scan at 1, read. destruct s as [text l]; simpl.
  destruct text as [|ch rest]; simpl.
  { intros H K. injection H as <- _. discriminate. }
  destruct (Rune.isWhitespace ch) eqn:Hws.
  { change (unread (mkScanner rest (Some ch))) with (mkScanner (String ch rest) None).
    unfold scanWhitespace. cbn [pending]. intros H _ _.
    pose proof (f_equal fst H) as Ht. pose proof (f_equal snd H) as Hs.
    cbn [fst snd] in Ht, Hs. subst t s2. clear H.
    destruct (scanWhitespace_loop_stops (String ch rest)) as [E|[[r E]|(c & r & E & W)]];
      rewrite E.
    - discriminate.
    - discriminate.
    - change (unread (mkScanner (String c r) None)) with (mkScanner (String c r) None).
      intros F. pose proof (scan_WS c r None) as S. rewrite F in S.
      specialize (S eq_refl). congruence. }
  destruct (Rune.isIdent ch) eqn:Hid.
  { change (unread (mkScanner rest (Some ch))) with (mkScanner (String ch rest) None).
    intros H _ _.
    pose proof (scanIdent_ident_kind (mkScanner (String ch rest) None)) as I.
    destruct (scanIdent_val ch rest None) as [more V].
    rewrite H in I, V. simpl in I, V.
    assert (S2 : s2 = snd (scanIdent_loop rest (Rune.to_string ch))).
    { revert H. unfold scanIdent, read. simpl.
      destruct (scanIdent_loop rest (Rune.to_string ch)). intros H. injection H as _ <-.
      reflexivity. }
    destruct (scanIdent_loop_stops rest (Rune.to_string ch)) as [E|[[r E]|(c & r & E & W)]];
      rewrite <- S2 in E; rewrite E.
    - intros F. rewrite <- F in I. discriminate.
    - intros F. rewrite <- F in I. discriminate.
    - change (unread (mkScanner (String c r) None)) with (mkScanner (String c r) None).
      intros F. pose proof (scan_not_ident c r None W) as S. rewrite F in S.
      specialize (S I). rewrite V in S. injection S as -> _. congruence. }
  destruct (Rune.eqr ch Rune.dquote) eqn:Hdq.
  { unfold scanQuotedString; simpl. destruct (scanQuotedString_loop _ _).
    intros H _ K. injection H as <- _. contradiction K. reflexivity. }
  destruct (Rune.eqr ch "#") eqn:Hh.
  { destruct (scanComment_loop rest) as [s1|s1] eqn:E.
    - intros H _ _. injection H as <- <-.
      assert (N : exists r, s1 = mkScanner r (Some Rune.newline)).
      { clear -E. revert E. induction rest as [|c r IH]; simpl; [discriminate|].
        destruct (Rune.eqr c Rune.newline) eqn:N.
        - apply Ascii.eqb_eq in N. subst c. intros H. injection H as <-. eauto.
        - destruct (Rune.eqr c Rune.eof); [discriminate|]. exact IH. }
      destruct N as [r ->]. discriminate.
    - intros H K. injection H as <- _. discriminate. }
  intros H K. injection H as <- _. exfalso. revert K.
  unfold scanChar.
  destruct (Rune.eqr ch Rune.eof) eqn:E0; [discriminate|].
  destruct (Rune.eqr ch ".") eqn:E1; [discriminate|].
  destruct (Rune.eqr ch "[") eqn:E2; [discriminate|].
  destruct (Rune.eqr ch "]") eqn:E3; [discriminate|].
  destruct (Rune.eqr ch "{") eqn:E4; [discriminate|].
  destruct (Rune.eqr ch "}") eqn:E5; [discriminate|].
  destruct (Rune.eqr ch "~") eqn:E6; [discriminate|].
  unfold one_rune_token, illegal_rune, is_punct. simpl.
  rewrite Hws, Hid, Hdq, Hh, E0, E1, E2, E3, E4, E5, E6. discriminate.
Qed.

(** After a string literal that its quote closes, [unread] puts the
    closing quote back, and the text after the literal is scanned as a
    string literal. *)
Lemma scan_unread_string (text text' rest : string) (l : option ascii) :
  plain text = true -> plain text' = true ->
  let s := mkScanner (quoted text +:+ text' +:+ dq +:+ rest) l in
  fst (scan s) = newToken STRING text /\
  scan (unread (snd (scan s))) = (newToken STRING text', mkScanner rest (Some Rune.dquote)).
Proof.
  intros H H'. cbv zeta.
  destruct (scan_quoted text (text' +:+ dq +:+ rest) l H) as [E _]. rewrite E. simpl.
  split; [reflexivity|].
  change (unread (mkScanner (text' +:+ dq +:+ rest) (Some Rune.dquote)))
    with (mkScanner (String Rune.dquote (text' +:+ dq +:+ rest)) None).
  destruct (scan_quoted text' rest None H') as [E' _].
  rewrite <- E'. f_equal. f_equal.
  change (quoted text' +:+ rest) with (String Rune.dquote ((text' +:+ dq) +:+ rest)).
  f_equal. clear. induction text' as [|c t IH]; [reflexivity|].
  rewrite !append_cons. f_equal. exact IH.
Qed.

(** After a string literal that the end of the text leaves open, there is
    nothing to unread. *)
Lemma scan_unread_open_string (text : string) (l : option ascii) :
  plain text = true ->
  let s := mkScanner (dq +:+ text) l in
  fst (scan s) = newToken STRING text /\
  scan (unread (snd (scan s))) = (newToken EOF "", mkScanner "" None).
Proof.
  intros H. cbv zeta. destruct (scan_quoted text "" l H) as [_ E]. rewrite E.
  split; reflexivity.
Qed.

(** After a string literal that its quote closes, when no quote follows:
    the text after the literal is scanned, to its end, as a string
    literal. *)
Lemma scan_unread_string_end (text text' : string) (l : option ascii) :
  plain text = true -> plain text' = true ->
  let s := mkScanner (quoted text +:+ text') l in
  fst (scan s) = newToken STRING text /\
  scan (unread (snd (scan s))) = (newToken STRING text', mkScanner "" None).
Proof.
  intros H H'. cbv zeta.
  destruct (scan_quoted text text' l H) as [E _]. rewrite E. simpl.
  split; [reflexivity|].
  change (unread (mkScanner text' (Some Rune.dquote)))
    with (mkScanner (dq +:+ text') None).
  exact (proj2 (scan_quoted text' "" None H')).
Qed.

(** Whitespace, a comment and an identifier are not made of the one rune
    that can be unread: [unread] and [scan] give another token. *)
Lemma scan_unread_not_restored (s : scanner) (t : token) (s2 : scanner) :
  scan s = (t, s2) ->
  typ t = WS \/ typ t = HASH \/
  (exists ch rest, pending s = String ch rest /\ Rune.isIdent ch = true) ->
  fst (scan (unread s2)) <> t.
Proof.
  intros H K. apply (scan_unread_longer s t s2 H).
  - destruct K as [K|[K|(ch & rest & P & I)]].
    + unfold one_rune_token. rewrite K. reflexivity.
    + unfold one_rune_token. rewrite K. reflexivity.
    + destruct s as [text l]. simpl in P. subst text.
      destruct (isIdent_not_special ch I) as [W _].
      revert H. unfold scan, read. simpl. rewrite W, I.
      change (unread (mkScanner rest (Some ch))) with (mkScanner (String ch rest) None).
      intros H.
      pose proof (scanIdent_ident_kind (mkScanner (String ch rest) None)) as J.
      destruct (scanIdent_val ch rest None) as [more V].
      rewrite H in J, V. simpl in J, V.
      unfold one_rune_token. rewrite V.
      destruct (typ t); try discriminate J; try reflexivity.
      simpl. destruct more; [|reflexivity].
      unfold illegal_rune. rewrite I. rewrite andb_false_r. reflexivity.
  - destruct K as [K|[K|(ch & rest & P & I)]].
    + rewrite K. discriminate.
    + rewrite K. discriminate.
    + destruct s as [text l]. simpl in P. subst text.
      destruct (isIdent_not_special ch I) as [W _].
      revert H. unfold scan, read. simpl. rewrite W, I.
      change (unread (mkScanner rest (Some ch))) with (mkScanner (String ch rest) None).
      intros H.
      pose proof (scanIdent_ident_kind (mkScanner (String ch rest) None)) as J.
      rewrite H in J. simpl in J. intros E. rewrite E in J. discriminate.
Qed.

(** ** What [scan] makes of a text *)

(** [scan] and [ScanUseful] do not look at the rune that can be unread. *)
Lemma scan_last (text : string) (l l' : option ascii) :
  scan (mkScanner text l) = scan (mkScanner text l').
Proof. reflexivity. Qed.

Lemma ScanUseful_last (text : string) (l l' : option ascii) :
  ScanUseful (mkScanner text l) = ScanUseful (mkScanner text l').
Proof. rewrite !(ScanUseful_unfold (mkScanner text _)). reflexivity. Qed.

Lemma scanIdent_loop_spec (w rest buf : string) :
  all_ident w = true -> stops_ident rest = true ->
  scanIdent_loop (w +:+ rest) buf = (buf +:+ w, mkScanner rest None).
Proof.
  revert buf. induction w as [|ch w IH]; intros buf Hw Hr.
  - rewrite append_nil_r. change ("" +:+ rest) with rest.
    destruct rest as [|ch rest]; [reflexivity|]. simpl in *.
    apply andb_prop in Hr as [H1 H2]. apply negb_true_iff in H1, H2.
    rewrite H1, H2. reflexivity.
  - simpl in Hw. apply andb_prop in Hw as [Hc Hw].
    destruct (isIdent_not_special ch Hc) as [_ Hz].
    rewrite append_cons. simpl. rewrite Hz, Hc. simpl.
    rewrite IH by assumption. unfold Rune.to_string. rewrite append_String_r. reflexivity.
Qed.

(** X5.  A string literal is scanned into a STRING token whose value is
    the text between the quotes, as it is: [scan] leaves the scanner after
    the closing quote.  A literal that the end of the text leaves open is
    scanned the same way, without an error. *)
Theorem scan_string_literal (text rest : string) (l : option ascii) :
  plain text = true ->
  scan (mkScanner (quoted text +:+ rest) l)
    = (newToken STRING text, mkScanner rest (Some Rune.dquote)) /\
  scan (mkScanner (dq +:+ text) l) = (newToken STRING text, mkScanner "" None).
Proof. exact (scan_quoted text rest l). Qed.

(** The literal ["GET"] before a closing brace, and at the end of a text. *)
Lemma scan_string_literal_witness :
  scan (mkScanner (quoted "GET" +:+ " }") None)
    = (newToken STRING "GET", mkScanner " }" (Some Rune.dquote)) /\
  scan (mkScanner (dq +:+ "GET") None) = (newToken STRING "GET", mkScanner "" None).
Proof. apply (scan_string_literal "GET" " }" None). reflexivity. Defined.

(** A run of identifier runes. *)
Lemma scan_ident_run (w rest : string) (l : option ascii) :
  w <> "" -> all_ident w = true -> stops_ident rest = true ->
  scan (mkScanner (w +:+ rest) l) = (classify w, mkScanner rest None) /\
  val (classify w) = w.
Proof.
  intros Hne Hw Hr. split.
  - destruct w as [|ch w]; [congruence|]. simpl in Hw.
    apply andb_prop in Hw as [Hc Hw].
    destruct (isIdent_not_special ch Hc) as [Hws _].
    rewrite append_cons. unfold scan, read. simpl. rewrite Hws, Hc.
    unfold scanIdent, unread, read. simpl.
    rewrite (scanIdent_loop_spec w rest _ Hw Hr). reflexivity.
  - unfold classify. repeat case_match; reflexivity.
Qed.

(** X6.  A run of identifier runes (letters, digits, dashes, underscores)
    that is ended by the end of the text, or by a rune that is neither an
    identifier rune nor the rune 0, is scanned whole into one token: its
    value is the run, its type is the one of the keyword table, INTEGER or
    ILLEGAL, and the scanner is left at the rune that ended the run. *)
Theorem scan_identifier (w rest : string) (l : option ascii) :
  w <> "" -> all_ident w = true -> stops_ident rest = true ->
  scan (mkScanner (w +:+ rest) l) = (classify w, mkScanner rest None) /\
  val (classify w) = w.
Proof. exact (scan_ident_run w rest l). Qed.

(** The flag [-status-code], which is no keyword, before a space. *)
Lemma scan_identifier_witness :
  scan (mkScanner ("-status-code" +:+ " 200") None)
    = (newToken ILLEGAL "-status-code", mkScanner " 200" None) /\
  val (classify "-status-code") = "-status-code".
Proof.
  apply (scan_identifier "-status-code" " 200" None); [discriminate|reflexivity|reflexivity].
Defined.

(** ** What [ScanUseful] skips, and INTEGER tokens *)

Lemma scanWhitespace_loop_skip (text : string) :
  starts_live text = true ->
  ScanUseful (scanWhitespace_loop text) = ScanUseful (newScanner text).
Proof.
  destruct text as [|ch text]; [reflexivity|]. simpl. intros H.
  apply negb_true_iff in H. rewrite H.
  destruct (Rune.isWhitespace ch) eqn:W; simpl; [|reflexivity].
  rewrite (ScanUseful_unfold (newScanner _)).
  unfold scan, read, newScanner. simpl. rewrite W. unfold unread. simpl.
  rewrite H, W. reflexivity.
Qed.

Lemma scanComment_loop_skip (pre rest : string) :
  skippable true pre = true ->
  exists pre', scanComment_loop (pre +:+ rest)
               = inl (mkScanner (pre' +:+ rest) (Some Rune.newline)) /\
    skippable false pre' = true /\ String.length pre' < String.length pre.
Proof.
  induction pre as [|ch pre IH]; simpl; [discriminate|].
  destruct (Rune.eqr ch Rune.eof) eqn:Z; [discriminate|].
  try rewrite append_cons. simpl. try rewrite Z.
  destruct (Rune.eqr ch Rune.newline) eqn:N; simpl.
  - intros H. exists pre. apply Ascii.eqb_eq in N. subst ch. repeat split; auto.
  - intros H. destruct (IH H) as (pre' & E & K & L). exists pre'. repeat split; auto.
Qed.

Lemma skippable_starts_live (pre rest : string) :
  skippable false pre = true -> starts_live rest = true ->
  starts_live (pre +:+ rest) = true.
Proof.
  destruct pre as [|ch pre]; [auto|]. simpl.
  destruct (Rune.eqr ch Rune.eof); [discriminate|reflexivity].
Qed.

(** Whitespace and closed comments before a token. *)
Lemma ScanUseful_skip_prefix (pre rest : string) (l : option ascii) :
  skippable false pre = true -> starts_live rest = true ->
  ScanUseful (mkScanner (pre +:+ rest) l) = ScanUseful (newScanner rest).
Proof.
  remember (String.length pre) as n eqn:En. revert pre l En.
  induction n as [n IH] using lt_wf_ind. intros pre l En Hpre Hrest.
  destruct pre as [|ch pre]; [apply ScanUseful_last|].
  simpl in Hpre. destruct (Rune.eqr ch Rune.eof) eqn:Z; [discriminate|].
  rewrite append_cons, ScanUseful_unfold. unfold scan, read. simpl.
  destruct (Rune.isWhitespace ch) eqn:W.
  - unfold unread. simpl. rewrite Z, W. simpl.
    rewrite scanWhitespace_loop_skip by (apply skippable_starts_live; assumption).
    apply (IH (String.length pre)); subst; simpl; auto; lia.
  - destruct (Rune.eqr ch "#") eqn:H; [|discriminate].
    apply Ascii.eqb_eq in H. subst ch. simpl.
    destruct (scanComment_loop_skip pre rest Hpre) as (pre' & E & K & L).
    rewrite E. simpl.
    apply (IH (String.length pre')); subst; simpl; auto; lia.
Qed.

(** X7.  Whitespace and comments before a token do not change what
    [ScanUseful] returns: after a text of whitespace and of comments closed
    by their line break, it returns the token and the scanner that it
    returns on the rest alone.  (The rest must not start with the rune 0,
    which the loop of [scanWhitespace] takes for the end of the text and
    drops.) *)
Theorem ScanUseful_skips (pre rest : string) (l : option ascii) :
  skippable false pre = true -> starts_live rest = true ->
  ScanUseful (mkScanner (pre +:+ rest) l) = ScanUseful (newScanner rest).
Proof. exact (ScanUseful_skip_prefix pre rest l). Qed.

(** A comment and an indentation before the keyword [handle]. *)
Lemma ScanUseful_skips_witness :
  ScanUseful (mkScanner (("# a test" +:+ nl +:+ "  ") +:+ "handle") None)
  = ScanUseful (newScanner "handle").
Proof. apply (ScanUseful_skips ("# a test" +:+ nl +:+ "  ") "handle" None); reflexivity. Defined.

Lemma classify_INTEGER (w : string) :
  typ (classify w) = INTEGER <-> snd (strconv.Atoi w) = None.
Proof.
  unfold classify.
  repeat match goal with
  | |- context [String.eqb w ?k] =>
      destruct (String.eqb_spec w k) as [->|_]; [split; intros H; discriminate H|]
  end.
  destruct (snd (strconv.Atoi w)); simpl; split; intros H; try discriminate; reflexivity.
Qed.

Lemma scan_INTEGER (s : scanner) :
  typ (fst (scan s)) = INTEGER -> snd (strconv.Atoi (val (fst (scan s)))) = None.
Proof.
  unfold scan. destruct (read s) as [ch s1].
  destruct (Rune.isWhitespace ch); [discriminate|].
  destruct (Rune.isIdent ch).
  { unfold scanIdent. destruct (read _) as [c s2].
    destruct (scanIdent_loop _ _) as [w s3]. simpl. intros H.
    assert (val (classify w) = w) as -> by (unfold classify; repeat case_match; reflexivity).
    apply classify_INTEGER. exact H. }
  destruct (Rune.eqr ch Rune.dquote).
  { unfold scanQuotedString. destruct (scanQuotedString_loop _ _). discriminate. }
  destruct (Rune.eqr ch "#").
  { destruct (scanComment_loop _); discriminate. }
  simpl. intros H. pose proof (scanChar_char_kind ch) as K. rewrite H in K. discriminate.
Qed.

(** X8.  The scanner makes an INTEGER token of an identifier exactly when
    [strconv.Atoi] accepts it, and every INTEGER token that [ScanUseful]
    returns has a value that [strconv.Atoi] converts without an error: the
    error that [TxResp.Parse] drops on [-status] is always nil. *)
Theorem INTEGER_token_converts :
  (forall w, typ (classify w) = INTEGER <-> snd (strconv.Atoi w) = None) /\
  (forall s, typ (fst (ScanUseful s)) = INTEGER ->
     snd (strconv.Atoi (val (fst (ScanUseful s)))) = None).
Proof.
  split; [exact classify_INTEGER|].
  intros s H. destruct (ScanUseful s) as [t s2] eqn:E.
  apply ScanUseful_loop_last in E as [s1 E]. simpl in *.
  pose proof (scan_INTEGER s1) as K. rewrite E in K. auto.
Qed.

(** The INTEGER token of the text [404]. *)
Lemma INTEGER_token_converts_witness :
  snd (strconv.Atoi (val (fst (ScanUseful (newScanner " 404"))))) = None.
Proof. apply (proj2 INTEGER_token_converts (newScanner " 404")). reflexivity. Defined.

Lemma ident_kind_not_skipped (ty : tokenType) : ident_kind ty = true -> skipped ty = false.
Proof. destruct ty; simpl; intros H; try discriminate H; reflexivity. Qed.

Lemma ScanUseful_ident (w rest : string) (l : option ascii) :
  w <> "" -> all_ident w = true -> stops_ident rest = true ->
  ScanUseful (mkScanner (w +:+ rest) l) = (classify w, mkScanner rest None).
Proof.
  intros Hne Hw Hr. rewrite ScanUseful_unfold.
  rewrite (proj1 (scan_ident_run w rest l Hne Hw Hr)).
  rewrite (ident_kind_not_skipped _ (classify_ident_kind w)). reflexivity.
Qed.

Lemma ScanUseful_quoted (text rest : string) (l : option ascii) :
  plain text = true ->
  ScanUseful (mkScanner (quoted text +:+ rest) l)
  = (newToken STRING text, mkScanner rest (Some Rune.dquote)).
Proof.
  intros H. rewrite ScanUseful_unfold.
  rewrite (proj1 (scan_quoted text rest l H)). reflexivity.
Qed.

Lemma ScanUseful_punct (ch : ascii) (rest : string) (l : option ascii) :
  is_punct ch = true ->
  ScanUseful (mkScanner (String ch "" +:+ rest) l)
  = (scanChar ch, mkScanner rest (Some ch)).
Proof.
  intros H. rewrite ScanUseful_unfold.
  destruct ch as [[] [] [] [] [] [] [] []]; try discriminate H; reflexivity.
Qed.

Lemma ScanUseful_space (rest : string) (l : option ascii) :
  starts_live rest = true ->
  ScanUseful (mkScanner (" " +:+ rest) l) = ScanUseful (newScanner rest).
Proof. intros H. apply (ScanUseful_skip_prefix " " rest l); [reflexivity|exact H]. Qed.

Lemma starts_live_ident (w rest : string) :
  w <> "" -> all_ident w = true -> starts_live (w +:+ rest) = true.
Proof.
  destruct w as [|ch w]; [congruence|]. simpl. intros _ H.
  apply andb_prop in H as [H _]. apply isIdent_not_special in H as [_ ->]. reflexivity.
Qed.

Lemma ScanUseful_end (l : option ascii) :
  ScanUseful (mkScanner "" l) = (newToken EOF "", mkScanner "" None).
Proof. reflexivity. Qed.

(** The tokens of a text are read: [simpl] reads the tokens of text
    that is known, and the lemmas above read a string literal, an
    identifier, a space or a punctuation mark before text that is not. *)
Ltac read_token :=
  unfold newScanner;
  repeat match goal with
  | |- context [mkScanner ("" +:+ ?x) ?l] => change ("" +:+ x) with x
  | |- context [unread (mkScanner ?x (Some ?c))] =>
      change (unread (mkScanner x (Some c))) with (mkScanner (String c "" +:+ x) None)
  end;
  first
    [ rewrite ScanUseful_quoted by assumption
    | rewrite ScanUseful_end
    | rewrite ScanUseful_space by (reflexivity || (apply starts_live_ident; assumption))
    | rewrite ScanUseful_punct by reflexivity
    | rewrite ScanUseful_ident by (assumption || reflexivity || discriminate) ];
  cbv beta iota.

Ltac read_tokens := repeat (simpl; read_token); simpl.

(** ** Stanzas of a program *)

Lemma parseHandle_loop_URIPath (fuel : nat) (h : HandleStanza.t) (s : scanner)
    (h' : HandleStanza.t) (err : error) (s' : scanner) :
  parseHandle_loop fuel h s = Returns (h', err, s') ->
  HandleStanza.URIPath h' = HandleStanza.URIPath h.
Proof.
  revert h s. induction fuel as [|fuel IH]; intros h s; simpl; [discriminate|].
  destruct (ScanUseful s) as [t s1].
  destruct (is_typ t CLOSE_CURLY); [intros H; injection H as <- _ _; reflexivity|].
  destruct (is_typ t EXPECT).
  { destruct (Expect_Parse Expect_zero s1) as [[e [e1|]] s2].
    - intros H; injection H as <- _ _; reflexivity.
    - intros H. apply IH in H. exact H. }
  destruct (is_typ t TX); [|apply IH].
  destruct (TxResp.Parse (S fuel) TxResp.zero s1) as [[[resp [e1|]] s2]| | |]; simpl;
    try discriminate.
  - intros H; injection H as <- _ _; reflexivity.
  - destruct (ScanUseful s2) as [t2 s3].
    destruct (negb (is_typ t2 CLOSE_CURLY)); intros H; injection H as <- _ _; reflexivity.
Qed.

Lemma parseHandle_rooted (fuel : nat) (s : scanner) (h : HandleStanza.t) (s' : scanner) :
  parseHandle fuel s = Returns (h, None, s') -> rooted (HandleStanza.URIPath h) = true.
Proof.
  unfold parseHandle. destruct (ScanUseful s) as [t s1].
  destruct (is_typ t STRING); simpl; [|discriminate].
  destruct (val t) as [|ch path] eqn:V; simpl; [discriminate|].
  unfold mbind, mret; simpl.
  destruct (Rune.eqr ch "/") eqn:R; simpl; [|discriminate].
  destruct (ScanUseful s1) as [t2 s2].
  destruct (negb (is_typ t2 OPEN_CURLY)); [discriminate|].
  intros H. apply parseHandle_loop_URIPath in H. rewrite H. simpl. exact R.
Qed.

Lemma Parse_loop_rooted (fuel : nat) (h : list HandleStanza.t) (c : list ClientStanza.t)
    (s : scanner) (h' : list HandleStanza.t) (c' : list ClientStanza.t) (err : error) :
  Forall (fun hs => rooted (HandleStanza.URIPath hs) = true) h ->
  Parse_loop fuel h c s = Returns (h', c', err) ->
  Forall (fun hs => rooted (HandleStanza.URIPath hs) = true) h'.
Proof.
  revert h c s. induction fuel as [|fuel IH]; intros h c s Hh; simpl; [discriminate|].
  destruct (ScanUseful s) as [t s1].
  destruct (is_typ t EOF).
  { destruct (_ && _); intros H; injection H as <- _ _; exact Hh. }
  destruct (is_typ t ILLEGAL); [intros H; injection H as <- _ _; exact Hh|].
  destruct (is_typ t HANDLE).
  { destruct (parseHandle (S fuel) s1) as [[[hs [e|]] s2]| | |] eqn:E; simpl;
      try discriminate.
    - intros H; injection H as <- _ _; exact Hh.
    - apply IH. apply Forall_app. split; [exact Hh|].
      constructor; [|constructor]. apply (parseHandle_rooted _ _ _ _ E). }
  destruct (is_typ t CLIENT); [|apply IH; exact Hh].
  destruct (parseClient (S fuel) s1) as [[[cs [e|]] s2]| | |]; simpl; try discriminate.
  - intros H; injection H as <- _ _; exact Hh.
  - apply IH; exact Hh.
Qed.

(** X9.  Every handler that [Parse] returns, with or without an error,
    has a URI path that starts with a slash. *)
Theorem Parse_handlers_rooted (fuel : nat) (text : string)
    (h : list HandleStanza.t) (c : list ClientStanza.t) (err : error) :
  Parse fuel text = Returns (h, c, err) ->
  Forall (fun hs => rooted (HandleStanza.URIPath hs) = true) h.
Proof. apply Parse_loop_rooted. constructor. Qed.

(** The handler of the script simple.htc. *)
Lemma Parse_handlers_rooted_witness :
  Forall (fun hs => rooted (HandleStanza.URIPath hs) = true) [simple_htc_handler].
Proof.
  apply (Parse_handlers_rooted 10 simple_htc _ [] (Some tx_meets_expect_error)).
  vm_compute. reflexivity.
Defined.

Lemma parseClient_loop_spins_at_end (fuel : nat) (c : ClientStanza.t) (s : scanner) :
  pending s = "" -> parseClient_loop fuel c s = Spins.
Proof.
  destruct s as [text l]; simpl. intros ->. revert l.
  induction fuel as [|fuel IH]; intros l; simpl; [reflexivity|apply IH].
Qed.

(** X4.  A stanza that the end of the text leaves open makes [Parse]
    spin: for every path and every client name that a string literal can
    hold, [Parse] does not return on [handle "/path" {] nor on
    [client "name" {], whatever the fuel.  The loops of [parseHandle] and
    [parseClient] test the token for the closing brace, [expect] and [tx],
    and read the end of input again and again. *)
Theorem Parse_open_stanza_spins (fuel : nat) (name : string) :
  plain name = true ->
  Parse fuel ("handle " +:+ quoted ("/" +:+ name) +:+ " {") = Spins /\
  Parse fuel ("client " +:+ quoted name +:+ " {") = Spins.
Proof.
  intros H. destruct fuel as [|fuel]; [split; reflexivity|].
  assert (forall text rest l, plain text = true ->
            ScanUseful (mkScanner (" " +:+ quoted text +:+ rest) l)
            = (newToken STRING text, mkScanner rest (Some Rune.dquote))) as Q.
  { intros text rest l Ht.
    rewrite (ScanUseful_skip_prefix " " (quoted text +:+ rest)) by reflexivity.
    rewrite ScanUseful_unfold. unfold newScanner.
    rewrite (proj1 (scan_quoted text rest None Ht)). reflexivity. }
  split.
  - unfold Parse, newScanner. cbn [Parse_loop]. rewrite ScanUseful_unfold.
    unfold scan, read. simpl. unfold parseHandle.
    match goal with
    | |- context [ScanUseful ?s] =>
        change s with (mkScanner (" " +:+ quoted ("/" +:+ name) +:+ " {") None)
    end.
    rewrite (Q ("/" +:+ name) " {" _ H). simpl. unfold mbind, mret. simpl.
    rewrite parseHandle_loop_spins_at_end by reflexivity. reflexivity.
  - unfold Parse, newScanner. cbn [Parse_loop]. rewrite ScanUseful_unfold.
    unfold scan, read. simpl. unfold parseClient.
    match goal with
    | |- context [ScanUseful ?s] =>
        change s with (mkScanner (" " +:+ quoted name +:+ " {") None)
    end.
    rewrite (Q name " {" _ H). simpl.
    rewrite parseClient_loop_spins_at_end by reflexivity. reflexivity.
Qed.

(** The stanzas [handle "/p" {] and [client "p" {]. *)
Lemma Parse_open_stanza_spins_witness :
  Parse 7 ("handle " +:+ quoted ("/" +:+ "p") +:+ " {") = Spins /\
  Parse 7 ("client " +:+ quoted "p" +:+ " {") = Spins.
Proof. apply (Parse_open_stanza_spins 7 "p"). reflexivity. Defined.

(** ** Assertions of a program *)

Section Assertions.

(** A property of every assertion that [Expect.Parse] returns without an
    error on the receiver [Expect{}], the one the stanza parsers give
    it. *)
Variable P : Expect -> Prop.
Hypothesis parsed : forall s e s', Expect_Parse Expect_zero s = (e, None, s') -> P e.

Lemma parseHandle_loop_assertions (fuel : nat) (h : HandleStanza.t) (s : scanner)
    (h' : HandleStanza.t) (err : error) (s' : scanner) :
  Forall P (HandleStanza.Expectations h) ->
  parseHandle_loop fuel h s = Returns (h', err, s') ->
  Forall P (HandleStanza.Expectations h').
Proof.
  revert h s. induction fuel as [|fuel IH]; intros h s Hh; simpl; [discriminate|].
  destruct (ScanUseful s) as [t s1].
  destruct (is_typ t CLOSE_CURLY); [intros H; injection H as <- _ _; exact Hh|].
  destruct (is_typ t EXPECT).
  { destruct (Expect_Parse Expect_zero s1) as [[e [e1|]] s2] eqn:E.
    - intros H; injection H as <- _ _; exact Hh.
    - apply IH. simpl. apply Forall_app. split; [exact Hh|].
      constructor; [|constructor]. apply (parsed _ _ _ E). }
  destruct (is_typ t TX); [|apply IH; exact Hh].
  destruct (TxResp.Parse (S fuel) TxResp.zero s1) as [[[resp [e1|]] s2]| | |]; simpl;
    try discriminate.
  - intros H; injection H as <- _ _; exact Hh.
  - destruct (ScanUseful s2) as [t2 s3].
    destruct (negb (is_typ t2 CLOSE_CURLY)); intros H; injection H as <- _ _; exact Hh.
Qed.

Lemma parseClient_loop_assertions (fuel : nat) (c : ClientStanza.t) (s : scanner)
    (c' : ClientStanza.t) (err : error) (s' : scanner) :
  Forall P (ClientStanza.Expectations c) ->
  parseClient_loop fuel c s = Returns (c', err, s') ->
  Forall P (ClientStanza.Expectations c').
Proof.
  revert c s. induction fuel as [|fuel IH]; intros c s Hc; simpl; [discriminate|].
  destruct (ScanUseful s) as [t s1].
  destruct (is_typ t CLOSE_CURLY); [intros H; injection H as <- _ _; exact Hc|].
  destruct (is_typ t TX).
  { destruct (TxReq.Parse (S fuel) TxReq.zero s1) as [[[req [e1|]] s2]| | |]; simpl;
      try discriminate.
    - intros H; injection H as <- _ _; exact Hc.
    - apply IH; exact Hc. }
  destruct (is_typ t EXPECT); [|apply IH; exact Hc].
  destruct (Expect_Parse Expect_zero s1) as [[e [e1|]] s2] eqn:E.
  - intros H; injection H as <- _ _; exact Hc.
  - apply IH. simpl. apply Forall_app. split; [exact Hc|].
    constructor; [|constructor]. apply (parsed _ _ _ E).
Qed.

Lemma parseHandle_assertions (fuel : nat) (s : scanner)
    (h : HandleStanza.t) (err : error) (s' : scanner) :
  parseHandle fuel s = Returns (h, err, s') -> Forall P (HandleStanza.Expectations h).
Proof.
  unfold parseHandle. destruct (ScanUseful s) as [t s1].
  destruct (if negb (is_typ t STRING) then _ else _) as [[|]| | |]; simpl; try discriminate.
  - intros H; injection H as <- _ _; constructor.
  - unfold mbind; simpl. destruct (ScanUseful s1) as [t2 s2].
    destruct (negb (is_typ t2 OPEN_CURLY)).
    + intros H; injection H as <- _ _; constructor.
    + apply parseHandle_loop_assertions. constructor.
Qed.

Lemma parseClient_assertions (fuel : nat) (s : scanner)
    (c : ClientStanza.t) (err : error) (s' : scanner) :
  parseClient fuel s = Returns (c, err, s') -> Forall P (ClientStanza.Expectations c).
Proof.
  unfold parseClient. destruct (ScanUseful s) as [t s1].
  destruct (negb (is_typ t STRING)); [intros H; injection H as <- _ _; constructor|].
  destruct (ScanUseful s1) as [t2 s2].
  destruct (negb (is_typ t2 OPEN_CURLY)); [intros H; injection H as <- _ _; constructor|].
  apply parseClient_loop_assertions. constructor.
Qed.

Lemma Parse_loop_assertions (fuel : nat) (h : list HandleStanza.t)
    (c : list ClientStanza.t) (s : scanner)
    (h' : list HandleStanza.t) (c' : list ClientStanza.t) (err : error) :
  Forall (fun hs => Forall P (HandleStanza.Expectations hs)) h ->
  Forall (fun cs => Forall P (ClientStanza.Expectations cs)) c ->
  Parse_loop fuel h c s = Returns (h', c', err) ->
  Forall (fun hs => Forall P (HandleStanza.Expectations hs)) h' /\
  Forall (fun cs => Forall P (ClientStanza.Expectations cs)) c'.
Proof.
  revert h c s. induction fuel as [|fuel IH]; intros h c s Hh Hc; simpl; [discriminate|].
  destruct (ScanUseful s) as [t s1].
  destruct (is_typ t EOF).
  { destruct (_ && _); intros H; injection H as <- <- _; auto. }
  destruct (is_typ t ILLEGAL); [intros H; injection H as <- <- _; auto|].
  destruct (is_typ t HANDLE).
  { destruct (parseHandle (S fuel) s1) as [[[hs [e|]] s2]| | |] eqn:E; simpl;
      try discriminate.
    - intros H; injection H as <- <- _; auto.
    - apply IH; [|exact Hc]. apply Forall_app. split; [exact Hh|].
      constructor; [|constructor]. apply (parseHandle_assertions _ _ _ _ _ E). }
  destruct (is_typ t CLIENT); [|apply IH; assumption].
  destruct (parseClient (S fuel) s1) as [[[cs [e|]] s2]| | |] eqn:E; simpl;
    try discriminate.
  - intros H; injection H as <- <- _; auto.
  - apply IH; [exact Hh|]. apply Forall_app. split; [exact Hc|].
    constructor; [|constructor]. apply (parseClient_assertions _ _ _ _ _ E).
Qed.

End Assertions.

Lemma Expect_Parse_field_headerName (e : Expect) (t : token) (s : scanner)
    (e' : Expect) (s' : scanner) :
  Expect_Parse_field e t s = (e', None, s') ->
  operator e' = operator e /\
  (field e' = EXPECT_HEADERS \/ (field e' <> EXPECT_HEADERS /\ headerName e' = headerName e)).
Proof.
  unfold Expect_Parse_field.
  repeat (destruct (is_typ t _); [intros H; injection H as <- _; simpl; split;
                                  [reflexivity|right; split; [discriminate|reflexivity]]|]).
  destruct (is_typ t HEADERS); [|discriminate].
  destruct (ScanUseful s) as [t1 s1]. destruct (negb (is_typ t1 _)); [discriminate|].
  destruct (ScanUseful s1) as [t2 s2]. destruct (negb (is_typ t2 _)); [discriminate|].
  destruct (ScanUseful s2) as [t3 s3]. destruct (negb (is_typ t3 _)); [discriminate|].
  intros H; injection H as <- _. simpl. auto.
Qed.

Lemma Expect_Parse_well_formed (s : scanner) (e : Expect) (s' : scanner) :
  Expect_Parse Expect_zero s = (e, None, s') -> well_formed e = true.
Proof.
  unfold Expect_Parse.
  destruct (ScanUseful s) as [t1 s1].
  destruct (negb (is_typ t1 REQ) && negb (is_typ t1 RESP)); [discriminate|].
  destruct (ScanUseful s1) as [t2 s2].
  destruct (negb (is_typ t2 DOT)); [discriminate|].
  destruct (ScanUseful s2) as [t3 s3].
  destruct (Expect_Parse_field _ t3 s3) as [[e1 [err|]] s4] eqn:F; [discriminate|].
  apply Expect_Parse_field_headerName in F as [_ F]. simpl in F.
  destruct (ScanUseful s4) as [t4 s5].
  destruct (negb (is_typ t4 EQUAL) && negb (is_typ t4 NOTEQUAL) && negb (is_typ t4 TILDE)) eqn:K;
    [discriminate|].
  destruct (ScanUseful s5) as [t5 s6].
  destruct (negb (is_typ t5 STRING) && negb (is_typ t5 INTEGER)); [discriminate|].
  intros H. injection H as <- _. unfold well_formed. simpl.
  apply andb_true_intro. split.
  - unfold is_typ, tokenType_eqb in K. destruct (typ t4); try discriminate; reflexivity.
  - destruct F as [-> | [F ->]]; [reflexivity|]. destruct (field e1); try reflexivity; congruence.
Qed.

(** X10.  Every assertion of every stanza that [Parse] returns has one of
    the operators [eq], [ne] and [~], and has a header name only when its
    field is [headers]; so the evaluation of an assertion of a parsed
    program never panics on an unknown operator. *)
Theorem Parse_assertions_well_formed (fuel : nat) (text : string)
    (h : list HandleStanza.t) (c : list ClientStanza.t) (err : error) :
  Parse fuel text = Returns (h, c, err) ->
  Forall (fun hs => Forall (fun e => well_formed e = true) (HandleStanza.Expectations hs)) h /\
  Forall (fun cs => Forall (fun e => well_formed e = true) (ClientStanza.Expectations cs)) c /\
  forall e regexp_Match actual op,
    (exists hs, In hs h /\ In e (HandleStanza.Expectations hs)) \/
    (exists cs, In cs c /\ In e (ClientStanza.Expectations cs)) ->
    expectThing regexp_Match e actual <> Panics (UnknownOperator op).
Proof.
  intros H.
  destruct (Parse_loop_assertions (fun e => well_formed e = true)
              Expect_Parse_well_formed fuel [] [] (newScanner text) h c err) as [Hh Hc];
    [constructor|constructor|exact H|].
  split; [exact Hh|]. split; [exact Hc|].
  intros e rm actual op Hin.
  assert (well_formed e = true) as W.
  { destruct Hin as [(hs & I1 & I2)|(cs & I1 & I2)].
    - pose proof (proj1 (List.Forall_forall _ _) Hh hs I1) as K. simpl in K.
      apply (proj1 (List.Forall_forall _ _) K e I2).
    - pose proof (proj1 (List.Forall_forall _ _) Hc cs I1) as K. simpl in K.
      apply (proj1 (List.Forall_forall _ _) K e I2). }
  unfold well_formed in W. apply andb_prop in W as [W _].
  unfold expectThing. destruct (operator e); try discriminate;
    destruct (rm _ _) as [b [e1|]]; discriminate.
Qed.

(** The assertions of the handler of simple.htc. *)
Lemma Parse_assertions_well_formed_witness :
  Forall (fun hs => Forall (fun e => well_formed e = true) (HandleStanza.Expectations hs))
         [simple_htc_handler].
Proof.
  apply (Parse_assertions_well_formed 10 simple_htc _ [] (Some tx_meets_expect_error)).
  vm_compute. reflexivity.
Defined.
(** X11.  An assertion on a header is parsed and evaluated as written:
    for every header name and every value that string literals can hold,
    [req.headers["name"] eq "value"] is parsed without an error, and its
    verdict on a request is whether the value of that header of the
    request is exactly the value; on the response side likewise. *)
Theorem header_assertion_verdict (name value : string) :
  plain name = true -> plain value = true ->
  (exists e s, Expect_Parse Expect_zero
                 (newScanner ("req.headers[" +:+ quoted name +:+ "] eq " +:+ quoted value))
               = (e, None, s) /\
     forall regexp_Match req,
       Request regexp_Match e req
       = Returns (bool_decide (value = http.Header_Get req name))) /\
  (exists e s, Expect_Parse Expect_zero
                 (newScanner ("resp.headers[" +:+ quoted name +:+ "] eq " +:+ quoted value))
               = (e, None, s) /\
     forall regexp_Match resp,
       Response regexp_Match e resp
       = Returns (bool_decide (value = http.resp_Header_Get resp name))).
Proof.
  intros Hn Hv.
  assert (forall a b : string, String.eqb a b = bool_decide (a = b)) as D.
  { intros a b. destruct (String.eqb_spec a b).
    - rewrite bool_decide_eq_true_2; auto.
    - rewrite bool_decide_eq_false_2; auto. }
  split.
  - replace ("req.headers[" +:+ quoted name +:+ "] eq " +:+ quoted value)
      with ("req" +:+ "." +:+ "headers" +:+ "[" +:+ quoted name +:+ "]" +:+ " "
            +:+ "eq" +:+ " " +:+ quoted value +:+ "")
      by (rewrite append_nil_r; reflexivity).
    unfold Expect_Parse, Expect_Parse_field.
    read_tokens.
    eexists; eexists; split; [reflexivity|].
    intros rm req. unfold Request, ActualRequest, expectThing. simpl.
    unfold mbind; simpl. rewrite D. reflexivity.
  - replace ("resp.headers[" +:+ quoted name +:+ "] eq " +:+ quoted value)
      with ("resp" +:+ "." +:+ "headers" +:+ "[" +:+ quoted name +:+ "]" +:+ " "
            +:+ "eq" +:+ " " +:+ quoted value +:+ "")
      by (rewrite append_nil_r; reflexivity).
    unfold Expect_Parse, Expect_Parse_field.
    read_tokens.
    eexists; eexists; split; [reflexivity|].
    intros rm resp. unfold Response, ActualResponse, expectThing. simpl.
    unfold mbind; simpl. rewrite D. reflexivity.
Qed.

(** The assertion [req.headers["Server"] eq "ATS"]. *)
Lemma header_assertion_verdict_witness :
  exists e s, Expect_Parse Expect_zero
                (newScanner ("req.headers[" +:+ quoted "Server" +:+ "] eq " +:+ quoted "ATS"))
              = (e, None, s) /\
    forall regexp_Match req,
      Request regexp_Match e req
      = Returns (bool_decide ("ATS" = http.Header_Get req "Server")).
Proof. apply (proj1 (header_assertion_verdict "Server" "ATS" eq_refl eq_refl)). Defined.

(** ** Flags of the [tx] commands *)

Lemma plain_app (a b : string) :
  plain a = true -> plain b = true -> plain (a +:+ b) = true.
Proof.
  induction a as [|ch a IH]; [auto|]. rewrite append_cons. simpl.
  intros H Hb. apply andb_prop in H as [H Ha]. rewrite H. simpl. auto.
Qed.

(** X12.  A header flag stores its argument split at the first colon:
    for every name without a colon and every value, [-header "name:value"]
    gives the name the value, which is all the text after the colon, and a
    response or a request parsed from that flag alone holds this one
    header. *)
Theorem header_flag_splits_at_first_colon (name value : string) :
  plain name = true -> plain value = true -> strings.cut_colon name = None ->
  (forall fuel r,
     TxResp.Parse (S (S fuel)) r
       (newScanner (" -header " +:+ quoted (name +:+ ":" +:+ value)))
     = Returns (TxResp.mk 200 {[ name := value ]} (TxResp.body r), None,
                mkScanner "" None)) /\
  (forall fuel r,
     TxReq.Parse (S (S fuel)) r
       (newScanner (" -header " +:+ quoted (name +:+ ":" +:+ value)))
     = Returns (TxReq.mk (TxReq.uri r) "GET" {[ name := value ]} (TxReq.body r), None,
                mkScanner "" None)).
Proof.
  intros Hn Hv Hc.
  assert (plain (name +:+ ":" +:+ value) = true) as Hp
    by (apply plain_app; [exact Hn|exact Hv]).
  assert (strings.SplitN_colon_2 (name +:+ ":" +:+ value) = [name; value]) as Hs.
  { unfold strings.SplitN_colon_2. rewrite (cut_colon_app _ _ Hc). reflexivity. }
  split; intros fuel r.
  - unfold TxResp.Parse.
    replace (" -header " +:+ quoted (name +:+ ":" +:+ value))
      with (" " +:+ "-header" +:+ " " +:+ quoted (name +:+ ":" +:+ value) +:+ "")
      by (rewrite append_nil_r; reflexivity).
    cbn [TxResp.Parse_loop]. read_tokens. rewrite Hs. read_tokens. reflexivity.
  - unfold TxReq.Parse.
    replace (" -header " +:+ quoted (name +:+ ":" +:+ value))
      with (" " +:+ "-header" +:+ " " +:+ quoted (name +:+ ":" +:+ value) +:+ "")
      by (rewrite append_nil_r; reflexivity).
    cbn [TxReq.Parse_loop]. read_tokens. rewrite Hs. read_tokens. reflexivity.
Qed.

(** The flag [-header "Cache-Control: s-maxage=120"]. *)
Lemma header_flag_splits_at_first_colon_witness :
  TxResp.Parse 2 TxResp.zero
    (newScanner (" -header " +:+ quoted ("Cache-Control" +:+ ":" +:+ " s-maxage=120")))
  = Returns (TxResp.mk 200 {[ "Cache-Control" := " s-maxage=120" ]} "", None,
             mkScanner "" None).
Proof.
  apply (proj1 (header_flag_splits_at_first_colon "Cache-Control" " s-maxage=120"
                  eq_refl eq_refl eq_refl) 0 TxResp.zero).
Defined.

(** X13.  A header flag whose argument has no colon is a parse error of
    the [tx] command, for a response and for a request: the error is the
    one that expects a header and names the string, and nothing is read
    after the argument. *)
Theorem header_flag_without_colon (arg rest : string) :
  plain arg = true -> strings.cut_colon arg = None ->
  (forall fuel r,
     TxResp.Parse (S fuel) r (newScanner (" -header " +:+ quoted arg +:+ rest))
     = Returns (TxResp.mk 200 ∅ (TxResp.body r),
                fmt.Errorf "Parse error in 'tx' command: expecting a header, got %q"
                           (newToken STRING arg),
                mkScanner rest (Some Rune.dquote))) /\
  (forall fuel r,
     TxReq.Parse (S fuel) r (newScanner (" -header " +:+ quoted arg +:+ rest))
     = Returns (TxReq.mk (TxReq.uri r) "GET" ∅ (TxReq.body r),
                fmt.Errorf "Parse error in 'tx' command: expecting a header, got %q"
                           (newToken STRING arg),
                mkScanner rest (Some Rune.dquote))).
Proof.
  intros Hp Hc.
  assert (strings.SplitN_colon_2 arg = [arg]) as Hs
    by (unfold strings.SplitN_colon_2; rewrite Hc; reflexivity).
  split; intros fuel r.
  - unfold TxResp.Parse.
    change (" -header " +:+ quoted arg +:+ rest)
      with (" " +:+ "-header" +:+ " " +:+ quoted arg +:+ rest).
    cbn [TxResp.Parse_loop]. read_tokens. rewrite Hs. reflexivity.
  - unfold TxReq.Parse.
    change (" -header " +:+ quoted arg +:+ rest)
      with (" " +:+ "-header" +:+ " " +:+ quoted arg +:+ rest).
    cbn [TxReq.Parse_loop]. read_tokens. rewrite Hs. reflexivity.
Qed.

(** The flag [-header "X-HTC-Origin"] before a closing brace. *)
Lemma header_flag_without_colon_witness :
  TxResp.Parse 1 TxResp.zero (newScanner (" -header " +:+ quoted "X-HTC-Origin" +:+ " }"))
  = Returns (TxResp.mk 200 ∅ "",
             fmt.Errorf "Parse error in 'tx' command: expecting a header, got %q"
                        (newToken STRING "X-HTC-Origin"),
             mkScanner " }" (Some Rune.dquote)).
Proof.
  apply (proj1 (header_flag_without_colon "X-HTC-Origin" " }" eq_refl eq_refl) 0 TxResp.zero).
Defined.

(** X14.  The status of a response is not checked: for every identifier
    that [strconv.Atoi] accepts, negative numbers and numbers that are no
    HTTP status included, [-status] stores its value as the status code. *)
Theorem status_flag_takes_any_integer (w : string) :
  w <> "" -> all_ident w = true -> snd (strconv.Atoi w) = None ->
  forall fuel r,
    TxResp.Parse (S (S fuel)) r (newScanner (" -status " +:+ w))
    = Returns (TxResp.mk (fst (strconv.Atoi w)) ∅ (TxResp.body r), None,
               mkScanner "" None).
Proof.
  intros Hne Hw Ha fuel r.
  assert (classify w = newToken INTEGER w) as Hc.
  { apply classify_INTEGER in Ha.
    assert (val (classify w) = w) as V by (unfold classify; repeat case_match; reflexivity).
    destruct (classify w) as [ty v]. simpl in *. subst. reflexivity. }
  unfold TxResp.Parse.
  replace (" -status " +:+ w) with (" " +:+ "-status" +:+ " " +:+ w +:+ "")
    by (rewrite append_nil_r; reflexivity).
  cbn [TxResp.Parse_loop]. read_tokens. rewrite Hc. read_tokens. reflexivity.
Qed.

(** The flag [-status -5]. *)
Lemma status_flag_takes_any_integer_witness :
  TxResp.Parse 2 TxResp.zero (newScanner (" -status " +:+ "-5"))
  = Returns (TxResp.mk (-5) ∅ "", None, mkScanner "" None).
Proof.
  apply (status_flag_takes_any_integer "-5" ltac:(discriminate) eq_refl eq_refl 0 TxResp.zero).
Defined.

(** X15.  The flags of one [tx] command are errors of the other: a
    response does not take [-method] nor [-url], and a request does not
    take [-status]; the parse error names the flag. *)
Theorem tx_flags_of_the_other_command (rest : string) :
  stops_ident rest = true ->
  (forall fuel r,
     TxResp.Parse (S fuel) r (newScanner (" -method" +:+ rest))
     = Returns (TxResp.mk 200 ∅ (TxResp.body r),
                fmt.Errorf "Parse error in 'tx' command: expecting -body, -header, or -status, got %q"
                           (newToken METHOD_ARG "-method"),
                mkScanner rest None)) /\
  (forall fuel r,
     TxResp.Parse (S fuel) r (newScanner (" -url" +:+ rest))
     = Returns (TxResp.mk 200 ∅ (TxResp.body r),
                fmt.Errorf "Parse error in 'tx' command: expecting -body, -header, or -status, got %q"
                           (newToken URL_ARG "-url"),
                mkScanner rest None)) /\
  (forall fuel r,
     TxReq.Parse (S fuel) r (newScanner (" -status" +:+ rest))
     = Returns (TxReq.mk (TxReq.uri r) "GET" ∅ (TxReq.body r),
                fmt.Errorf "Parse error in 'tx' command: expecting -url, -header, method, or -body, got %q"
                           (newToken STATUS_ARG "-status"),
                mkScanner rest None)).
Proof.
  intros Hr. repeat split; intros fuel r.
  - unfold TxResp.Parse. change (" -method" +:+ rest) with (" " +:+ "-method" +:+ rest).
    cbn [TxResp.Parse_loop]. unfold newScanner.
    rewrite ScanUseful_space by reflexivity. unfold newScanner.
    rewrite ScanUseful_ident by (assumption || reflexivity || discriminate). reflexivity.
  - unfold TxResp.Parse. change (" -url" +:+ rest) with (" " +:+ "-url" +:+ rest).
    cbn [TxResp.Parse_loop]. unfold newScanner.
    rewrite ScanUseful_space by reflexivity. unfold newScanner.
    rewrite ScanUseful_ident by (assumption || reflexivity || discriminate). reflexivity.
  - unfold TxReq.Parse. change (" -status" +:+ rest) with (" " +:+ "-status" +:+ rest).
    cbn [TxReq.Parse_loop]. unfold newScanner.
    rewrite ScanUseful_space by reflexivity. unfold newScanner.
    rewrite ScanUseful_ident by (assumption || reflexivity || discriminate). reflexivity.
Qed.

(** The flags before a space. *)
Lemma tx_flags_of_the_other_command_witness :
  TxReq.Parse 1 TxReq.zero (newScanner (" -status" +:+ " 200"))
  = Returns (TxReq.mk "" "GET" ∅ "",
             fmt.Errorf "Parse error in 'tx' command: expecting -url, -header, method, or -body, got %q"
                        (newToken STATUS_ARG "-status"),
             mkScanner " 200" None).
Proof.
  apply (proj2 (proj2 (tx_flags_of_the_other_command " 200" eq_refl)) 0 TxReq.zero).
Defined.

(** ** The client stanza after [tx] *)

Lemma scanWhitespace_loop_no_nul (text : string) :
  no_nul text = true -> no_nul (pending (scanWhitespace_loop text)) = true.
Proof.
  induction text as [|ch text IH]; simpl; [auto|]. intros H.
  apply andb_prop in H as [Hz Ht]. apply negb_true_iff in Hz. rewrite Hz.
  destruct (Rune.isWhitespace ch); simpl; [auto|]. rewrite Hz. exact Ht.
Qed.

Lemma scanIdent_loop_no_nul (text buf : string) :
  no_nul text = true -> no_nul (pending (snd (scanIdent_loop text buf))) = true.
Proof.
  revert buf. induction text as [|ch text IH]; intros buf; simpl; [auto|]. intros H.
  apply andb_prop in H as [Hz Ht]. apply negb_true_iff in Hz. rewrite Hz.
  destruct (Rune.isIdent ch); simpl; [auto|]. rewrite Hz. exact Ht.
Qed.

Lemma scanQuotedString_loop_no_nul (text buf : string) :
  no_nul text = true -> no_nul (pending (snd (scanQuotedString_loop text buf))) = true.
Proof.
  revert buf. induction text as [|ch text IH]; intros buf; simpl; [auto|]. intros H.
  apply andb_prop in H as [Hz Ht]. apply negb_true_iff in Hz. rewrite Hz.
  destruct (Rune.eqr ch Rune.dquote); simpl; auto.
Qed.

Lemma scanComment_loop_no_nul (text : string) :
  no_nul text = true ->
  match scanComment_loop text with
  | inl s => no_nul (pending s) = true
  | inr s => pending s = ""
  end.
Proof.
  induction text as [|ch text IH]; simpl; [auto|]. intros H.
  apply andb_prop in H as [Hz Ht]. apply negb_true_iff in Hz. rewrite Hz.
  destruct (Rune.eqr ch Rune.newline); simpl; [exact Ht|apply IH; exact Ht].
Qed.

(** In a text without the rune 0, [scan] leaves a text without it, and
    returns the end of input only when the text is read to its end. *)
Lemma scan_no_nul (s : scanner) :
  no_nul (pending s) = true ->
  no_nul (pending (snd (scan s))) = true /\
  (typ (fst (scan s)) = EOF -> pending (snd (scan s)) = "").
Proof.
  unfold scan, read. destruct s as [text l]; simpl.
  destruct text as [|ch text]; simpl; [auto|]. intros H.
  apply andb_prop in H as [Hz Ht]. apply negb_true_iff in Hz.
  destruct (Rune.isWhitespace ch) eqn:W.
  { unfold unread; simpl. rewrite Hz, W. simpl. split; [|discriminate].
    apply scanWhitespace_loop_no_nul. exact Ht. }
  destruct (Rune.isIdent ch) eqn:I.
  { unfold unread, scanIdent, read; simpl.
    pose proof (scanIdent_loop_no_nul text (Rune.to_string ch) Ht) as K.
    destruct (scanIdent_loop text _) as [w s2]; simpl in *. split; [exact K|].
    intros E. pose proof (classify_ident_kind w) as C. rewrite E in C. discriminate. }
  destruct (Rune.eqr ch Rune.dquote).
  { unfold scanQuotedString; simpl.
    pose proof (scanQuotedString_loop_no_nul text "" Ht) as K.
    destruct (scanQuotedString_loop text _) as [w s2]; simpl in *. split; [exact K|].
    discriminate. }
  destruct (Rune.eqr ch "#").
  { pose proof (scanComment_loop_no_nul text Ht) as K.
    destruct (scanComment_loop text) as [s2|s2]; simpl; [split; [exact K|discriminate]|].
    rewrite K. auto. }
  simpl. split; [exact Ht|]. unfold scanChar. rewrite Hz.
  repeat case_match; discriminate.
Qed.

Lemma ScanUseful_loop_no_nul (n : nat) (s : scanner) :
  no_nul (pending s) = true ->
  no_nul (pending (snd (ScanUseful_loop n s))) = true /\
  (typ (fst (ScanUseful_loop n s)) = EOF -> pending (snd (ScanUseful_loop n s)) = "").
Proof.
  revert s. induction n as [|n IH]; intros s H; simpl;
    pose proof (scan_no_nul s H) as K; destruct (scan s) as [t s1]; simpl in K;
    destruct (skipped (typ t)); simpl; auto.
  apply IH. apply K.
Qed.

Lemma ScanUseful_no_nul (s : scanner) :
  no_nul (pending s) = true ->
  no_nul (pending (snd (ScanUseful s))) = true /\
  (typ (fst (ScanUseful s)) = EOF -> pending (snd (ScanUseful s)) = "").
Proof. apply ScanUseful_loop_no_nul. Qed.

Ltac flag_argument_no_nul IH s1 :=
  let t2 := fresh "t2" in let s3 := fresh "s3" in let N := fresh "N" in
  pose proof (ScanUseful_no_nul s1) as N;
  destruct (ScanUseful s1) as [t2 s3]; simpl in N;
  destruct (negb (is_typ t2 _)); [discriminate|].

(** The flag loop of a request, in a text without the rune 0: the token
    that ended it is a closing brace, or the end of a text that is read to
    its end. *)
Lemma TxReq_Parse_loop_stops_no_nul (fuel : nat) (r : TxReq.t) (s : scanner)
    (r' : TxReq.t) (s' : scanner) :
  no_nul (pending s) = true ->
  TxReq.Parse_loop fuel r s = Returns (r', None, s') ->
  exists t s2, ScanUseful s' = (t, s2) /\
    (typ t = CLOSE_CURLY \/ (typ t = EOF /\ pending s2 = "")).
Proof.
  revert r s. induction fuel as [|fuel IH]; intros r s Hs; simpl; [discriminate|].
  pose proof (ScanUseful_no_nul s Hs) as [N Z].
  pose proof (ScanUseful_not_NEWLINE s) as NL.
  destruct (ScanUseful s) as [t s1] eqn:E. simpl in *.
  destruct (is_typ t EOF || is_typ t CLOSE_CURLY || is_typ t NEWLINE) eqn:T.
  { intros H. injection H as <- <-. exists t, s1.
    apply terminator_kind in T; [|exact NL].
    split.
    - apply (ScanUseful_unread_single_rune s); [exact E|].
      destruct T as [-> | ->]; reflexivity.
    - destruct T as [T|T]; auto. }
  destruct (is_typ t BODY_ARG); [flag_argument_no_nul IH s1; apply IH; apply N0; exact N|].
  destruct (is_typ t HEADER_ARG).
  { flag_argument_no_nul IH s1.
    destruct (strings.SplitN_colon_2 _) as [|? [|? [|]]]; try discriminate.
    apply IH; apply N0; exact N. }
  destruct (is_typ t METHOD_ARG); [flag_argument_no_nul IH s1; apply IH; apply N0; exact N|].
  destruct (is_typ t URL_ARG); [flag_argument_no_nul IH s1; apply IH; apply N0; exact N|].
  discriminate.
Qed.

(** X16.  In a client stanza, nothing but the closing brace can follow a
    [tx] command.  In a text without the rune 0, when the loop of
    [parseClient] reads a [tx] token and returns without an error, then
    [TxReq.Parse] has returned a request without an error on the text after
    the [tx], the token after that command is the closing brace, the loop
    has returned there, and the stanza it returns is the one it had with
    that request: no assertion was added after the [tx].  (An [expect] on
    the line after [tx] is a parse error, and a [tx] at the end of the text
    makes the loop spin.) *)
Theorem client_tx_is_last (fuel : nat) (c : ClientStanza.t) (s : scanner)
    (c' : ClientStanza.t) (s' : scanner) :
  no_nul (pending s) = true ->
  typ (fst (ScanUseful s)) = TX ->
  parseClient_loop fuel c s = Returns (c', None, s') ->
  exists req s1,
    TxReq.Parse fuel TxReq.zero (snd (ScanUseful s)) = Returns (req, None, s1) /\
    c' = ClientStanza.set_Request c req /\
    ClientStanza.Expectations c' = ClientStanza.Expectations c /\
    typ (fst (ScanUseful s1)) = CLOSE_CURLY /\ snd (ScanUseful s1) = s'.
Proof.
  intros Hs Ht. destruct fuel as [|fuel]; simpl; [discriminate|].
  pose proof (ScanUseful_no_nul s Hs) as [N _].
  destruct (ScanUseful s) as [t s1]. simpl in *.
  unfold is_typ, tokenType_eqb. rewrite Ht. simpl.
  destruct (TxReq.Parse (S fuel) TxReq.zero s1) as [[[req [e|]] s2]| | |] eqn:E; simpl;
    try discriminate.
  pose proof E as E0.
  apply TxReq_Parse_loop_stops_no_nul in E as (t2 & s3 & E & K); [|exact N].
  destruct fuel as [|fuel]; [discriminate|]. cbn [parseClient_loop]. rewrite E.
  destruct K as [K|[K Z]]; unfold is_typ, tokenType_eqb; rewrite K; simpl.
  - intros H. injection H as <- <-. exists req, s2. rewrite E. simpl.
    repeat split; try reflexivity. exact K.
  - rewrite parseClient_loop_spins_at_end by exact Z. discriminate.
Qed.

(** The stanza body [tx -url "/" }]. *)
Lemma client_tx_is_last_witness :
  exists req s1,
    TxReq.Parse 3 TxReq.zero (snd (ScanUseful (newScanner (" tx -url " +:+ quoted "/" +:+ " }"))))
    = Returns (req, None, s1) /\
    ClientStanza.set_Request ClientStanza.zero (TxReq.mk "/" "GET" ∅ "")
    = ClientStanza.set_Request ClientStanza.zero req /\
    ClientStanza.Expectations
      (ClientStanza.set_Request ClientStanza.zero (TxReq.mk "/" "GET" ∅ ""))
    = ClientStanza.Expectations ClientStanza.zero /\
    typ (fst (ScanUseful s1)) = CLOSE_CURLY /\
    snd (ScanUseful s1) = mkScanner "" (Some "}"%char).
Proof.
  apply (client_tx_is_last 3 ClientStanza.zero
           (newScanner (" tx -url " +:+ quoted "/" +:+ " }")) _
           (mkScanner "" (Some "}"%char)));
    vm_compute; reflexivity.
Defined.

(** ** The first token of a text *)

Lemma Parse_loop_last (fuel : nat) (h : list HandleStanza.t) (c : list ClientStanza.t)
    (text : string) (l l' : option ascii) :
  Parse_loop fuel h c (mkScanner text l) = Parse_loop fuel h c (mkScanner text l').
Proof. destruct fuel as [|fuel]; simpl; [reflexivity|]. rewrite (ScanUseful_last text l l'). reflexivity. Qed.

(** X17.  [Parse] skips a punctuation mark that is outside a stanza
    without an error: a text that starts with one of [. [ ] { } ~] is
    parsed as the text after the mark is. *)
Theorem Parse_skips_stray_punctuation (fuel : nat) (ch : ascii) (text : string) :
  is_punct ch = true ->
  Parse (S fuel) (String ch text) = Parse fuel text.
Proof.
  intros H. unfold Parse, newScanner. cbn [Parse_loop].
  change (String ch text) with (String ch "" +:+ text).
  rewrite ScanUseful_punct by exact H.
  rewrite (Parse_loop_last fuel [] [] text (Some ch) None).
  destruct ch as [[] [] [] [] [] [] [] []]; try discriminate H; reflexivity.
Qed.

(** A closing brace before the stanza [handle "/p" { tx }]. *)
Lemma Parse_skips_stray_punctuation_witness :
  Parse 6 (String "}" handle_with_bare_tx) = Parse 5 handle_with_bare_tx.
Proof. apply (Parse_skips_stray_punctuation 5 "}" handle_with_bare_tx). reflexivity. Defined.

(** X18.  At the start of a text, a rune that starts no token and an
    identifier that is neither a keyword nor an integer (a keyword in
    capitals, for one) end the parse with the error that prints the ILLEGAL
    token: [Parse] returns no stanza. *)
Theorem Parse_stops_at_illegal_token (fuel : nat) :
  (forall ch rest, illegal_rune ch = true ->
     Parse (S fuel) (String ch rest)
     = Returns ([], [], fmt.Errorf "Parse error: %s" (newToken ILLEGAL (Rune.to_string ch)))) /\
  (forall w rest, w <> "" -> all_ident w = true -> stops_ident rest = true ->
     typ (classify w) = ILLEGAL ->
     Parse (S fuel) (w +:+ rest)
     = Returns ([], [], fmt.Errorf "Parse error: %s" (newToken ILLEGAL w))).
Proof.
  split.
  - intros ch rest H. unfold illegal_rune in H.
    repeat (apply andb_prop in H as [H ?]).
    repeat match goal with K : negb _ = true |- _ => apply negb_true_iff in K end.
    unfold Parse, newScanner. cbn [Parse_loop]. rewrite ScanUseful_unfold.
    unfold scan, read. simpl.
    repeat match goal with K : _ = false |- _ => rewrite K end. simpl.
    assert (scanChar ch = newToken ILLEGAL (Rune.to_string ch)) as ->.
    { unfold scanChar. unfold is_punct in *.
      repeat match goal with
      | K : _ || _ = false |- _ => apply orb_false_elim in K as [K ?]
      end.
      repeat match goal with K : _ = false |- _ => rewrite K end. reflexivity. }
    reflexivity.
  - intros w rest Hne Hw Hr Hc.
    assert (classify w = newToken ILLEGAL w) as E.
    { assert (val (classify w) = w) as V by (unfold classify; repeat case_match; reflexivity).
      destruct (classify w) as [ty v]. simpl in *. subst. reflexivity. }
    unfold Parse, newScanner. cbn [Parse_loop].
    rewrite ScanUseful_ident by assumption. rewrite E. reflexivity.
Qed.

(** The rune [$], and the keyword [handle] with a capital. *)
Lemma Parse_stops_at_illegal_token_witness :
  Parse 1 (String "$" "x")
    = Returns ([], [], fmt.Errorf "Parse error: %s" (newToken ILLEGAL (Rune.to_string "$"))) /\
  Parse 1 ("Handle" +:+ " {")
    = Returns ([], [], fmt.Errorf "Parse error: %s" (newToken ILLEGAL "Handle")).
Proof.
  split.
  - apply (proj1 (Parse_stops_at_illegal_token 0)). reflexivity.
  - apply (proj2 (Parse_stops_at_illegal_token 0));
      [discriminate|reflexivity|reflexivity|reflexivity].
Defined.

(** X19.  The rune 0 is taken for the end of the text where a token
    starts: [scan] returns the EOF token on it though text remains, and
    [Parse] on a text that starts with it returns the error that asks for a
    stanza, whatever follows.  After whitespace it is dropped instead: the
    loop of [scanWhitespace] takes it for the end of the text, and the scan
    goes on with the text after it. *)
Theorem rune_0_in_a_text (rest : string) (l : option ascii) :
  scan (mkScanner (String Rune.eof rest) l)
    = (newToken EOF "", mkScanner rest (Some Rune.eof)) /\
  (forall fuel,
     Parse (S fuel) (String Rune.eof rest) = Returns ([], [], Some no_stanza_error)) /\
  (forall ch, Rune.isWhitespace ch = true ->
     ScanUseful (mkScanner (String ch (String Rune.eof rest)) l)
     = ScanUseful (newScanner rest)).
Proof.
  split; [reflexivity|]. split; [reflexivity|].
  intros ch W. rewrite ScanUseful_unfold. unfold scan, read. simpl. rewrite W.
  unfold unread. simpl. rewrite (isWhitespace_not_eof _ W), W. simpl.
  apply ScanUseful_last.
Qed.

(** A rune 0 after a space, before the keyword [handle]. *)
Lemma rune_0_in_a_text_witness :
  ScanUseful (mkScanner (String " " (String Rune.eof "handle")) None)
  = ScanUseful (newScanner "handle").
Proof. apply (proj2 (proj2 (rune_0_in_a_text "handle" None))). reflexivity. Defined.

(** ** Bodies that are read once, and the loops over the assertions *)

Lemma plain_comparison_Request (rm : string -> string -> bool * error)
    (e : Expect) (req : http.Request) :
  plain_comparison e = true ->
  Request_shared rm e req
    = Returns (returned true (Request rm e req), req) /\
  ActualRequest_shared e req = Returns (returned "" (ActualRequest e req), req).
Proof.
  unfold plain_comparison, Request_shared, ActualRequest_shared, Request, ActualRequest,
    expectThing.
  destruct (field e); try discriminate; destruct (operator e); try discriminate;
    intros _; split; reflexivity.
Qed.

(** X20.  The handler reports every assertion that fails and goes on.
    On assertions that compare a method or a header with [eq] or [ne], the
    handler adds to the errors of the origin, in the order of the stanza,
    one FAILED message for each assertion whose verdict is false, with the
    assertion as it was written and the actual value, and the request is
    as it was. *)
Theorem handler_reports_every_failure (rm : string -> string -> bool * error)
    (exps : list Expect) (errors : list string) (req : http.Request) :
  Forall (fun e => plain_comparison e = true) exps ->
  handler_loop rm exps errors req
  = Returns (errors ++
             map (fun e => FAILED e (returned "" (ActualRequest e req)))
                 (List.filter (fun e => negb (returned true (Request rm e req))) exps),
             req).
Proof.
  revert errors. induction exps as [|e exps IH]; intros errors H; simpl.
  { rewrite app_nil_r. reflexivity. }
  inversion H as [|? ? He Hrest]; subst.
  destruct (plain_comparison_Request rm e req He) as [E1 E2].
  rewrite E1. simpl.
  destruct (returned true (Request rm e req)); simpl.
  - apply IH. exact Hrest.
  - rewrite E2. simpl. rewrite IH by exact Hrest.
    rewrite <- app_assoc. reflexivity.
Qed.

(** The assertion [req.method eq "POST"] of the README on a GET request:
    the message is the one that the README shows. *)
Lemma handler_reports_every_failure_witness :
  handler_loop regexp.Match [expect_POST] [] get_request
  = Returns (["FAILED: " +:+ quoted ("req.method eq \" +:+ quoted "POST\")
              +:+ " (actual=" +:+ quoted "GET" +:+ ")"], get_request).
Proof.
  apply (handler_reports_every_failure regexp.Match [expect_POST] [] get_request).
  repeat constructor.
Defined.

Lemma plain_response_comparison_Response (rm : string -> string -> bool * error)
    (e : Expect) (resp : http.Response) :
  plain_response_comparison e = true ->
  Response_shared rm e resp
    = Returns (returned true (Response rm e resp), resp) /\
  ActualResponse_shared e resp = Returns (returned "" (ActualResponse e resp), resp).
Proof.
  unfold plain_response_comparison, Response_shared, ActualResponse_shared, Response,
    ActualResponse, expectThing.
  destruct (field e); try discriminate; destruct (operator e); try discriminate;
    intros _; split; reflexivity.
Qed.

(** X21.  The loop of [main] stops at the first assertion that fails.  On
    assertions that compare a status or a header with [eq] or [ne], the
    loop ends the process with the FAILED message of the first assertion
    of the stanza whose verdict is false, and the assertions after it are
    not evaluated; when no verdict is false the loop ends and the response
    is as it was. *)
Theorem client_stops_at_first_failure (rm : string -> string -> bool * error)
    (exps : list Expect) (resp : http.Response) :
  Forall (fun e => plain_response_comparison e = true) exps ->
  client_loop rm exps resp
  = match List.find (fun e => negb (returned true (Response rm e resp))) exps with
    | Some e => Fatal (FAILED e (returned "" (ActualResponse e resp)))
    | None => Returns resp
    end.
Proof.
  induction exps as [|e exps IH]; intros H; simpl.
  { reflexivity. }
  inversion H as [|? ? He Hrest]; subst.
  destruct (plain_response_comparison_Response rm e resp He) as [E1 E2].
  rewrite E1. simpl.
  destruct (returned true (Response rm e resp)); simpl.
  - apply IH. exact Hrest.
  - rewrite E2. reflexivity.
Qed.

(** A response with status 503 against the assertions of the statuses 200
    and 404: only the first one is reported. *)
Lemma client_stops_at_first_failure_witness :
  client_loop regexp.Match [expect_status "200"; expect_status "404"]
              (response_with 503 "")
  = Fatal ("FAILED: " +:+ quoted ("resp.status eq \" +:+ quoted "200\")
           +:+ " (actual=" +:+ quoted "503" +:+ ")").
Proof.
  apply (client_stops_at_first_failure regexp.Match
           [expect_status "200"; expect_status "404"] (response_with 503 "")).
  repeat constructor.
Defined.

(** X22.  A body is read once.  After the evaluation of an assertion on
    the body of a request has returned, every later assertion on the body
    of that request is evaluated against the empty string, whatever the
    body was; and so is every later assertion on the body of a response. *)
Theorem body_is_read_once (rm : string -> string -> bool * error)
    (e e' : Expect) :
  field e = EXPECT_BODY -> field e' = EXPECT_BODY ->
  (forall req verdict req',
     Request_shared rm e req = Returns (verdict, req') ->
     Request_shared rm e' req'
     = (verdict' ← expectThing rm e' ""; Returns (verdict', req'))) /\
  (forall resp verdict resp',
     Response_shared rm e resp = Returns (verdict, resp') ->
     Response_shared rm e' resp'
     = (verdict' ← expectThing rm e' ""; Returns (verdict', resp'))).
Proof.
  intros He He'. split.
  - intros req verdict req'.
    unfold Request_shared, ActualRequest_shared. rewrite He, He'.
    destruct req as [m h b]; simpl.
    destruct b as [|data|err]; simpl; try discriminate;
      destruct (expectThing rm e _); simpl; try discriminate;
      intros E; injection E as _ <-; simpl; reflexivity.
  - intros resp verdict resp'.
    unfold Response_shared, ActualResponse_shared. rewrite He, He'.
    destruct resp as [c h b]; simpl.
    destruct b as [|data|err]; simpl; try discriminate;
      destruct (expectThing rm e _); simpl; try discriminate;
      intros E; injection E as _ <-; simpl; reflexivity.
Qed.

(** The body [hello] asserted twice: the second assertion fails. *)
Lemma body_is_read_once_witness :
  Request_shared regexp.Match (expect_body "hello") (post_request "hello")
    = Returns (true, drain_Request (post_request "hello")) /\
  Request_shared regexp.Match (expect_body "hello") (drain_Request (post_request "hello"))
    = Returns (false, drain_Request (post_request "hello")).
Proof.
  split; [reflexivity|].
  apply (proj1 (body_is_read_once regexp.Match (expect_body "hello") (expect_body "hello")
                  eq_refl eq_refl)
           (post_request "hello") true (drain_Request (post_request "hello"))).
  reflexivity.
Defined.

(** X3.  The FAILED message of an [eq] assertion on a body does not
    show the body.  An [eq] assertion on a body that differs from the
    expected string fails, and the message is built from a second read of
    the body, which gives the empty string: the handler, on that
    assertion, records [actual=""], and the loop of [main] ends the
    process with [actual=""]. *)
Theorem failed_body_assertion_shows_no_body (rm : string -> string -> bool * error)
    (e : Expect) (data : string) :
  field e = EXPECT_BODY -> operator e = EQUAL -> expected e <> data ->
  (forall errors req,
     http.Body req = http.Reads data ->
     handler_loop rm [e] errors req
     = Returns (errors ++ [FAILED e ""], drain_Request req)) /\
  (forall resp,
     http.resp_Body resp = http.Reads data ->
     client_loop rm [e] resp = Fatal (FAILED e "")).
Proof.
  intros Hf Ho Hne.
  assert (Hcmp : String.eqb (expected e) data = false)
    by (apply String.eqb_neq; exact Hne).
  split.
  - intros errors req Hb. destruct req as [m h b]; simpl in Hb; subst b.
    unfold handler_loop, Request_shared, ActualRequest_shared, expectThing.
    rewrite Hf, Ho. simpl. rewrite Hcmp. simpl. reflexivity.
  - intros resp Hb. destruct resp as [c h b]; simpl in Hb; subst b.
    unfold client_loop, Response_shared, ActualResponse_shared, expectThing.
    rewrite Hf, Ho. simpl. rewrite Hcmp. simpl. reflexivity.
Qed.

(** The body [hello] where [bye] is expected. *)
Lemma failed_body_assertion_shows_no_body_witness :
  handler_loop regexp.Match [expect_body "bye"] [] (post_request "hello")
  = Returns (["FAILED: " +:+ quoted ("req.body eq \" +:+ quoted "bye\")
              +:+ " (actual=" +:+ quoted "" +:+ ")"],
             drain_Request (post_request "hello")).
Proof.
  apply (proj1 (failed_body_assertion_shows_no_body regexp.Match (expect_body "bye") "hello"
                  eq_refl eq_refl ltac:(discriminate))
           [] (post_request "hello") eq_refl).
Defined.

(** ** Assertions that the parser accepts *)

Lemma classify_integer (w : string) :
  snd (strconv.Atoi w) = None -> classify w = newToken INTEGER w.
Proof.
  intros H. unfold classify.
  repeat match goal with
  | |- context [String.eqb w ?k] =>
      destruct (String.eqb_spec w k) as [->|_]; [vm_compute in H; discriminate H|]
  end.
  rewrite H. reflexivity.
Qed.

Ltac in_list H :=
  repeat (destruct H as [H|H]; [try (injection H as <- <-); try subst|]); try contradiction H.

(** [Expect.Parse] accepts every side with every field, every operator
    and every string literal. *)
Lemma Expect_Parse_accepts_string (side fld op value : string) (f : ExpectField)
    (ty : tokenType) :
  In side sides -> In (fld, f) plain_fields -> In (op, ty) operators ->
  plain value = true ->
  exists verbatim,
    Expect_Parse Expect_zero
      (newScanner (side +:+ "." +:+ fld +:+ " " +:+ op +:+ " " +:+ quoted value))
    = (mkExpect verbatim f "" ty value, None, mkScanner "" (Some Rune.dquote)).
Proof.
  intros Hs Hf Ho Hv.
  replace (quoted value) with (quoted value +:+ "") by apply append_nil_r.
  in_list Hs; in_list Hf; in_list Ho;
    unfold Expect_Parse, Expect_Parse_field; read_tokens; eexists; reflexivity.
Qed.

(** It accepts an integer as the value. *)
Lemma Expect_Parse_accepts_integer (side fld op w : string) (f : ExpectField)
    (ty : tokenType) :
  In side sides -> In (fld, f) plain_fields -> In (op, ty) operators ->
  w <> "" -> all_ident w = true -> snd (strconv.Atoi w) = None ->
  exists verbatim,
    Expect_Parse Expect_zero (newScanner (side +:+ "." +:+ fld +:+ " " +:+ op +:+ " " +:+ w))
    = (mkExpect verbatim f "" ty w, None, mkScanner "" None).
Proof.
  intros Hs Hf Ho Hne Hw Hi.
  pose proof (classify_integer w Hi) as C.
  replace (side +:+ "." +:+ fld +:+ " " +:+ op +:+ " " +:+ w)
    with (side +:+ "." +:+ fld +:+ " " +:+ op +:+ " " +:+ w +:+ "")
    by (rewrite (append_nil_r w); reflexivity).
  in_list Hs; in_list Hf; in_list Ho;
    unfold Expect_Parse, Expect_Parse_field; read_tokens; rewrite C; eexists; reflexivity.
Qed.

(** It accepts a header with every name that a string literal can hold. *)
Lemma Expect_Parse_accepts_header (side name op value : string) (ty : tokenType) :
  In side sides -> In (op, ty) operators -> plain name = true -> plain value = true ->
  exists verbatim,
    Expect_Parse Expect_zero
      (newScanner (side +:+ ".headers[" +:+ quoted name +:+ "] " +:+ op +:+ " " +:+ quoted value))
    = (mkExpect verbatim EXPECT_HEADERS name ty value, None, mkScanner "" (Some Rune.dquote)).
Proof.
  intros Hs Ho Hn Hv.
  replace (quoted value) with (quoted value +:+ "") by apply append_nil_r.
  in_list Hs; in_list Ho.
  all: match goal with
       | |- context [newScanner (?side +:+ ".headers[" +:+ ?q +:+ "] " +:+ ?op +:+ ?rest)] =>
           change (side +:+ ".headers[" +:+ q +:+ "] " +:+ op +:+ rest)
             with (side +:+ "." +:+ "headers" +:+ "[" +:+ q +:+ "]" +:+ " " +:+ op +:+ rest)
       end.
  all: unfold Expect_Parse, Expect_Parse_field; read_tokens; eexists; reflexivity.
Qed.

(** ** The model of [regexp.Match] *)

(** The model on a status of three digits and on other patterns of the
    fragment, on patterns that do not compile, and on a pattern outside
    the fragment. *)
Lemma regexp_Match_examples :
  regexp.Match "^[0-9]{3}$" "200" = (true, None) /\
  regexp.Match "^[0-9]{3}$" "2000" = (false, None) /\
  regexp.Match "^(chrome|curl)" "curl/7.1" = (true, None) /\
  regexp.Match "\d+\.\d+" "ATS/9.1" = (true, None) /\
  (forall text, regexp.Match "(invalid-regular-expression" text
     = (false, Some "error parsing regexp: missing closing ): `(invalid-regular-expression`")) /\
  (forall text, regexp.Match "a**" text
     = (false, Some "error parsing regexp: invalid nested repetition operator: `**`")) /\
  (forall text, regexp.Match "[a-z" text
     = (false, Some "error parsing regexp: missing closing ]: `[a-z`")) /\
  regexp.modelled "\pL" "x" = false.
Proof. repeat split; vm_compute; reflexivity. Qed.

(** ** The claims *)

(** C1.  On simple.htc, a handle stanza followed by a client stanza whose
    [tx] line is followed by [expect] statements, [Parse] does not succeed:
    it returns the handler, no client, and the error of a [tx] command that
    met [expect].  The flag loop of the request read past the line break
    because no token of the scanner is a line break. *)
Theorem Parse_simple_htc_tx_error :
  settles (fun fuel => Parse fuel simple_htc)
          (Returns ([simple_htc_handler], [], Some tx_meets_expect_error)).
Proof. apply (Parse_settles 10); [vm_compute; reflexivity | discriminate]. Qed.

(** C2.  The flag loops do not stop at a line break.  No token that
    [ScanUseful] returns is a line break; the flag loop of a request reads
    the [expect] of the next line as a flag and returns an error; the flag
    loop of a response reads the flags of the next line, up to the closing
    brace. *)
Theorem tx_loop_reads_past_line_break :
  (forall s, typ (fst (ScanUseful s)) <> NEWLINE) /\
  settles (fun fuel => TxReq.Parse fuel TxReq.zero (newScanner tx_line_then_expect))
    (Returns (TxReq.mk "/a" "GET" ∅ "", Some tx_meets_expect_error,
              mkScanner (" resp.status eq 200" +:+ nl +:+ "}") None)) /\
  settles (fun fuel => TxResp.Parse fuel TxResp.zero (newScanner tx_flags_on_two_lines))
    (Returns (TxResp.mk 404 ∅ "a", None, mkScanner "}" None)).
Proof.
  split; [exact ScanUseful_not_NEWLINE|]. split.
  - exists 5. intros fuel Hle. unfold TxReq.Parse.
    rewrite (TxReq_Parse_loop_mono 5 fuel) by (try exact Hle; vm_compute; discriminate).
    vm_compute. reflexivity.
  - exists 5. intros fuel Hle. unfold TxResp.Parse.
    rewrite (TxResp_Parse_loop_mono 5 fuel) by (try exact Hle; vm_compute; discriminate).
    vm_compute. reflexivity.
Qed.

(** C3.  The stanza [handle "/p" { }] is parsed, and its response is the
    zero value of [TxResp]: status code 0, no header, empty body.  The
    status code 200 is set by [TxResp.Parse], which runs on a [tx]
    command only: [handle "/p" { tx }] has the status code 200. *)
Theorem handle_without_tx_status_0 :
  settles (fun fuel => Parse fuel handle_without_tx)
          (Returns ([HandleStanza.mk "/p" [] (TxResp.mk 0 ∅ "")], [], None)) /\
  settles (fun fuel => Parse fuel handle_with_bare_tx)
          (Returns ([HandleStanza.mk "/p" [] (TxResp.mk 200 ∅ "")], [], None)).
Proof.
  split; apply (Parse_settles 5); (vm_compute; reflexivity) || discriminate.
Qed.

(** C4.  On the script [handle ""], [Parse] panics: the path is a string
    literal, and the index expression on its first byte is out of range. *)
Theorem Parse_handle_empty_path_panics :
  settles (fun fuel => Parse fuel handle_empty_path) (Panics IndexOutOfRange).
Proof. apply (Parse_settles 1); [vm_compute; reflexivity | discriminate]. Qed.

(** C5, as stated, fails: after [tx -header "A: 1" -header "A: 2"] the
    header [A] of a response and of a request is [" 2"], the text after the
    colon with its leading space, and not ["2"]. *)
Lemma header_value_keeps_leading_space :
  (exists r s, TxResp.Parse 3 TxResp.zero (newScanner header_flags) = Returns (r, None, s) /\
     TxResp.headers r !! "A" = Some " 2" /\ TxResp.headers r <> {[ "A" := "2" ]}) /\
  (exists r s, TxReq.Parse 3 TxReq.zero (newScanner header_flags) = Returns (r, None, s) /\
     TxReq.headers r !! "A" = Some " 2" /\ TxReq.headers r <> {[ "A" := "2" ]}).
Proof.
  split; eexists; eexists; (split; [vm_compute; reflexivity|]);
    (split; [vm_compute; reflexivity|]);
    intros H; apply (f_equal (fun m : gmap string string => m !! "A")) in H;
    vm_compute in H; discriminate.
Qed.

(** C5, amended.  The argument of [-header] is split at its first colon:
    the name is the text before it and the value is all the text after it,
    a leading space included.  A later flag with the same name replaces the
    value.  After [tx -header "A: 1" -header "A: 2"] the headers of a
    response and of a request map [A] to [" 2"] and nothing else. *)
Theorem header_flag_last_wins :
  (forall name value, strings.cut_colon name = None ->
     strings.SplitN_colon_2 (name +:+ ":" +:+ value) = [name; value]) /\
  (forall r name v1 v2,
     TxResp.headers (TxResp.set_header (TxResp.set_header r name v1) name v2)
     = <[name := v2]> (TxResp.headers r)) /\
  (forall r name v1 v2,
     TxReq.headers (TxReq.set_header (TxReq.set_header r name v1) name v2)
     = <[name := v2]> (TxReq.headers r)) /\
  settles (fun fuel => TxResp.Parse fuel TxResp.zero (newScanner header_flags))
          (Returns (TxResp.mk 200 {[ "A" := " 2" ]} "", None, mkScanner "" None)) /\
  settles (fun fuel => TxReq.Parse fuel TxReq.zero (newScanner header_flags))
          (Returns (TxReq.mk "" "GET" {[ "A" := " 2" ]} "", None, mkScanner "" None)).
Proof.
  split.
  { intros name value H. unfold strings.SplitN_colon_2.
    rewrite (cut_colon_app _ _ H). reflexivity. }
  split; [intros; simpl; apply insert_insert_eq|].
  split; [intros; simpl; apply insert_insert_eq|].
  split.
  - exists 3. intros fuel Hle. unfold TxResp.Parse.
    rewrite (TxResp_Parse_loop_mono 3 fuel) by (try exact Hle; vm_compute; discriminate).
    vm_compute. reflexivity.
  - exists 3. intros fuel Hle. unfold TxReq.Parse.
    rewrite (TxReq_Parse_loop_mono 3 fuel) by (try exact Hle; vm_compute; discriminate).
    vm_compute. reflexivity.
Qed.

(** The argument [A: 2] of a header flag. *)
Lemma header_flag_last_wins_witness :
  strings.SplitN_colon_2 ("A" +:+ ":" +:+ " 2") = ["A"; " 2"].
Proof. apply (proj1 header_flag_last_wins). reflexivity. Defined.

(** C6.  The verdict of [expectThing]: under [eq] it is whether the
    expected string is the actual one, under [ne] whether it is not, under
    [~] the verdict of [regexp.Match] on the expected string as pattern and
    the actual value.  On the model of [regexp.Match] the pattern
    [^ATS/[0-9]\.[0-9]\.[0-9]$] holds of [ATS/9.1.2] and not of [nginx/1.2],
    and a pattern without anchors matches inside the value. *)
Theorem expectThing_verdict :
  (forall regexp_Match e actual,
     (operator e = EQUAL ->
        expectThing regexp_Match e actual = Returns (bool_decide (expected e = actual))) /\
     (operator e = NOTEQUAL ->
        expectThing regexp_Match e actual = Returns (bool_decide (expected e <> actual))) /\
     (operator e = TILDE -> forall verdict,
        regexp_Match (expected e) actual = (verdict, None) ->
        expectThing regexp_Match e actual = Returns verdict)) /\
  Response regexp.Match expect_server (response_from "ATS/9.1.2") = Returns true /\
  Response regexp.Match expect_server (response_from "nginx/1.2") = Returns false /\
  expectThing regexp.Match (mkExpect "" EXPECT_HEADERS "User-Agent" TILDE "chrome")
              " this might look like chrome to some" = Returns true /\
  expectThing regexp.Match (mkExpect "" EXPECT_HEADERS "Server" TILDE "ATS/[0-9]")
              "x-ATS/9.1.2" = Returns true.
Proof.
  split; [|repeat split; vm_compute; reflexivity].
  intros rm e actual. unfold expectThing. repeat split.
  - intros ->. f_equal. destruct (String.eqb_spec (expected e) actual) as [H|H].
    + rewrite bool_decide_eq_true_2; auto.
    + rewrite bool_decide_eq_false_2; auto.
  - intros ->. f_equal. destruct (String.eqb_spec (expected e) actual) as [H|H]; simpl.
    + rewrite bool_decide_eq_false_2; auto.
    + rewrite bool_decide_eq_true_2; auto.
  - intros -> verdict ->. reflexivity.
Qed.

(** The assertion [req.method eq "GET"] on the method [GET]. *)
Lemma expectThing_verdict_witness :
  expectThing regexp.Match (mkExpect "" EXPECT_METHOD "" EQUAL "GET") "GET"
  = Returns (bool_decide ("GET" = "GET")).
Proof.
  apply (proj1 (proj1 expectThing_verdict regexp.Match
                 (mkExpect "" EXPECT_METHOD "" EQUAL "GET") "GET")).
  reflexivity.
Defined.

(** C7, as stated, fails: the assertion [req.status eq 200] names the
    request side and is parsed without an error, in a client stanza too;
    there it is evaluated against the response, and the evaluation returns
    a verdict: true on a response with the status 200, false on one with
    the status 404.  Nothing is detected. *)
Lemma req_status_on_a_response :
  Expect_Parse Expect_zero (newScanner "req.status eq 200")
    = (expect_req_status, None, mkScanner "" None) /\
  settles (fun fuel => Parse fuel client_req_status)
    (Returns ([], [ClientStanza.mk "nemo" (TxReq.mk "/" "GET" ∅ "") [expect_req_status]],
              None)) /\
  Response regexp.Match expect_req_status (response_from "ATS/9.1.2") = Returns true /\
  Response regexp.Match expect_req_status (response_with 404 "") = Returns false /\
  client_loop regexp.Match [expect_req_status] (response_from "ATS/9.1.2")
    = Returns (response_from "ATS/9.1.2").
Proof.
  split; [vm_compute; reflexivity|].
  split; [apply (Parse_settles 10); [vm_compute; reflexivity | discriminate]|].
  repeat split; vm_compute; reflexivity.
Qed.

(** C7, amended.  [Expect.Parse] accepts an assertion on the status
    whichever side it names, and an assertion with the operator [~] on
    every field with every pattern that a string literal can hold: it
    keeps the field, the operator and the value, and keeps the side in the
    verbatim text only, which the evaluation does not read.  What is wrong
    with such an assertion is found when it is evaluated, or not at all.
    An assertion on the status that is evaluated against a request ends
    the process ([log.Fatal]), whichever side it names; evaluated against
    a response it is compared with the status of the response, and under
    [eq] and [ne] it gives a verdict.  An assertion whose pattern
    [regexp.Match] refuses gives no verdict against a request nor against
    a response: the evaluation panics with the error of [regexp.Match],
    when reading the actual value has not ended it before.  On the model
    of [regexp.Match] the pattern of the tests is refused with the error
    of the library. *)
Theorem errors_found_at_evaluation :
  (forall regexp_Match e req,
     field e = EXPECT_STATUS ->
     Request regexp_Match e req = Fatal "Requests have no status") /\
  (forall regexp_Match e actual verdict err,
     operator e = TILDE -> regexp_Match (expected e) actual = (verdict, Some err) ->
     expectThing regexp_Match e actual = Panics (RegexpMatchError err)) /\
  Expect_Parse Expect_zero (newScanner "req.status eq 200")
    = (expect_req_status, None, mkScanner "" None) /\
  (forall pattern, plain pattern = true ->
     Expect_Parse Expect_zero (newScanner ("req.method ~ " +:+ quoted pattern))
     = (mkExpect ("req.method ~" +:+ fmt.Sprintf " %q" pattern)
                 EXPECT_METHOD "" TILDE pattern,
        None, mkScanner "" (Some Rune.dquote))) /\
  Request regexp.Match
          (mkExpect ("req.method ~" +:+ fmt.Sprintf " %q" bad_pattern)
                    EXPECT_METHOD "" TILDE bad_pattern)
          get_request
    = Panics (RegexpMatchError
                "error parsing regexp: missing closing ): `(invalid-regular-expression`") /\
  (forall side op ty value,
     In side sides -> In (op, ty) operators -> plain value = true ->
     exists verbatim s,
       Expect_Parse Expect_zero
         (newScanner (side +:+ ".status " +:+ op +:+ " " +:+ quoted value))
       = (mkExpect verbatim EXPECT_STATUS "" ty value, None, s)) /\
  (forall side op ty w,
     In side sides -> In (op, ty) operators ->
     w <> "" -> all_ident w = true -> snd (strconv.Atoi w) = None ->
     exists verbatim s,
       Expect_Parse Expect_zero (newScanner (side +:+ ".status " +:+ op +:+ " " +:+ w))
       = (mkExpect verbatim EXPECT_STATUS "" ty w, None, s)) /\
  (forall side fld f pattern,
     In side sides -> In (fld, f) plain_fields -> plain pattern = true ->
     exists verbatim s,
       Expect_Parse Expect_zero
         (newScanner (side +:+ "." +:+ fld +:+ " ~ " +:+ quoted pattern))
       = (mkExpect verbatim f "" TILDE pattern, None, s)) /\
  (forall side name pattern,
     In side sides -> plain name = true -> plain pattern = true ->
     exists verbatim s,
       Expect_Parse Expect_zero
         (newScanner (side +:+ ".headers[" +:+ quoted name +:+ "] ~ " +:+ quoted pattern))
       = (mkExpect verbatim EXPECT_HEADERS name TILDE pattern, None, s)) /\
  (forall regexp_Match e resp,
     field e = EXPECT_STATUS ->
     Response regexp_Match e resp
     = expectThing regexp_Match e (strconv.Itoa (http.StatusCode resp)) /\
     (operator e = EQUAL ->
      Response regexp_Match e resp
      = Returns (bool_decide (expected e = strconv.Itoa (http.StatusCode resp)))) /\
     (operator e = NOTEQUAL ->
      Response regexp_Match e resp
      = Returns (bool_decide (expected e <> strconv.Itoa (http.StatusCode resp))))) /\
  (forall regexp_Match e,
     operator e = TILDE ->
     (forall actual, snd (regexp_Match (expected e) actual) <> None) ->
     (forall req,
        (exists err, Request regexp_Match e req = Panics (RegexpMatchError err)) \/
        Request regexp_Match e req = Fatal "Requests have no status" \/
        (exists err, Request regexp_Match e req = Panics (ReadAllError err))) /\
     (forall resp,
        (exists err, Response regexp_Match e resp = Panics (RegexpMatchError err)) \/
        (exists err, Response regexp_Match e resp = Panics (ReadAllError err)))) /\
  (forall actual,
     regexp.Match bad_pattern actual
     = (false,
        Some "error parsing regexp: missing closing ): `(invalid-regular-expression`")) /\
  Response regexp.Match (mkExpect "" EXPECT_HEADERS "Server" TILDE bad_pattern)
           (response_from "ATS/9.1.2")
    = Panics (RegexpMatchError
                "error parsing regexp: missing closing ): `(invalid-regular-expression`") /\
  (forall regexp_Match e text,
     (forall req, Request regexp_Match (set_verbatim e text) req = Request regexp_Match e req) /\
     (forall resp,
        Response regexp_Match (set_verbatim e text) resp = Response regexp_Match e resp)).
Proof.
  split.
  { intros rm e req H. unfold Request, ActualRequest. rewrite H. reflexivity. }
  split.
  { intros rm e actual verdict err Hop H. unfold expectThing. rewrite Hop, H. reflexivity. }
  split; [vm_compute; reflexivity|].
  split; [exact Expect_Parse_any_pattern|].
  split; [vm_compute; reflexivity|].
  split.
  { intros side op ty value Hs Ho Hv.
    destruct (Expect_Parse_accepts_string side "status" op value EXPECT_STATUS ty Hs
                ltac:(simpl; tauto) Ho Hv) as [verbatim E].
    exists verbatim. eexists. exact E. }
  split.
  { intros side op ty w Hs Ho Hne Hw Hi.
    destruct (Expect_Parse_accepts_integer side "status" op w EXPECT_STATUS ty Hs
                ltac:(simpl; tauto) Ho Hne Hw Hi) as [verbatim E].
    exists verbatim. eexists. exact E. }
  split.
  { intros side fld f pattern Hs Hf Hp.
    destruct (Expect_Parse_accepts_string side fld "~" pattern f TILDE Hs Hf
                ltac:(simpl; tauto) Hp) as [verbatim E].
    exists verbatim. eexists. exact E. }
  split.
  { intros side name pattern Hs Hn Hp.
    destruct (Expect_Parse_accepts_header side name "~" pattern TILDE Hs
                ltac:(simpl; tauto) Hn Hp) as [verbatim E].
    exists verbatim. eexists. exact E. }
  split.
  { intros rm e resp H. unfold Response, ActualResponse, expectThing. rewrite H. simpl.
    split; [reflexivity|]. split; intros ->; f_equal.
    - destruct (String.eqb_spec (expected e) (strconv.Itoa (http.StatusCode resp))).
      + rewrite bool_decide_eq_true_2; auto.
      + rewrite bool_decide_eq_false_2; auto.
    - destruct (String.eqb_spec (expected e) (strconv.Itoa (http.StatusCode resp))); simpl.
      + rewrite bool_decide_eq_false_2; auto.
      + rewrite bool_decide_eq_true_2; auto. }
  split.
  { intros rm e Hop Herr.
    assert (K : forall actual, exists err,
               expectThing rm e actual = Panics (RegexpMatchError err)).
    { intros actual. specialize (Herr actual). unfold expectThing. rewrite Hop.
      destruct (rm (expected e) actual) as [v [err|]]; [eauto|]. contradiction Herr.
      reflexivity. }
    split.
    - intros req. unfold Request, ActualRequest.
      destruct (field e); simpl; auto.
      destruct (http.Body req) as [|data|err]; simpl; auto.
      right; right. eauto.
    - intros resp. unfold Response, ActualResponse.
      destruct (field e); simpl; auto.
      destruct (http.resp_Body resp) as [|data|err]; simpl; auto.
      right. eauto. }
  split; [intros actual; reflexivity|].
  split; [vm_compute; reflexivity|].
  intros rm e text. split; intros; destruct e; reflexivity.
Qed.

(** The status of a GET request, and the pattern of the tests. *)
Lemma errors_found_at_evaluation_witness :
  Request regexp.Match expect_req_status get_request = Fatal "Requests have no status" /\
  Expect_Parse Expect_zero (newScanner ("req.method ~ " +:+ quoted bad_pattern))
  = (mkExpect ("req.method ~" +:+ fmt.Sprintf " %q" bad_pattern)
              EXPECT_METHOD "" TILDE bad_pattern,
     None, mkScanner "" (Some Rune.dquote)).
Proof.
  split.
  - apply (proj1 errors_found_at_evaluation). reflexivity.
  - apply (proj1 (proj2 (proj2 (proj2 errors_found_at_evaluation)))). reflexivity.
Defined.

(** C8.  A run of [Parse] that returns no handler and no client returns
    an error, and one that returns no error returns a handler or a client.
    On a text of whitespace and comments it returns the error that asks
    for a stanza. *)
Theorem Parse_wants_a_stanza :
  (forall fuel text h c err,
     Parse fuel text = Returns (h, c, err) ->
     (h = [] -> c = [] -> err <> None) /\ (err = None -> h <> [] \/ c <> [])) /\
  (forall text, blank false text = true ->
     settles (fun fuel => Parse fuel text) (Returns ([], [], Some no_stanza_error))).
Proof.
  split.
  - intros fuel text h c err H. apply Parse_loop_stanza in H. tauto.
  - intros text B. exists 1. intros [|fuel] Hle; [lia|].
    unfold Parse; simpl.
    pose proof (ScanUseful_blank (newScanner text) B) as E.
    destruct (ScanUseful (newScanner text)) as [t s1]; simpl in E. subst t. reflexivity.
Qed.

(** A script of comments, and a script of one handle stanza. *)
Lemma Parse_wants_a_stanza_witness :
  settles (fun fuel => Parse fuel only_comments) (Returns ([], [], Some no_stanza_error)) /\
  ([HandleStanza.mk "/p" [] (TxResp.mk 200 ∅ "")] <> [] \/ @nil ClientStanza.t <> []).
Proof.
  split.
  - apply (proj2 Parse_wants_a_stanza). reflexivity.
  - apply (proj1 Parse_wants_a_stanza 5 handle_with_bare_tx _ _ None);
      [vm_compute|]; reflexivity.
Defined.

(** C9, as stated, fails: after the string literal ["a"] of the script
    ["a" "b"], [unread] puts back the closing quote, and the next scan
    returns the string literal of one space. *)
Lemma unread_after_string_literal :
  fst (scan (newScanner two_strings)) = newToken STRING "a" /\
  fst (scan (unread (snd (scan (newScanner two_strings))))) = newToken STRING " " /\
  fst (ScanUseful (newScanner two_strings)) = newToken STRING "a" /\
  fst (ScanUseful (unread (snd (ScanUseful (newScanner two_strings))))) = newToken STRING " " /\
  newToken STRING " " <> newToken STRING "a".
Proof. repeat split; try (vm_compute; reflexivity). discriminate. Qed.

(** C9, amended.  [unread] puts back the last rune that was read, once.
    When [scan] or [ScanUseful] has returned a token made of one rune (an
    end of input or one of the punctuation marks), [unread] and the same
    scan return that token again and leave the scanner where it was.  The
    flag loops return on every text; when one returns without an error,
    the token it unread is an end of input or a closing brace, and the next
    [ScanUseful] returns it.  The ILLEGAL token of a rune that starts no
    token is made of one rune too, and is restored the same way.  No other
    token is: after whitespace, a comment or an identifier (a token that
    starts with an identifier rune), [unread] and [scan] return another
    token; after a string literal that its quote closes, [unread] puts the
    closing quote back, and [scan] reads the text after the literal, up to
    the next quote or to the end of the text, as a string literal; after a
    string literal that the end of the text leaves open, [scan] returns
    the end of input. *)
Theorem unread_pushes_back_one_rune :
  (forall s t s2, scan s = (t, s2) -> single_rune (typ t) = true ->
     scan (unread s2) = (t, s2)) /\
  (forall s t s2, ScanUseful s = (t, s2) -> single_rune (typ t) = true ->
     ScanUseful (unread s2) = (t, s2)) /\
  (forall fuel r s r' s', TxResp.Parse fuel r s = Returns (r', None, s') ->
     exists s0 t s2, ScanUseful s0 = (t, s2) /\ s' = unread s2 /\
       (typ t = EOF \/ typ t = CLOSE_CURLY) /\ ScanUseful s' = (t, s2)) /\
  (forall fuel r s r' s', TxReq.Parse fuel r s = Returns (r', None, s') ->
     exists s0 t s2, ScanUseful s0 = (t, s2) /\ s' = unread s2 /\
       (typ t = EOF \/ typ t = CLOSE_CURLY) /\ ScanUseful s' = (t, s2)) /\
  (forall r s, exists n, forall fuel, n <= fuel ->
     exists res, TxResp.Parse fuel r s = Returns res) /\
  (forall r s, exists n, forall fuel, n <= fuel ->
     exists res, TxReq.Parse fuel r s = Returns res) /\
  (forall s t s2, scan s = (t, s2) -> one_rune_token t = true ->
     scan (unread s2) = (t, s2)) /\
  (forall s t s2, ScanUseful s = (t, s2) -> one_rune_token t = true ->
     ScanUseful (unread s2) = (t, s2)) /\
  (forall ch rest l, illegal_rune ch = true ->
     scan (mkScanner (String ch rest) l)
       = (newToken ILLEGAL (Rune.to_string ch), mkScanner rest (Some ch)) /\
     one_rune_token (newToken ILLEGAL (Rune.to_string ch)) = true) /\
  (forall s t s2, scan s = (t, s2) -> one_rune_token t = false -> typ t <> STRING ->
     fst (scan (unread s2)) <> t) /\
  (forall text text' rest l, plain text = true -> plain text' = true ->
     let s := mkScanner (quoted text +:+ text' +:+ dq +:+ rest) l in
     fst (scan s) = newToken STRING text /\
     scan (unread (snd (scan s)))
       = (newToken STRING text', mkScanner rest (Some Rune.dquote))) /\
  (forall text l, plain text = true ->
     let s := mkScanner (dq +:+ text) l in
     fst (scan s) = newToken STRING text /\
     scan (unread (snd (scan s))) = (newToken EOF "", mkScanner "" None)) /\
  (forall text text' l, plain text = true -> plain text' = true ->
     let s := mkScanner (quoted text +:+ text') l in
     fst (scan s) = newToken STRING text /\
     scan (unread (snd (scan s))) = (newToken STRING text', mkScanner "" None)) /\
  (forall s t s2, scan s = (t, s2) ->
     typ t = WS \/ typ t = HASH \/
     (exists ch rest, pending s = String ch rest /\ Rune.isIdent ch = true) ->
     fst (scan (unread s2)) <> t).
Proof.
  split; [exact scan_unread_single_rune|].
  split; [exact ScanUseful_unread_single_rune|].
  split.
  { intros fuel r s r' s' H. apply TxResp_Parse_loop_stops in H as (s0 & t & s2 & H & K & ->).
    exists s0, t, s2. repeat split; auto.
    apply (ScanUseful_unread_single_rune s0); [exact H|].
    destruct K as [-> | ->]; reflexivity. }
  split.
  { intros fuel r s r' s' H. apply TxReq_Parse_loop_stops in H as (s0 & t & s2 & H & K & ->).
    exists s0, t, s2. repeat split; auto.
    apply (ScanUseful_unread_single_rune s0); [exact H|].
    destruct K as [-> | ->]; reflexivity. }
  split.
  { intros r s; exists (S (String.length (pending s))); intros fuel Hle.
    apply TxResp_Parse_loop_returns. simpl. lia. }
  split.
  { intros r s; exists (S (String.length (pending s))); intros fuel Hle.
    apply TxReq_Parse_loop_returns. simpl. lia. }
  split; [exact scan_unread_one_rune|].
  split; [exact ScanUseful_unread_one_rune|].
  split; [exact scan_illegal_rune|].
  split; [exact scan_unread_longer|].
  split; [exact scan_unread_string|].
  split; [exact scan_unread_open_string|].
  split; [exact scan_unread_string_end|exact scan_unread_not_restored].
Qed.

(** After the closing brace of the script [ } x]. *)
Lemma unread_pushes_back_one_rune_witness :
  ScanUseful (unread (mkScanner " x" (Some "}"%char)))
  = (newToken CLOSE_CURLY "}", mkScanner " x" (Some "}"%char)).
Proof.
  apply (proj1 (proj2 unread_pushes_back_one_rune) (newScanner " } x")); reflexivity.
Defined.

(** C10.  An assertion that [Expect.Parse] returns without an error has
    one of the operators [eq], [ne] and [~], and its evaluation does not
    panic on an unknown operator.  An assertion made by hand can: the zero
    value [Expect{}], whose operator is the token type 0, does. *)
Theorem parsed_operator_is_known :
  (forall e0 s e s',
     Expect_Parse e0 s = (e, None, s') ->
     is_operator (operator e) = true /\
     forall regexp_Match actual op,
       expectThing regexp_Match e actual <> Panics (UnknownOperator op)) /\
  (forall regexp_Match actual,
     expectThing regexp_Match Expect_zero actual = Panics (UnknownOperator ILLEGAL)).
Proof.
  split; [|reflexivity].
  intros e0 s e s' H.
  assert (is_operator (operator e) = true) as Hop.
  { revert H. unfold Expect_Parse.
    destruct (ScanUseful s) as [t1 s1].
    destruct (negb (is_typ t1 REQ) && negb (is_typ t1 RESP)); [discriminate|].
    destruct (ScanUseful s1) as [t2 s2].
    destruct (negb (is_typ t2 DOT)); [discriminate|].
    destruct (ScanUseful s2) as [t3 s3].
    destruct (Expect_Parse_field _ t3 s3) as [[e1 [err|]] s4]; [discriminate|].
    destruct (ScanUseful s4) as [t4 s5].
    destruct (negb (is_typ t4 EQUAL) && negb (is_typ t4 NOTEQUAL) && negb (is_typ t4 TILDE)) eqn:K;
      [discriminate|].
    destruct (ScanUseful s5) as [t5 s6].
    destruct (negb (is_typ t5 STRING) && negb (is_typ t5 INTEGER)); [discriminate|].
    intros H. injection H as <- _. simpl.
    unfold is_typ, tokenType_eqb in K. destruct (typ t4); try discriminate; reflexivity. }
  split; [exact Hop|].
  intros rm actual op. unfold expectThing.
  destruct (operator e); try discriminate; destruct (rm _ _) as [b [err|]]; discriminate.
Qed.

(** The assertion that [req.method eq "GET"] is parsed into. *)
Lemma parsed_operator_is_known_witness :
  is_operator EQUAL = true /\
  forall regexp_Match actual op,
    expectThing regexp_Match
      (mkExpect ("req.method eq " +:+ quoted "GET") EXPECT_METHOD "" EQUAL "GET") actual
    <> Panics (UnknownOperator op).
Proof.
  apply (proj1 parsed_operator_is_known Expect_zero
           (newScanner ("req.method eq " +:+ quoted "GET"))
           (mkExpect ("req.method eq " +:+ quoted "GET") EXPECT_METHOD "" EQUAL "GET")
           (mkScanner "" (Some Rune.dquote))).
  vm_compute. reflexivity.
Defined.
